(** * Discord export parser: ingestion, normalisation and aggregation

    A shallow embedding of [src/parser/discordExportParser.js] (with the
    date helper [getLocalDateKey] of [src/utils/dateUtils.js]) and the
    properties of its specification.

    JavaScript strings are sequences of UTF-16 code units; objects used as
    dictionaries are finite maps; insertion-ordered [Map]s are association
    lists kept in insertion order; [try]/[catch] is an explicit handler on a
    result type.  Functions of the JavaScript runtime whose tables are not
    part of the repository (case mapping, date parsing, local-time fields,
    locale collation) are the fields of the class [Host]. *)

From Stdlib Require Import ZArith NArith QArith Qminmax Qround Lia String Ascii List Sorted DecimalString.
From stdpp Require Import base option list sorting gmap.

Set Warnings "-register-all".
Local Open Scope Z_scope.

(** ** Strings as UTF-16 code units *)

Module JS.

Definition jstring := list N.

(** An ASCII literal as a JavaScript string. *)
Definition lit (s : string) : jstring :=
  map N_of_ascii (list_ascii_of_string s).

(** [\d] *)
Definition is_digit (c : N) : bool := ((48 <=? c) && (c <=? 57))%N.

(** [\w] *)
Definition is_word (c : N) : bool :=
  (((97 <=? c) && (c <=? 122)) || ((65 <=? c) && (c <=? 90))
   || is_digit c || (c =? 95))%N.

(** [\s], which is also the set [String.prototype.trim] strips:
    WhiteSpace and LineTerminator of ECMA-262. *)
Definition is_space (c : N) : bool :=
  (((9 <=? c) && (c <=? 13)) || (c =? 32) || (c =? 160) || (c =? 5760)
   || ((8192 <=? c) && (c <=? 8202)) || (c =? 8232) || (c =? 8233)
   || (c =? 8239) || (c =? 8287) || (c =? 12288) || (c =? 65279))%N.

Fixpoint trimStart (s : jstring) : jstring :=
  match s with
  | c :: r => if is_space c then trimStart r else s
  | [] => []
  end.

Definition trimEnd (s : jstring) : jstring := rev (trimStart (rev s)).

Definition trim (s : jstring) : jstring := trimEnd (trimStart s).

Fixpoint startsWith (p s : jstring) : bool :=
  match p, s with
  | [], _ => true
  | a :: p', b :: s' => (a =? b)%N && startsWith p' s'
  | _ :: _, [] => false
  end.

Definition endsWith (p s : jstring) : bool := startsWith (rev p) (rev s).

End JS.
Export JS.

(** ** The ID-shape heuristic *)

(** [/^[c~]?\d{15,}$/.test(s)]: neither [c] nor [~] is a digit, so the
    optional prefix is decided by the first code unit. *)
Definition digits_at_least (n : nat) (s : jstring) : bool :=
  (n <=? length s)%nat && forallb is_digit s.

Definition re_prefixed_id (s : jstring) : bool :=
  match s with
  | c :: r =>
      if ((c =? 99) || (c =? 126))%N then digits_at_least 15 r
      else digits_at_least 15 s
  | [] => false
  end.

(** [/^\d+$/.test(s)] *)
Definition re_all_digits (s : jstring) : bool := digits_at_least 1 s.

(** [looksLikeId(str)]; a value that is not a string ([None]) is rejected
    by the [typeof] guard. *)
Definition looksLikeId (str : option jstring) : bool :=
  match str with
  | None => false
  | Some str =>
      let s := trim str in
      re_prefixed_id s || ((16 <? length s)%nat && re_all_digits s)
  end.

(** The specification's reading of the pattern [^[c~]?\d{15,}$]: an optional
    one-unit prefix [c] or [~] followed by at least fifteen decimal digits and
    nothing else. *)
Definition spec_matches_id_pattern (s : jstring) : Prop :=
  exists p d, s = p ++ d
    /\ (p = [] \/ p = lit "c" \/ p = lit "~")
    /\ (15 <= length d)%nat /\ Forall (fun c => is_digit c = true) d.

Definition spec_purely_numeric (s : jstring) : Prop :=
  s <> [] /\ Forall (fun c => is_digit c = true) s.

Definition spec_id_shaped (s : jstring) : Prop :=
  spec_matches_id_pattern s \/ ((16 < length s)%nat /\ spec_purely_numeric s).

(** ** JSON values and the host runtime *)

(** The value [JSON.parse] returns.  Numbers are the integral ones; an
    object lists each of its keys once.  The parser reads only names that no
    built-in prototype defines, so a property read on a primitive or an array
    yields [undefined] ([None]). *)
Inductive json :=
| JNull
| JBool (b : bool)
| JNum (n : Z)
| JStr (s : jstring)
| JArr (items : list json)
| JObj (fields : list (jstring * json)).

Fixpoint jstring_eqb (a b : jstring) : bool :=
  match a, b with
  | [], [] => true
  | x :: a', y :: b' => (x =? y)%N && jstring_eqb a' b'
  | _, _ => false
  end.

Fixpoint assoc {A} (k : jstring) (l : list (jstring * A)) : option A :=
  match l with
  | [] => None
  | (k', v) :: r => if jstring_eqb k k' then Some v else assoc k r
  end.

(** [v.k] on a value that is neither [null] nor [undefined]. *)
Definition prop (v : json) (k : string) : option json :=
  match v with
  | JObj fs => assoc (lit k) fs
  | _ => None
  end.

(** [k in v] for an object or array [v]. *)
Definition has_key (k : string) (v : json) : bool :=
  match prop v k with Some _ => true | None => false end.

Definition nullish (v : option json) : bool :=
  match v with
  | None | Some JNull => true
  | Some _ => false
  end.

(** [a ?? b] *)
Definition coalesce (a b : option json) : option json :=
  if nullish a then b else a.

Infix "??" := coalesce (at level 45, right associativity).

Definition truthy (v : json) : bool :=
  match v with
  | JNull => false
  | JBool b => b
  | JNum n => negb (n =? 0)
  | JStr s => match s with [] => false | _ => true end
  | JArr _ | JObj _ => true
  end.

Definition truthy_opt (v : option json) : bool :=
  match v with Some j => truthy j | None => false end.

(** Truthiness of a string-or-null value. *)
Definition nonempty (v : option jstring) : bool :=
  match v with
  | Some (_ :: _) => true
  | _ => false
  end.

(** What the JavaScript runtime contributes.  Time values are milliseconds
    since the epoch; [None] stands for [NaN]. *)
Class Host := {
  (** [String.prototype.toLowerCase] *)
  toLowerCase : jstring -> jstring;
  (** [Date.parse] *)
  Date_parse : jstring -> option Z;
  (** [String(v)] for a number, an array or an object *)
  ToString : json -> jstring;
  (** local-time fields of a valid time value *)
  getFullYear : Z -> Z;
  getMonth : Z -> Z;
  getDate : Z -> Z;
  getHours : Z -> Z;
  getDay : Z -> Z;
  (** [String.prototype.localeCompare] *)
  localeCompare : jstring -> jstring -> Z
}.

(** [Date] objects: [getTime] is [None] on an invalid date. *)
Record Date := mkDate { getTime : option Z }.

Definition TimeClip (t : Z) : option Z :=
  if Z.abs t <=? 8640000000000000 then Some t else None.

(** Decimal form of an integer, as [String(n)] prints it. *)
Definition Number_toString (n : Z) : jstring :=
  lit (NilZero.string_of_int (Z.to_int n)).

Definition padStart2 (s : jstring) : jstring :=
  match s with
  | [] => lit "00"
  | [c] => [48%N; c]
  | _ => s
  end.

Section Runtime.
Context `{Host}.

(** [String(v)] *)
Definition js_String (v : json) : jstring :=
  match v with
  | JStr s => s
  | JNull => lit "null"
  | JBool true => lit "true"
  | JBool false => lit "false"
  | _ => ToString v
  end.

(** [new Date(v)]: a string is parsed, an array or object is first turned
    into its string, anything else is used as a number. *)
Definition newDate (v : json) : Date :=
  mkDate
    match v with
    | JStr s => Date_parse s ≫= TimeClip
    | JNum n => TimeClip n
    | JBool b => Some (if b then 1 else 0)
    | JNull => Some 0
    | JArr _ | JObj _ => Date_parse (ToString v) ≫= TimeClip
    end.

(** [new Date(t)] for a number [t] *)
Definition newDate_ms (t : Z) : Date := mkDate (TimeClip t).

(** [getLocalDateKey(ts)] of [dateUtils.js] *)
Definition getLocalDateKey (ts : option Date) : option jstring :=
  match ts with
  | None => None
  | Some d =>
      match getTime d with
      | None => None
      | Some t =>
          let y := getFullYear t in
          let m := padStart2 (Number_toString (getMonth t + 1)) in
          let day := padStart2 (Number_toString (getDate t)) in
          Some (Number_toString y ++ lit "-" ++ m ++ lit "-" ++ day)
      end
  end.

End Runtime.

(** ** Record normaliser *)

(** Outcome of a block that may raise an exception. *)
Inductive Res (A : Type) :=
| Ok (a : A)
| Throw.
Arguments Ok {A} a.
Arguments Throw {A}.

Record Message := {
  id : option json;
  timestamp : option Date;
  contents : jstring;
  attachments : list json;
  channelId : option jstring;
  guildId : option jstring;
  channelName : option jstring;
  guildName : option jstring;
  avatarUrl : option jstring
}.

Module Meta.
Record t := {
  guildId : option jstring;
  channelId : option jstring;
  channelName : option jstring;
  guildName : option jstring;
  userIds : option json;
  avatarUrl : option jstring;
  recipients : option (list json)
}.

(** The object [{}] used when a channel has no metadata. *)
Definition empty : t :=
  {| guildId := None; channelId := None; channelName := None;
     guildName := None; userIds := None; avatarUrl := None;
     recipients := None |}.
End Meta.

Definition CHANNEL_META_NAMES : list string := ["channel.json"; "metadata.json"]%string.

Definition TZ_OFFSET_HOURS : Z := -5.
Definition TZ_OFFSET_MS : Z := TZ_OFFSET_HOURS * 60 * 60 * 1000.

(** [a && b] on values *)
Definition js_and (a b : option json) : option json :=
  if truthy_opt a then b else a.

Definition isMessageArray (data : json) : bool :=
  match data with
  | JArr (first :: _) =>
      match first with
      | JArr _ | JObj _ =>
          let hasContent :=
            has_key "Contents" first || has_key "content" first || has_key "contents" first in
          let hasTime :=
            has_key "Timestamp" first || has_key "timestamp" first || has_key "date" first in
          hasContent || hasTime
      | _ => false
      end
  | _ => false
  end.

Definition isChannelMeta (data : json) : bool :=
  match data with
  | JArr _ | JObj _ =>
      has_key "Channel ID" data
      || has_key "channel_id" data
      || has_key "Channel Id" data
      || has_key "channelId" data
      || (has_key "Guild ID" data && has_key "Channel Name" data)
      || (has_key "Guild ID" data && has_key "channel_name" data)
      || (has_key "User IDs" data && (has_key "Channel ID" data || has_key "channel_id" data))
  | _ => false
  end.

Section Normalizer.
Context `{Host}.

(** A field that the export stores as a string: [null] and [undefined] are
    [None]; a scalar of another type is read through [String], the form in
    which it would act as a property key. *)
Definition text (v : option json) : option jstring :=
  match v with
  | None | Some JNull => None
  | Some j => Some (js_String j)
  end.

(** [msg.Timestamp ?? msg.timestamp ?? msg.date] *)
Definition raw_timestamp (msg : json) : option json :=
  prop msg "Timestamp" ?? prop msg "timestamp" ?? prop msg "date".

Definition normalizeMessage (msg : json) : Res Message :=
  match msg with
  | JNull => Throw
  | _ =>
      let id := prop msg "ID" ?? prop msg "id" in
      let ts := raw_timestamp msg in
      let contents :=
        prop msg "Contents" ?? prop msg "content" ?? prop msg "contents" ?? Some (JStr []) in
      let attachments := prop msg "Attachments" ?? prop msg "attachments" ?? Some (JArr []) in
      let arr :=
        match attachments with
        | Some (JArr l) => l
        | Some a => if truthy a then [a] else []
        | None => []
        end in
      let rawDate := if truthy_opt ts then newDate <$> ts else None in
      let timestamp :=
        match rawDate with
        | Some d =>
            match getTime d with
            | Some t => Some (newDate_ms (t + TZ_OFFSET_MS))
            | None => None
            end
        | None => None
        end in
      Ok {| id := id;
            timestamp := timestamp;
            contents := default [] (js_String <$> (contents ?? Some (JStr [])));
            attachments := arr;
            channelId := None;
            guildId := None;
            channelName := None;
            guildName := None;
            avatarUrl := None |}
  end.

Definition normalizeChannelMeta (data : json) : Res Meta.t :=
  match data with
  | JNull => Throw
  | _ =>
      let recipients := prop data "Recipients" ?? prop data "recipients" ?? prop data "User IDs" in
      let firstRecipient :=
        match recipients with
        | Some (JArr l) => head l
        | Some (JObj fs) => Some (JObj fs)
        | _ => Some JNull
        end in
      let of_first (k1 k2 : string) (k3 : option string) :=
        js_and firstRecipient
          match firstRecipient with
          | Some r => prop r k1 ?? prop r k2 ?? (k3 ≫= prop r)
          | None => None
          end in
      let channelId :=
        prop data "Channel ID" ?? prop data "channel_id" ?? prop data "ChannelId"
          ?? prop data "channelId" ?? Some JNull in
      let dmName :=
        prop data "Name" ?? prop data "name" ?? prop data "display_name"
          ?? of_first "username"%string "name"%string (Some "global_name"%string) in
      let avatarUrl :=
        prop data "icon_url" ?? prop data "avatar" ?? prop data "avatar_url"
          ?? of_first "avatar"%string "avatar_url"%string None in
      let finish (avatarFull : option jstring) :=
        Ok {| Meta.guildId :=
                text (prop data "Guild ID" ?? prop data "guild_id" ?? prop data "GuildId");
              Meta.channelId := text channelId;
              Meta.channelName :=
                text (prop data "Channel Name" ?? prop data "channel_name"
                        ?? prop data "ChannelName" ?? dmName ?? Some (JStr (lit "Unknown")));
              Meta.guildName :=
                text (prop data "Guild Name" ?? prop data "guild_name" ?? prop data "GuildName");
              Meta.userIds := prop data "User IDs" ?? prop data "user_ids" ?? Some JNull;
              Meta.avatarUrl := avatarFull;
              Meta.recipients :=
                match recipients with
                | Some (JArr l) => Some l
                | _ => if truthy_opt firstRecipient
                       then (fun r => [r]) <$> firstRecipient else None
                end |} in
      if truthy_opt avatarUrl then
        match avatarUrl with
        | Some (JStr a) =>
            if startsWith (lit "http") a then finish (Some a)
            else if truthy_opt channelId then
              finish (Some (lit "https://cdn.discordapp.com/avatars/"
                              ++ default [] (js_String <$> channelId)
                              ++ lit "/" ++ a ++ lit ".png"))
            else finish None
        | _ => Throw
        end
      else finish None
  end.

End Normalizer.

(** ** Tokens and custom-emoji shorthand *)

(** The class [[\s\u200b-\u200d\ufeff]] *)
Definition is_sep (c : N) : bool :=
  (is_space c || ((8203 <=? c) && (c <=? 8205)) || (c =? 65279))%N.

(** [s.replace(/[\s\u200b-\u200d\ufeff]+/g, ' ')]; [in_run] tells that the
    previous unit belonged to the run being replaced. *)
Fixpoint replace_sep_runs (in_run : bool) (s : jstring) : jstring :=
  match s with
  | [] => []
  | c :: r =>
      if is_sep c then
        if in_run then replace_sep_runs true r else 32%N :: replace_sep_runs true r
      else c :: replace_sep_runs false r
  end.

(** [s.split(/\s+/)]; [cur] is the piece being read, in reverse, and
    [in_ws] tells that the previous unit was white space.  A separator at
    either end leaves an empty piece there, and the empty string splits into
    one empty piece. *)
Fixpoint split_ws_from (cur : jstring) (in_ws : bool) (s : jstring) : list jstring :=
  match s with
  | [] => [rev cur]
  | c :: r =>
      if is_space c then
        if in_ws then split_ws_from [] true r
        else rev cur :: split_ws_from [] true r
      else split_ws_from (c :: cur) false r
  end.

Definition split_ws (s : jstring) : list jstring := split_ws_from [] false s.

(** The class [[\w~]] *)
Definition is_emoji_unit (c : N) : bool := (is_word c || (c =? 126))%N.

Definition is_colon (c : N) : bool := (c =? 58)%N.

(** [/^:[\w~]+:$/.test(w)] *)
Definition re_emoji_key (w : jstring) : bool :=
  match w with
  | c :: r =>
      is_colon c &&
      match rev r with
      | c' :: m => is_colon c' && match m with [] => false | _ => forallb is_emoji_unit m end
      | [] => false
      end
  | [] => false
  end.

(** [s.match(/:[\w~]+:/g)], the successive leftmost matches.  [open] is
    [Some w] when an unmatched colon has been read and [w] is the run of
    [[\w~]] units read since, in reverse.  The run is greedy and a colon is
    not in the class, so a match ends at the first colon after a non-empty
    run; any other unit abandons the attempt, and no later start inside the
    abandoned run can match because none of its units is a colon. *)
Fixpoint matchEmojis_from (open : option jstring) (s : jstring) : list jstring :=
  match s with
  | [] => []
  | c :: r =>
      match open with
      | None => matchEmojis_from (if is_colon c then Some [] else None) r
      | Some w =>
          if is_emoji_unit c then matchEmojis_from (Some (c :: w)) r
          else if is_colon c then
            match w with
            | [] => matchEmojis_from (Some []) r
            | _ => (58%N :: rev w ++ [58%N]) :: matchEmojis_from None r
            end
          else matchEmojis_from None r
      end
  end.

Definition matchEmojis (s : jstring) : list jstring := matchEmojis_from None s.

Definition STOPWORDS : list jstring :=
  map lit
    ["the"; "a"; "an"; "and"; "or"; "but"; "in"; "on"; "at"; "to"; "for"; "of";
     "with"; "by"; "is"; "it"; "i"; "you"; "we"; "they"; "this"; "that"; "be";
     "are"; "was"; "were"; "been"; "have"; "has"; "had"; "do"; "does"; "did";
     "will"; "would"; "could"; "should"; "can"; "if"; "as"; "so"; "my"; "me";
     "your"; "he"; "she"; "his"; "her"; "its"; "just"; "not"; "no"; "yes"; "oh";
     "um"; "uh"; "im"; "dont"; "cant"; "wont"; "thats"; "what"; "when"; "where";
     "who"; "how"; "why"; "all"; "each"; "every"; "some"; "any"; "from"; "up";
     "out"; "about"; "into"; "over"; "after"; "before"; "between"; "through";
     "during"; "above"; "below"; "more"; "most"; "other"; "than"; "then"; "them";
     "these"; "those"; "here"; "there"]%string.

Definition is_stopword (w : jstring) : bool := existsb (jstring_eqb w) STOPWORDS.

(** ** Insertion-ordered maps and stable sorting *)

(** [map.set(k, f(map.get(k)))] on a [Map]: a present key keeps its place,
    a new key goes last. *)
Fixpoint upsert {K V} (eqb : K -> K -> bool) (k : K) (f : option V -> V)
    (l : list (K * V)) : list (K * V) :=
  match l with
  | [] => [(k, f None)]
  | (k', v) :: r =>
      if eqb k k' then (k', f (Some v)) :: r else (k', v) :: upsert eqb k f r
  end.

Fixpoint lookup_by {K V} (eqb : K -> K -> bool) (k : K) (l : list (K * V)) : option V :=
  match l with
  | [] => None
  | (k', v) :: r => if eqb k k' then Some v else lookup_by eqb k r
  end.

(** [map.set(k, (map.get(k) || 0) + 1)] *)
Definition bump {K} (eqb : K -> K -> bool) (k : K) (l : list (K * Z)) : list (K * Z) :=
  upsert eqb k (fun o => default 0 o + 1) l.

Fixpoint insert_by {A} (cmp : A -> A -> Z) (x : A) (l : list A) : list A :=
  match l with
  | [] => [x]
  | y :: r => if cmp x y <=? 0 then x :: l else y :: insert_by cmp x r
  end.

(** [Array.prototype.sort] with a comparator: a stable sort. *)
Definition sort_by {A} (cmp : A -> A -> Z) (l : list A) : list A :=
  foldr (insert_by cmp) [] l.

(** [(a, b) => b[1] - a[1]] *)
Definition by_count_desc {K} (a b : K * Z) : Z := snd b - snd a.

(** [Math.round] of a quotient of integers: the nearest integer, halves
    rounded up.  The quotient is kept exact; for counts below 2^52 the
    double that JavaScript computes rounds to the same integer. *)
Definition Math_round (q : Q) : Z := Qfloor (Qplus q (1 # 2)).

(** ** Aggregation engine *)

(** The accumulator that the parse fills and [buildSummary] reads.
    [channelMetaByPath] and [channelIdToName] are plain objects used as
    dictionaries, under keys that are not member names of
    [Object.prototype]; [guilds] is a [Map] from guild ID to [{id, name}]. *)
Record ParseResult := {
  messages : list Message;
  channels : list (Meta.t * jstring);
  channelMetaByPath : gmap jstring Meta.t;
  channelIdToName : gmap jstring jstring;
  guilds : list (jstring * (jstring * jstring));
  account : option json
}.

Module ChannelRow.
Record t := {
  channelId : jstring;
  channelName : option jstring;
  guildId : option jstring;
  guildName : option jstring;
  avatarUrl : option jstring;
  count : Z;
  messages : list Message;
  topWords : list (jstring * Z);
  firstMessageAt : option Date;
  lastMessageAt : option Date
}.
End ChannelRow.

Module GuildRow.
Record t := {
  guildId : jstring;
  guildName : jstring;
  count : Z
}.
End GuildRow.

Record Stats := {
  totalMessages : Z;
  totalWords : Z;
  avgWordsPerMessage : Z;
  attachmentCount : Z;
  firstMessageAt : option Date;
  lastMessageAt : option Date;
  byChannel : list ChannelRow.t;
  byGuild : list GuildRow.t;
  byDay : list (jstring * Z);
  byHour : list (Z * Z);
  byDayOfWeek : list (Z * Z);
  topWords : list (jstring * Z);
  topEmojis : list (jstring * Z)
}.

Module Summary.
Record t := {
  messages : list Message;
  channels : list (Meta.t * jstring);
  guilds : list (jstring * jstring);
  account : option json;
  stats : Stats
}.
End Summary.

(** The running state of the loop of [buildSummary]. *)
Record Acc := {
  acc_byChannel : list (jstring * ChannelRow.t);
  acc_byGuild : list (jstring * GuildRow.t);
  acc_byDay : list (jstring * Z);
  acc_byHour : list (Z * Z);
  acc_byDayOfWeek : list (Z * Z);
  acc_totalWords : Z;
  acc_wordCounts : list (jstring * Z);
  acc_firstTs : option Date;
  acc_lastTs : option Date;
  acc_attachmentCount : Z
}.

(** [m.timestamp && !isNaN(m.timestamp.getTime())] *)
Definition has_valid_timestamp (m : Message) : bool :=
  match timestamp m with
  | Some d => match getTime d with Some _ => true | None => false end
  | None => false
  end.

(** [key.replace(/^\D+/, '')] *)
Fixpoint strip_nondigit_prefix (s : jstring) : jstring :=
  match s with
  | c :: r => if is_digit c then s else strip_nondigit_prefix r
  | [] => []
  end.

(** [a < b] on two dates, through their time values. *)
Definition date_lt (a b : Date) : bool :=
  match getTime a, getTime b with
  | Some x, Some y => x <? y
  | _, _ => false
  end.

Definition zero_buckets (n : nat) : list (Z * Z) :=
  map (fun i => (Z.of_nat i, 0)) (seq 0 n).

Section Aggregation.
Context `{Host}.

Definition tokenize (text : jstring) : list jstring :=
  List.filter (fun w => (1 <? length w)%nat)
    (split_ws (replace_sep_runs false (toLowerCase text))).

(** The words of one list of tokens that enter a frequency map. *)
Definition count_words (ws : list jstring) (wc : list (jstring * Z)) : list (jstring * Z) :=
  foldl (fun wc w => if is_stopword w then wc else bump jstring_eqb w wc) wc ws.

Definition count_emojis (es : list jstring) (wc : list (jstring * Z)) : list (jstring * Z) :=
  foldl (fun wc e => bump jstring_eqb (toLowerCase e) wc) wc es.

(** [m.channelId ?? 'dm'] *)
Definition channel_key (m : Message) : jstring := default (lit "dm") (channelId m).

(** [idFromIndex]: the name under the key, else under the key without its
    non-digit prefix; an empty key stops the second lookup and is itself the
    value. *)
Definition idFromIndex (result : ParseResult) (key : jstring) : option jstring :=
  match channelIdToName result !! key with
  | Some n => Some n
  | None =>
      match key with
      | [] => Some []
      | _ => channelIdToName result !! strip_nondigit_prefix key
      end
  end.

(** [idFromIndex ?? m.channelName], the name before ID-shaped names are
    suppressed. *)
Definition candidate_name (result : ParseResult) (m : Message) : option jstring :=
  match idFromIndex result (channel_key m) with
  | Some n => Some n
  | None => channelName m
  end.

(** [displayName], the name under which a message's channel is shown. *)
Definition displayName_of (result : ParseResult) (m : Message) : option jstring :=
  let displayName := candidate_name result m in
  if negb (nonempty (guildId m)) && nonempty displayName && looksLikeId displayName
  then None else displayName.

Definition new_row (result : ParseResult) (m : Message) : ChannelRow.t :=
  {| ChannelRow.channelId := channel_key m;
     ChannelRow.channelName := displayName_of result m;
     ChannelRow.guildId := guildId m;
     ChannelRow.guildName := guildName m;
     ChannelRow.avatarUrl := avatarUrl m;
     ChannelRow.count := 0;
     ChannelRow.messages := [];
     ChannelRow.topWords := [];
     ChannelRow.firstMessageAt := None;
     ChannelRow.lastMessageAt := None |}.

Definition add_to_row (m : Message) (ch : ChannelRow.t) : ChannelRow.t :=
  {| ChannelRow.channelId := ChannelRow.channelId ch;
     ChannelRow.channelName := ChannelRow.channelName ch;
     ChannelRow.guildId := ChannelRow.guildId ch;
     ChannelRow.guildName := ChannelRow.guildName ch;
     ChannelRow.avatarUrl :=
       if nonempty (avatarUrl m) && negb (nonempty (ChannelRow.avatarUrl ch))
       then avatarUrl m else ChannelRow.avatarUrl ch;
     ChannelRow.count := ChannelRow.count ch + 1;
     ChannelRow.messages := ChannelRow.messages ch ++ [m];
     ChannelRow.topWords := ChannelRow.topWords ch;
     ChannelRow.firstMessageAt := ChannelRow.firstMessageAt ch;
     ChannelRow.lastMessageAt := ChannelRow.lastMessageAt ch |}.

Definition add_to_guild (m : Message) (g : jstring) (o : option GuildRow.t) : GuildRow.t :=
  let r :=
    default {| GuildRow.guildId := g;
               GuildRow.guildName :=
                 if nonempty (guildName m) then default g (guildName m) else g;
               GuildRow.count := 0 |} o in
  {| GuildRow.guildId := GuildRow.guildId r;
     GuildRow.guildName := GuildRow.guildName r;
     GuildRow.count := GuildRow.count r + 1 |}.

(** One iteration of the loop over the messages kept by the filter.  Every
    such message has a valid timestamp, so the guards on [ts] take their
    first branch; a message without a valid time value would leave the
    temporal tables alone. *)
Definition summarize_step (result : ParseResult) (acc : Acc) (m : Message) : Acc :=
  let ts := timestamp m in
  let firstTs :=
    match ts, acc_firstTs acc with
    | Some d, None => Some d
    | Some d, Some f => if date_lt d f then Some d else Some f
    | None, f => f
    end in
  let lastTs :=
    match ts, acc_lastTs acc with
    | Some d, None => Some d
    | Some d, Some l => if date_lt l d then Some d else Some l
    | None, l => l
    end in
  let key := channel_key m in
  let byChannel :=
    upsert jstring_eqb key
      (fun o => add_to_row m (default (new_row result m) o)) (acc_byChannel acc) in
  let byGuild :=
    match guildId m with
    | Some (c :: g) =>
        upsert jstring_eqb (c :: g) (add_to_guild m (c :: g)) (acc_byGuild acc)
    | _ => acc_byGuild acc
    end in
  let dayKey := match ts with Some _ => getLocalDateKey ts | None => Some [] end in
  let byDay :=
    match dayKey with
    | Some (c :: k) => bump jstring_eqb (c :: k) (acc_byDay acc)
    | _ => acc_byDay acc
    end in
  let time := ts ≫= getTime in
  let byHour :=
    match time with
    | Some t => bump Z.eqb (getHours t) (acc_byHour acc)
    | None => acc_byHour acc
    end in
  let byDayOfWeek :=
    match time with
    | Some t => bump Z.eqb (getDay t) (acc_byDayOfWeek acc)
    | None => acc_byDayOfWeek acc
    end in
  let words := tokenize (contents m) in
  let wordCounts :=
    count_emojis (matchEmojis (contents m)) (count_words words (acc_wordCounts acc)) in
  {| acc_byChannel := byChannel;
     acc_byGuild := byGuild;
     acc_byDay := byDay;
     acc_byHour := byHour;
     acc_byDayOfWeek := byDayOfWeek;
     acc_totalWords := acc_totalWords acc + Z.of_nat (length words);
     acc_wordCounts := wordCounts;
     acc_firstTs := firstTs;
     acc_lastTs := lastTs;
     acc_attachmentCount := acc_attachmentCount acc + Z.of_nat (length (attachments m)) |}.

Definition initial_acc : Acc :=
  {| acc_byChannel := [];
     acc_byGuild := [];
     acc_byDay := [];
     acc_byHour := zero_buckets 24;
     acc_byDayOfWeek := zero_buckets 7;
     acc_totalWords := 0;
     acc_wordCounts := [];
     acc_firstTs := None;
     acc_lastTs := None;
     acc_attachmentCount := 0 |}.

(** The pass that completes a channel row once its messages are known. *)
Definition finish_row (ch : ChannelRow.t) : ChannelRow.t :=
  let chWordCounts :=
    foldl (fun wc m => count_words (tokenize (contents m)) wc) [] (ChannelRow.messages ch) in
  let firstMsg := List.find has_valid_timestamp (ChannelRow.messages ch) in
  let lastMsg := List.find has_valid_timestamp (rev (ChannelRow.messages ch)) in
  {| ChannelRow.channelId := ChannelRow.channelId ch;
     ChannelRow.channelName := ChannelRow.channelName ch;
     ChannelRow.guildId := ChannelRow.guildId ch;
     ChannelRow.guildName := ChannelRow.guildName ch;
     ChannelRow.avatarUrl := ChannelRow.avatarUrl ch;
     ChannelRow.count := ChannelRow.count ch;
     ChannelRow.messages := ChannelRow.messages ch;
     ChannelRow.topWords :=
       take 30 (List.filter (fun e => negb (re_emoji_key (fst e)))
                  (sort_by by_count_desc chWordCounts));
     ChannelRow.firstMessageAt := firstMsg ≫= timestamp;
     ChannelRow.lastMessageAt := lastMsg ≫= timestamp |}.

Definition buildSummary (result : ParseResult) : Summary.t :=
  let messages := List.filter has_valid_timestamp (messages result) in
  let acc := foldl (summarize_step result) initial_acc messages in
  let sortedWords :=
    take 100 (List.filter (fun e => negb (re_emoji_key (fst e)))
                (sort_by by_count_desc (acc_wordCounts acc))) in
  let topEmojis :=
    take 24 (sort_by by_count_desc
               (List.filter (fun e => re_emoji_key (fst e)) (acc_wordCounts acc))) in
  let n := Z.of_nat (length messages) in
  {| Summary.messages := messages;
     Summary.channels := channels result;
     Summary.guilds := map snd (guilds result);
     Summary.account := account result;
     Summary.stats :=
       {| totalMessages := n;
          totalWords := acc_totalWords acc;
          avgWordsPerMessage :=
            if n =? 0 then 0
            else Math_round (Qdiv (inject_Z (acc_totalWords acc)) (inject_Z n));
          attachmentCount := acc_attachmentCount acc;
          firstMessageAt := acc_firstTs acc;
          lastMessageAt := acc_lastTs acc;
          byChannel :=
            sort_by (fun a b => ChannelRow.count b - ChannelRow.count a)
              (map (fun kv => finish_row (snd kv)) (acc_byChannel acc));
          byGuild :=
            sort_by (fun a b => GuildRow.count b - GuildRow.count a)
              (map snd (acc_byGuild acc));
          byDay := sort_by (fun a b => localeCompare (fst a) (fst b)) (acc_byDay acc);
          byHour := sort_by (fun a b => fst a - fst b) (acc_byHour acc);
          byDayOfWeek := sort_by (fun a b => fst a - fst b) (acc_byDayOfWeek acc);
          topWords := sortedWords;
          topEmojis := topEmojis |} |}.

End Aggregation.

(** ** Paths *)

(** [s.split('/')]: empty pieces are kept. *)
Fixpoint split_on (sep : N) (cur : jstring) (s : jstring) : list jstring :=
  match s with
  | [] => [rev cur]
  | c :: r =>
      if (c =? sep)%N then rev cur :: split_on sep [] r
      else split_on sep (c :: cur) r
  end.

Definition split_slash (s : jstring) : list jstring := split_on 47 [] s.

(** [parts.join('/')] *)
Fixpoint join_slash (l : list jstring) : jstring :=
  match l with
  | [] => []
  | [a] => a
  | a :: r => a ++ 47%N :: join_slash r
  end.

(** [.filter(Boolean)] on an array of strings *)
Definition filter_Boolean (l : list jstring) : list jstring :=
  List.filter (fun s => match s with [] => false | _ => true end) l.

(** [s.split('/').pop()] *)
Definition last_segment (s : jstring) : jstring := List.last (split_slash s) [].

(** [p.replace(/\\/g, '/')] *)
Definition slashes (p : jstring) : jstring :=
  map (fun c => if (c =? 92)%N then 47%N else c) p.

(** [p.replace(/^\/+/, '')] *)
Fixpoint strip_leading_slashes (p : jstring) : jstring :=
  match p with
  | c :: r => if (c =? 47)%N then strip_leading_slashes r else p
  | [] => []
  end.

Fixpoint indexOf (needle s : jstring) : option nat :=
  if startsWith needle s then Some 0%nat
  else match s with
       | [] => None
       | _ :: r => S <$> indexOf needle r
       end.

Definition includes (needle s : jstring) : bool :=
  match indexOf needle s with Some _ => true | None => false end.

(** ** The two pipelines *)

(** A file of the export.  [content] is what reading the file and
    [JSON.parse] give: [None] when either of them raises.  In [parseZip] the
    lookup [zip.file(path)] returns the entry that [zip.forEach] has just
    listed under that path. *)
Record File := {
  path : jstring;
  content : option json
}.

(** An entry of [metaFiles] or [messageFiles] / [messageCandidates]. *)
Record Candidate := {
  cand_path : jstring;
  channelPath : jstring;
  cand_file : File
}.

Definition empty_result : ParseResult :=
  {| messages := []; channels := []; channelMetaByPath := ∅;
     channelIdToName := ∅; guilds := []; account := None |}.

Definition set_names (f : gmap jstring jstring -> gmap jstring jstring)
    (st : ParseResult) : ParseResult :=
  {| messages := messages st; channels := channels st;
     channelMetaByPath := channelMetaByPath st;
     channelIdToName := f (channelIdToName st);
     guilds := guilds st; account := account st |}.

Definition push_message (m : Message) (st : ParseResult) : ParseResult :=
  {| messages := messages st ++ [m]; channels := channels st;
     channelMetaByPath := channelMetaByPath st;
     channelIdToName := channelIdToName st;
     guilds := guilds st; account := account st |}.

Definition with_messages (ms : list Message) (st : ParseResult) : ParseResult :=
  {| messages := ms; channels := channels st;
     channelMetaByPath := channelMetaByPath st;
     channelIdToName := channelIdToName st;
     guilds := guilds st; account := account st |}.

Definition set_account (a : option json) (st : ParseResult) : ParseResult :=
  {| messages := messages st; channels := channels st;
     channelMetaByPath := channelMetaByPath st;
     channelIdToName := channelIdToName st;
     guilds := guilds st; account := a |}.

(** The statements that record a channel's metadata.  [by_id] is set in
    [parseFileList], which also files the metadata under the channel ID and
    the last path segment. *)
Definition register_meta (by_id : bool) (cp : jstring) (meta : Meta.t)
    (st : ParseResult) : ParseResult :=
  let byPath := <[cp := meta]> (channelMetaByPath st) in
  let byPath :=
    if by_id then
      let byPath :=
        match Meta.channelId meta with
        | Some (c :: i) => <[c :: i := meta]> byPath
        | _ => byPath
        end in
      match last_segment cp with
      | [] => byPath
      | l => if jstring_eqb l cp then byPath else <[l := meta]> byPath
      end
    else byPath in
  let guilds :=
    match Meta.guildId meta, Meta.guildName meta with
    | Some (c :: g), Some (d :: n) =>
        upsert jstring_eqb (c :: g) (fun _ => (c :: g, d :: n)) (guilds st)
    | _, _ => guilds st
    end in
  let names :=
    match Meta.channelId meta, Meta.channelName meta with
    | Some (c :: i), Some (d :: n) =>
        if negb (nonempty (Meta.guildId meta))
           && negb (looksLikeId (Some (d :: n)))
           && negb (jstring_eqb (d :: n) (lit "Unknown"))
        then
          let names := <[c :: i := d :: n]> (channelIdToName st) in
          match last_segment cp with
          | [] => names
          | pathId =>
              if jstring_eqb pathId (c :: i) then names
              else <[pathId := d :: n]> names
          end
        else channelIdToName st
    | _, _ => channelIdToName st
    end in
  {| messages := messages st;
     channels := channels st ++ [(meta, cp)];
     channelMetaByPath := byPath;
     channelIdToName := names;
     guilds := guilds;
     account := account st |}.

(** The fields a message takes from its channel. *)
Definition name_message (st : ParseResult) (meta : Meta.t) (cp : jstring)
    (m : Message) : Message :=
  let cid := default (last_segment cp) (Meta.channelId meta) in
  {| id := id m;
     timestamp := timestamp m;
     contents := contents m;
     attachments := attachments m;
     channelId := Some cid;
     guildId := Meta.guildId meta;
     channelName :=
       if negb (nonempty (Meta.guildId meta)) then
         if nonempty (Meta.channelName meta) && negb (looksLikeId (Meta.channelName meta))
         then Meta.channelName meta
         else channelIdToName st !! cid
       else Some (default cid (Meta.channelName meta));
     guildName := Meta.guildName meta;
     avatarUrl := Meta.avatarUrl meta |}.

Section Pipeline.
Context `{Host}.

(** The body of the [try] of a metadata loop; the state is written only
    after the last statement that can raise. *)
Definition read_meta (by_id : bool) (c : Candidate) (st : ParseResult) : Res ParseResult :=
  match content (cand_file c) with
  | None => Throw
  | Some data =>
      if isChannelMeta data then
        match normalizeChannelMeta data with
        | Ok meta => Ok (register_meta by_id (channelPath c) meta st)
        | Throw => Throw
        end
      else Ok st
  end.

(** [for (const msg of data) { ... result.messages.push(m) }]: the messages
    stored before an exception stay stored.  The flag tells whether the loop
    ran to its end. *)
Fixpoint push_messages (meta : Meta.t) (cp : jstring) (data : list json)
    (st : ParseResult) : ParseResult * bool :=
  match data with
  | [] => (st, true)
  | msg :: r =>
      match normalizeMessage msg with
      | Ok m => push_messages meta cp r (push_message (name_message st meta cp m) st)
      | Throw => (st, false)
      end
  end.

(** The body of the [try] of a message loop, up to the progress report.
    The flag tells whether control reaches the report. *)
Definition read_messages (getMeta : ParseResult -> jstring -> Meta.t)
    (c : Candidate) (st : ParseResult) : ParseResult * bool :=
  match content (cand_file c) with
  | None => (st, false)
  | Some data =>
      if isMessageArray data then
        match data with
        | JArr items => push_messages (getMeta st (channelPath c)) (channelPath c) items st
        | _ => (st, false)
        end
      else (st, false)
  end.

(** [setIndexName(id, name)] *)
Definition setIndexName (id name : option json) (st : ParseResult) : ParseResult :=
  if truthy_opt id && negb (nullish name)
  then set_names (fun names =>
         <[default [] (js_String <$> id) := default [] (js_String <$> name)]> names) st
  else st.

(** [list.forEach((c) => setIndexName(c.id ?? ..., c.name ?? ...))]; a
    [null] element raises, and the names set before it stay set. *)
Fixpoint index_entries (l : list json) (st : ParseResult) : ParseResult :=
  match l with
  | [] => st
  | JNull :: _ => st
  | c :: r =>
      index_entries r
        (setIndexName (prop c "id" ?? prop c "channel_id" ?? prop c "channelId")
           (prop c "name" ?? prop c "channel_name" ?? prop c "channelName") st)
  end.

(** [v?.k] *)
Definition opt_prop (v : json) (k : string) : option json :=
  match v with
  | JNull => None
  | _ => prop v k
  end.

(** [Object.entries(indexData).forEach(([id, v]) => ...)] *)
Definition index_fields (fs : list (jstring * json)) (st : ParseResult) : ParseResult :=
  foldl (fun st kv =>
           let v := snd kv in
           let name :=
             match v with
             | JStr s => s
             | _ => default (fst kv)
                      (text (opt_prop v "name" ?? opt_prop v "channel_name"
                               ?? opt_prop v "channelName"))
             end in
           set_names (fun names => <[fst kv := name]> names) st)
        st fs.

(** The [try] block that reads the global index. *)
Definition read_index (indexFile : option File) (st : ParseResult) : ParseResult :=
  match indexFile with
  | None => st
  | Some f =>
      match content f with
      | None | Some JNull => st
      | Some (JArr l) => index_entries l st
      | Some (JObj fs) =>
          match assoc (lit "channels") fs with
          | Some (JArr l) => index_entries l st
          | _ => index_fields fs st
          end
      | Some _ => st
      end
  end.

End Pipeline.

(** The percentages the loops report after the file of index [i]:
    [10 + Math.floor((70 * (i + 1)) / total)] in [parseZip],
    [Math.min(5, (5 * (mi + 1)) / totalMeta)] and
    [5 + Math.floor((80 * (mi + 1)) / totalMsg)] in [parseFileList].  The
    quotient of the second is kept exact. *)
Definition zip_percent (total i : Z) : Q := inject_Z (10 + (70 * (i + 1)) / total).

Definition list_meta_percent (total i : Z) : Q :=
  Qmin (inject_Z 5) (Qmake (5 * (i + 1)) (Z.to_pos total)).

Definition list_percent (total i : Z) : Q := inject_Z (5 + (80 * (i + 1)) / total).

Section Parsers.
Context `{Host}.

Definition is_meta_name (name : jstring) : bool :=
  existsb (fun n => jstring_eqb (toLowerCase name) (toLowerCase (lit n))) CHANNEL_META_NAMES.

(** *** [parseZip] *)

(** One iteration of the classification loop of [parseZip]: the candidate
    built from a file and whether its name is a metadata name. *)
Definition zip_classify (f : File) : option (bool * Candidate) :=
  let lower := toLowerCase (path f) in
  if negb (endsWith (lit ".json") lower) then None
  else
    let parts := split_slash (path f) in
    if jstring_eqb (hd [] parts) (lit "messages") && (3 <=? length parts)%nat then
      let channelPath := join_slash (removelast parts) in
      let name := List.last parts [] in
      Some (is_meta_name name,
            {| cand_path := path f; channelPath := channelPath; cand_file := f |})
    else None.

Definition meta_candidates (cs : list (bool * Candidate)) : list Candidate :=
  map snd (List.filter fst cs).

Definition zip_getMeta (st : ParseResult) (cp : jstring) : Meta.t :=
  default Meta.empty (channelMetaByPath st !! cp).

(** A metadata loop without progress reports: an exception leaves the state
    as it was and the loop goes on. *)
Definition zip_meta_loop (cs : list Candidate) (st : ParseResult) : ParseResult :=
  foldl (fun st c => match read_meta false c st with Ok st' => st' | Throw => st end) st cs.

(** The message loop of [parseZip] from index [i], with the percentages it
    reports. *)
Fixpoint zip_message_loop (total i : Z) (cs : list Candidate) (st : ParseResult)
    : ParseResult * list Q :=
  match cs with
  | [] => (st, [])
  | c :: r =>
      let (st', reached) := read_messages zip_getMeta c st in
      let report :=
        if reached && (((i + 1) mod 5 =? 0) || (i =? total - 1))
        then [zip_percent total i] else [] in
      let (st'', reports) := zip_message_loop total (i + 1) r st' in
      (st'', report ++ reports)
  end.

Definition zip_is_account (f : File) : bool :=
  startsWith (lit "account/") (path f) && endsWith (lit ".json") (toLowerCase (path f)).

(** The account loop of [parseZip]: the first account file that loads
    ends the loop. *)
Fixpoint zip_account (files : list File) : option json :=
  match files with
  | [] => None
  | f :: r =>
      if zip_is_account f
      then match content f with
           | Some j => Some j
           | None => zip_account r
           end
      else zip_account r
  end.

Definition zip_is_index (f : File) : bool :=
  let p := toLowerCase (slashes (path f)) in
  jstring_eqb p (lit "messages/index.json") || endsWith (lit "/messages/index.json") p.

(** [parseZip], from the entries of the opened archive that are not
    directories: the summary and the percentages passed to [onProgress]. *)
Definition parseZip (files : list File) : Summary.t * list Q :=
  let cands := omap zip_classify files in
  let metaFiles := meta_candidates cands in
  let messageFiles := map snd cands in
  let st := zip_meta_loop metaFiles empty_result in
  let (st, reports) :=
    zip_message_loop (Z.of_nat (length messageFiles)) 0 messageFiles st in
  let st := set_account (zip_account files) st in
  let st := read_index (List.find zip_is_index files) st in
  (buildSummary st, [inject_Z 0; inject_Z 5; inject_Z 10] ++ reports
                      ++ [inject_Z 80; inject_Z 95]).

(** *** [parseFileList] *)

Definition list_path (f : File) : jstring := strip_leading_slashes (slashes (path f)).

Definition list_parts (p : jstring) : list jstring := filter_Boolean (split_slash p).

(** The channel path the first loop of [parseFileList] gives to a path. *)
Definition list_channelPath (p : jstring) : option jstring :=
  let parts := list_parts p in
  if (3 <=? length parts)%nat && jstring_eqb (toLowerCase (hd [] parts)) (lit "messages")
  then Some (join_slash (removelast parts))
  else if includes (lit "messages/") (toLowerCase p) && (2 <=? length parts)%nat then
    let i := default 0%nat (indexOf (lit "messages/") (toLowerCase p)) in
    let fromMessages := drop i p in
    let segs := filter_Boolean (split_slash fromMessages) in
    if (2 <=? length segs)%nat then Some (join_slash (removelast segs)) else None
  else if (length parts =? 2)%nat then Some (hd [] parts)
  else None.

Definition list_classify (f : File) : option (bool * Candidate) :=
  let p := list_path f in
  if negb (endsWith (lit ".json") (toLowerCase p)) then None
  else
    let name := List.last (list_parts p) [] in
    match list_channelPath p with
    | Some (c :: cp) =>
        Some (is_meta_name name,
              {| cand_path := p; channelPath := c :: cp; cand_file := f |})
    | _ => None
    end.

(** One iteration of the secondary scan. *)
Definition list_fallback (f : File) : option Candidate :=
  let p := list_path f in
  let parts := list_parts p in
  let name := List.last parts [] in
  if negb (jstring_eqb (toLowerCase name) (lit "messages.json")) then None
  else
    let channelPath :=
      if (2 <=? length parts)%nat then join_slash (removelast parts)
      else match hd [] parts with
           | [] => lit "unknown"
           | p0 => p0
           end in
    Some {| cand_path := p; channelPath := channelPath; cand_file := f |}.

(** [messageCandidates] after both loops. *)
Definition list_message_candidates (files : list File) : list Candidate :=
  match map snd (omap list_classify files) with
  | [] => omap list_fallback files
  | cs => cs
  end.

Definition list_getMeta (st : ParseResult) (cp : jstring) : Meta.t :=
  let byPath := channelMetaByPath st in
  let last := last_segment cp in
  match byPath !! cp with
  | Some m => m
  | None =>
      match byPath !! last with
      | Some m => m
      | None =>
          match last with
          | [] => Meta.empty
          | _ => default Meta.empty (byPath !! (lit "messages/" ++ last))
          end
      end
  end.

Fixpoint list_meta_loop (total i : Z) (cs : list Candidate) (st : ParseResult)
    : ParseResult * list Q :=
  match cs with
  | [] => (st, [])
  | c :: r =>
      let (st', report) :=
        match read_meta true c st with
        | Ok st' =>
            (st', if (0 <? total) && ((i + 1) mod 5 =? 0)
                  then [list_meta_percent total i]
                  else [])
        | Throw => (st, [])
        end in
      let (st'', reports) := list_meta_loop total (i + 1) r st' in
      (st'', report ++ reports)
  end.

Fixpoint list_message_loop (total i : Z) (cs : list Candidate) (st : ParseResult)
    : ParseResult * list Q :=
  match cs with
  | [] => (st, [])
  | c :: r =>
      let (st', reached) := read_messages list_getMeta c st in
      let report :=
        if reached && (0 <? total) && ((i + 1) mod 10 =? 0)
        then [list_percent total i] else [] in
      let (st'', reports) := list_message_loop total (i + 1) r st' in
      (st'', report ++ reports)
  end.

Definition list_is_account (f : File) : bool :=
  let p := toLowerCase (slashes (path f)) in
  startsWith (lit "account/") p && endsWith (lit ".json") p.

Definition list_is_index (f : File) : bool :=
  let p := toLowerCase (slashes (path f)) in
  jstring_eqb p (lit "messages/index.json") || endsWith (lit "/messages/index.json") p
  || jstring_eqb p (lit "index.json").

(** [parseFileList], from the [{ file, path }] pairs that
    [normalizeFileList] returns. *)
Definition parseFileList (files : list File) : Summary.t * list Q :=
  let metaFiles := meta_candidates (omap list_classify files) in
  let messageCandidates := list_message_candidates files in
  let (st, metaReports) :=
    list_meta_loop (Z.of_nat (length metaFiles)) 0 metaFiles empty_result in
  let (st, reports) :=
    list_message_loop (Z.of_nat (length messageCandidates)) 0 messageCandidates st in
  let st :=
    match List.find list_is_account files with
    | Some f => match content f with Some j => set_account (Some j) st | None => st end
    | None => st
    end in
  let st := read_index (List.find list_is_index files) st in
  (buildSummary st, [inject_Z 0] ++ metaReports ++ [inject_Z 5] ++ reports
                      ++ [inject_Z 85]).

End Parsers.

(** ** A reference host

    A runtime in the UTC time zone: ASCII case mapping, the date-time form
    [YYYY-MM-DDTHH:mm:ssZ], the proleptic Gregorian calendar and code-unit
    order.  It is the host at which the examples below are evaluated. *)

Module Utc.

Definition lower_unit (c : N) : N :=
  if ((65 <=? c) && (c <=? 90))%N then (c + 32)%N else c.

Definition msPerDay : Z := 86400000.

Definition days_from_civil (y m d : Z) : Z :=
  let y := if m <=? 2 then y - 1 else y in
  let era := y / 400 in
  let yoe := y - era * 400 in
  let doy := (153 * (if 2 <? m then m - 3 else m + 9) + 2) / 5 + d - 1 in
  let doe := yoe * 365 + yoe / 4 - yoe / 100 + doy in
  era * 146097 + doe - 719468.

(** Year, month (from 1) and day of the month of a day number. *)
Definition civil_from_days (z : Z) : Z * Z * Z :=
  let z := z + 719468 in
  let era := z / 146097 in
  let doe := z - era * 146097 in
  let yoe := (doe - doe / 1460 + doe / 36524 - doe / 146096) / 365 in
  let y := yoe + era * 400 in
  let doy := doe - (365 * yoe + yoe / 4 - yoe / 100) in
  let mp := (5 * doy + 2) / 153 in
  let d := doy - (153 * mp + 2) / 5 + 1 in
  let m := if mp <? 10 then mp + 3 else mp - 9 in
  (if m <=? 2 then y + 1 else y, m, d).

Fixpoint number_of (acc : Z) (s : jstring) : option Z :=
  match s with
  | [] => Some acc
  | c :: r => if is_digit c then number_of (10 * acc + (Z.of_N c - 48)) r else None
  end.

Definition parse (s : jstring) : option Z :=
  match s with
  | [y1; y2; y3; y4; a; m1; m2; b; d1; d2; t; h1; h2; c; i1; i2; e; s1; s2; z] =>
      if ((a =? 45) && (b =? 45) && (t =? 84) && (c =? 58) && (e =? 58) && (z =? 90))%N
      then
        y ← number_of 0 [y1; y2; y3; y4];
        m ← number_of 0 [m1; m2];
        d ← number_of 0 [d1; d2];
        h ← number_of 0 [h1; h2];
        i ← number_of 0 [i1; i2];
        sec ← number_of 0 [s1; s2];
        if (1 <=? m) && (m <=? 12) && (1 <=? d) && (d <=? 31)
           && (h <? 24) && (i <? 60) && (sec <? 60)
        then Some ((((days_from_civil y m d * 24 + h) * 60 + i) * 60 + sec) * 1000)
        else None
      else None
  | _ => None
  end.

Fixpoint to_string (v : json) : jstring :=
  match v with
  | JNull => lit "null"
  | JBool true => lit "true"
  | JBool false => lit "false"
  | JNum n => Number_toString n
  | JStr s => s
  | JArr l =>
      (fix join (l : list json) : jstring :=
         match l with
         | [] => []
         | x :: r =>
             let e := match x with JNull => [] | _ => to_string x end in
             match r with
             | [] => e
             | _ => e ++ 44%N :: join r
             end
         end) l
  | JObj _ => lit "[object Object]"
  end.

Fixpoint compare_units (a b : jstring) : Z :=
  match a, b with
  | [], [] => 0
  | [], _ :: _ => -1
  | _ :: _, [] => 1
  | x :: a', y :: b' =>
      if (x <? y)%N then -1 else if (y <? x)%N then 1 else compare_units a' b'
  end.

Definition host : Host :=
  {| toLowerCase := map lower_unit;
     Date_parse := parse;
     ToString := to_string;
     getFullYear := fun t => fst (fst (civil_from_days (t / msPerDay)));
     getMonth := fun t => snd (fst (civil_from_days (t / msPerDay))) - 1;
     getDate := fun t => snd (civil_from_days (t / msPerDay));
     getHours := fun t => (t / 3600000) mod 24;
     getDay := fun t => (t / msPerDay + 4) mod 7;
     localeCompare := compare_units |}.

End Utc.

(** ** Predicates used in the proofs *)

(** How often [k] occurs in a list of strings. *)
Fixpoint occ (k : jstring) (l : list jstring) : Z :=
  match l with
  | [] => 0
  | x :: r => (if jstring_eqb k x then 1 else 0) + occ k r
  end.

(** [map.get(k) || 0] on a frequency map. *)
Definition count_of (k : jstring) (l : list (jstring * Z)) : Z :=
  default 0 (lookup_by jstring_eqb k l).

Definition total_over {A} (f : A -> Z) (l : list A) : Z :=
  foldr (fun a n => f a + n) 0 l.

(** The pieces of a string between its separator units, empty ones
    included; [cur] is the piece being read, in reverse. *)
Fixpoint pieces_from (cur : jstring) (s : jstring) : list jstring :=
  match s with
  | [] => [rev cur]
  | c :: r =>
      if is_sep c then rev cur :: pieces_from [] r
      else pieces_from (c :: cur) r
  end.

Definition pieces (s : jstring) : list jstring := pieces_from [] s.

Definition is_ascii (c : N) : Prop := (c < 128)%N.

Definition longer_than_1 (w : jstring) : bool := (1 <? length w)%nat.

(** The reports of a loop that runs over the indices from [i] up to [n]
    and may report [g j] at index [j]: they are in non-decreasing order and
    each of them is the value of [g] at an index of the loop. *)
Definition reports_in (g : Z -> Q) (i n : Z) (reports : list Q) : Prop :=
  StronglySorted Qle reports
  /\ Forall (fun q => exists j, i <= j < n /\ q = g j) reports.

Section Invariants.
Context `{Host}.

(** A row descends from a message of its channel: the one that created
    it, whose name and guild it keeps. *)
Definition row_from (result : ParseResult) (ms : list Message)
    (kr : jstring * ChannelRow.t) : Prop :=
  ChannelRow.channelId (snd kr) = fst kr
  /\ exists m, In m ms
       /\ channel_key m = fst kr
       /\ ChannelRow.channelName (snd kr) = displayName_of result m
       /\ ChannelRow.guildId (snd kr) = guildId m.

(** The number of tokens of the tokenisation pass that are the key [e]:
    the stand-alone, white-space-delimited occurrences of [e]. *)
Definition token_occurrences (e : jstring) (text : jstring) : Z :=
  occ e (tokenize text).

(** The number of matches of the emoji pattern that are counted under the
    key [e], inside longer tokens or not. *)
Definition emoji_matches (e : jstring) (text : jstring) : Z :=
  occ e (map toLowerCase (matchEmojis text)).




(** A metadata loop step: the [try] block with its [catch]. *)
Definition meta_step (by_id : bool) (st : ParseResult) (c : Candidate) : ParseResult :=
  match read_meta by_id c st with
  | Ok st' => st'
  | Throw => st
  end.

End Invariants.

(** JSON literals for the examples. *)
Definition obj (l : list (string * json)) : json :=
  JObj (map (fun kv => (lit (fst kv), snd kv)) l).

Definition jstr (s : string) : json := JStr (lit s).

Definition file (p : string) (c : option json) : File :=
  {| path := lit p; content := c |}.

(** A message as [normalizeMessage] makes it from [{}]. *)
Definition blank_message : Message :=
  {| id := None; timestamp := None; contents := []; attachments := [];
     channelId := None; guildId := None; channelName := None;
     guildName := None; avatarUrl := None |}.

Definition blank_row : ChannelRow.t := new_row empty_result blank_message.

(** The example of the specification for C4: the index names channel
    [42] [team-chat], the per-message default is the literal ID. *)
Definition team_chat_result : ParseResult :=
  with_messages
    [{| id := Some (jstr "1");
        timestamp := Some (mkDate (Some 1704067200000));
        contents := lit "hello";
        attachments := [];
        channelId := Some (lit "42");
        guildId := Some (lit "g1");
        channelName := Some (lit "42");
        guildName := None;
        avatarUrl := None |}]
    (set_names (fun _ => {[ lit "42" := lit "team-chat" ]}) empty_result).

(** A direct-message channel whose only name is its own ID, which is what
    an index entry without a name leaves in [channelIdToName]. *)
Definition id_named_result : ParseResult :=
  with_messages
    [{| id := Some (jstr "1");
        timestamp := Some (mkDate (Some 1704067200000));
        contents := lit "hello";
        attachments := [];
        channelId := Some (lit "123456789012345678");
        guildId := None;
        channelName := None;
        guildName := None;
        avatarUrl := None |}]
    (set_names (fun _ => {[ lit "123456789012345678" := lit "123456789012345678" ]})
       empty_result).

(** An export with one direct-message channel that the index names by an
    ID-shaped string. *)
Definition id_named_export : list File :=
  [file "messages/42/messages.json"
     (Some (JArr [obj [("ID", jstr "1"); ("Timestamp", jstr "2024-01-01T05:00:00Z");
                       ("Contents", jstr "hi")]%string]));
   file "messages/index.json"
     (Some (obj [("42", jstr "123456789012345")]%string))].

(** The export of the specification's example: a guild channel that its
    metadata names [general], and a channel without metadata that the index
    lists without a name. *)
Definition two_channel_export : list File :=
  [file "messages/c1/channel.json"
     (Some (obj [("id", jstr "1"); ("Channel ID", jstr "1"); ("Guild ID", jstr "g1");
                 ("Channel Name", jstr "general")]%string));
   file "messages/c1/messages.json"
     (Some (JArr [obj [("ID", jstr "10"); ("Timestamp", jstr "2024-01-01T05:00:00Z");
                       ("Contents", jstr "hi")]%string;
                  obj [("ID", jstr "11"); ("Timestamp", jstr "2024-01-02T05:00:00Z");
                       ("Contents", jstr "there")]%string]));
   file "messages/123456789012345678/messages.json"
     (Some (JArr [obj [("ID", jstr "20"); ("Timestamp", jstr "2024-01-03T05:00:00Z");
                       ("Contents", jstr "yo")]%string]));
   file "messages/index.json"
     (Some (obj [("123456789012345678", JNull)]%string))].

(** An export whose transcript does not lie under a [messages/] root. *)
Definition loose_export : list File :=
  [file "backup/123/messages.json"
     (Some (JArr [obj [("ID", jstr "1"); ("Timestamp", jstr "2024-01-01T05:00:00Z");
                       ("Contents", jstr "hi")]%string]))].

(** A message in which the emoji [:smile:] stands alone once and occurs
    once more inside a longer token. *)
Definition smile_message : Message :=
  {| id := Some (jstr "1");
     timestamp := Some (mkDate (Some 1704067200000));
     contents := lit ":smile: x:smile:";
     attachments := [];
     channelId := Some (lit "42");
     guildId := None;
     channelName := None;
     guildName := None;
     avatarUrl := None |}.

Definition smile_result : ParseResult := with_messages [smile_message] empty_result.

Definition smile_export : list File :=
  [file "messages/42/messages.json"
     (Some (JArr [obj [("ID", jstr "1"); ("Timestamp", jstr "2024-01-01T05:00:00Z");
                       ("Contents", jstr ":smile: x:smile:")]%string]))].

(** The export of the specification's example for the index: the
    metadata of guild channel [42] names it by its ID, the index names it
    [team-chat]. *)
Definition team_chat_export : list File :=
  [file "messages/42/channel.json"
     (Some (obj [("Channel ID", jstr "42"); ("Guild ID", jstr "g1");
                 ("Channel Name", jstr "42")]%string));
   file "messages/42/messages.json"
     (Some (JArr [obj [("ID", jstr "1"); ("Timestamp", jstr "2024-01-01T05:00:00Z");
                       ("Contents", jstr "hello")]%string]));
   file "messages/index.json"
     (Some (obj [("42", jstr "team-chat")]%string))].

(** ** Further parts of the application *)

(** *** The avatar that [normalizeChannelMeta] selects *)

(** [firstRecipient] of [normalizeChannelMeta] *)
Definition firstRecipient (data : json) : option json :=
  match prop data "Recipients" ?? prop data "recipients" ?? prop data "User IDs" with
  | Some (JArr l) => head l
  | Some (JObj fs) => Some (JObj fs)
  | _ => Some JNull
  end.


(** *** The load screen ([LoadScreen.jsx]) *)


Section LoadScreen.
Context `{Host}.



End LoadScreen.

(** *** Views *)

Module Insights.

(** [getAllMessages(byChannel)] of [Insights.jsx]:
    [byChannel.flatMap((ch) => ch.messages ?? [])]. *)
Definition getAllMessages (byChannel : list ChannelRow.t) : list Message :=
  flat_map ChannelRow.messages byChannel.

End Insights.

Module Activity.

(** [Math.max(1, ...byHour.map((x) => x.count))] *)
Definition maxHour (byHour : list (Z * Z)) : Z :=
  foldr Z.max 1 (map snd byHour).

(** The [--intensity] of a cell of the heat map:
    [maxHour ? count / maxHour : 0], the quotient kept exact. *)
Definition intensity (maxHour count : Z) : Q :=
  if maxHour =? 0 then inject_Z 0 else Qdiv (inject_Z count) (inject_Z maxHour).

End Activity.

(** *** CSV export ([exportData.js]) *)

Module Csv.

(** The class of [escape]'s test: the double quote, the comma, LF and CR. *)
Definition is_special (c : N) : bool :=
  ((c =? 34) || (c =? 44) || (c =? 10) || (c =? 13))%N.

(** The replacement in [escape]: every double quote is written twice. *)
Fixpoint double_quotes (s : jstring) : jstring :=
  match s with
  | [] => []
  | c :: r =>
      if (c =? 34)%N then 34%N :: 34%N :: double_quotes r else c :: double_quotes r
  end.

(** [arr.join(sep)] on an array of strings *)
Fixpoint join (sep : jstring) (l : list jstring) : jstring :=
  match l with
  | [] => []
  | [a] => a
  | a :: r => a ++ sep ++ join sep r
  end.

Section Writer.
Context `{Host}.

(** [String(v ?? '')] *)
Definition cell (v : option json) : jstring :=
  match v with
  | None | Some JNull => []
  | Some j => js_String j
  end.

(** [escape(v)] of [downloadCsv] *)
Definition escape (v : option json) : jstring :=
  let s := cell v in
  if existsb is_special s then 34%N :: double_quotes s ++ [34%N] else s.

(** [line(arr)] of [downloadCsv] *)
Definition line (arr : list (option json)) : jstring :=
  join (lit ",") (map escape arr).

End Writer.

(** A reader of one record in the sense of RFC 4180, against which the
    writer is checked: a comma outside quotes ends a field, a quote opens or
    closes a quoted part, and a doubled quote inside a quoted part stands
    for one quote.  [cur] is the field being read, in reverse. *)
Fixpoint read_from (cur : jstring) (quoted : bool) (s : jstring) : list jstring :=
  match s with
  | [] => [rev cur]
  | c :: r =>
      if quoted then
        if (c =? 34)%N then
          match r with
          | c' :: r' =>
              if (c' =? 34)%N then read_from (34%N :: cur) true r'
              else read_from cur false r
          | [] => [rev cur]
          end
        else read_from (c :: cur) true r
      else if (c =? 44)%N then rev cur :: read_from [] false r
      else if (c =? 34)%N then read_from cur true r
      else read_from (c :: cur) false r
  end.

Definition read (s : jstring) : list jstring := read_from [] false s.

End Csv.

(** *** Further predicates used in the proofs *)


(** [row_holds seen (k, r)]: the row under the key [k] holds the messages of
    [seen] whose channel key is [k], in their order, and counts them. *)
Definition row_holds (seen : list Message) (kr : jstring * ChannelRow.t) : Prop :=
  ChannelRow.channelId (snd kr) = fst kr
  /\ ChannelRow.messages (snd kr)
     = List.filter (fun m => jstring_eqb (channel_key m) (fst kr)) seen
  /\ ChannelRow.count (snd kr) = Z.of_nat (length (ChannelRow.messages (snd kr))).

(** [spans seen first last]: [first] and [last] are the timestamps of
    messages of [seen] with the least and the greatest time value; both are
    [None] when [seen] is empty. *)
Definition spans (seen : list Message) (first last : option Date) : Prop :=
  match seen with
  | [] => first = None /\ last = None
  | _ =>
      exists f l tf tl,
        first = Some f /\ last = Some l
        /\ getTime f = Some tf /\ getTime l = Some tl
        /\ (exists m, In m seen /\ timestamp m = Some f)
        /\ (exists m, In m seen /\ timestamp m = Some l)
        /\ forall m t, In m seen -> timestamp m ≫= getTime = Some t -> tf <= t <= tl
  end.

(** [guild_table l]: the entries of the guild map have distinct IDs, and
    each holds its own ID and a name, neither of them empty. *)
Definition guild_table (l : list (jstring * (jstring * jstring))) : Prop :=
  NoDup (map fst l)
  /\ Forall (fun kv => fst (snd kv) = fst kv /\ fst kv <> [] /\ snd (snd kv) <> []) l.

(** * Properties *)

Example utc_parse_example :
  Utc.parse (lit "2024-01-01T05:00:00Z") = Some 1704085200000.
Proof. reflexivity. Qed.

Example utc_date_key_example :
  getLocalDateKey (H := Utc.host) (Some (mkDate (Some 1704085200000)))
  = Some (lit "2024-01-01").
Proof. vm_compute. reflexivity. Qed.

(** ** Strings and lists *)

Lemma jstring_eqb_eq (a b : jstring) : jstring_eqb a b = true <-> a = b.
Proof.
  revert b. induction a as [|x a IH]; intros [|y b]; simpl; split; intros E;
    try congruence; try discriminate.
  - apply andb_true_iff in E as [E1 E2]. apply N.eqb_eq in E1. apply IH in E2.
    congruence.
  - injection E as -> ->. rewrite N.eqb_refl. simpl. now apply IH.
Qed.

Lemma jstring_eqb_refl (a : jstring) : jstring_eqb a a = true.
Proof. now apply jstring_eqb_eq. Qed.

Lemma forallb_Forall_true {A} (f : A -> bool) (l : list A) :
  forallb f l = true <-> Forall (fun x => f x = true) l.
Proof.
  induction l as [|x l IH]; simpl.
  - split; [constructor | reflexivity].
  - rewrite andb_true_iff, IH. split.
    + intros [? ?]. now constructor.
    + intros E. inversion E. now split.
Qed.

(** ** The ID-shape heuristic (C3) *)

Lemma digits_at_least_spec (n : nat) (s : jstring) :
  digits_at_least n s = true
  <-> (n <= length s)%nat /\ Forall (fun c => is_digit c = true) s.
Proof.
  unfold digits_at_least.
  now rewrite andb_true_iff, Nat.leb_le, forallb_Forall_true.
Qed.

Lemma digit_is_no_prefix (c : N) :
  is_digit c = true -> ((c =? 99) || (c =? 126))%N = false.
Proof.
  unfold is_digit. intros E. apply andb_true_iff in E as [_ E].
  apply N.leb_le in E. apply orb_false_iff.
  split; apply N.eqb_neq; lia.
Qed.

Lemma re_prefixed_id_spec (s : jstring) :
  re_prefixed_id s = true <-> spec_matches_id_pattern s.
Proof.
  unfold spec_matches_id_pattern. split.
  - destruct s as [|c r]; simpl; [discriminate|].
    destruct ((c =? 99) || (c =? 126))%N eqn:P; intros E;
      apply digits_at_least_spec in E.
    + exists [c], r. split; [reflexivity|]. split; [|exact E].
      apply orb_true_iff in P as [P|P]; apply N.eqb_eq in P; subst; auto.
    + exists [], (c :: r). auto.
  - intros (p & d & -> & Hp & Hlen & Hd).
    destruct Hp as [-> | [-> | ->]]; simpl.
    + destruct d as [|c r]; [simpl in Hlen; lia|].
      simpl. rewrite digit_is_no_prefix by now inversion Hd.
      now apply digits_at_least_spec.
    + now apply digits_at_least_spec.
    + now apply digits_at_least_spec.
Qed.

Lemma re_all_digits_spec (s : jstring) :
  re_all_digits s = true <-> spec_purely_numeric s.
Proof.
  unfold re_all_digits, spec_purely_numeric. rewrite digits_at_least_spec.
  destruct s; simpl; split; intros [? ?]; split; auto; try congruence; lia.
Qed.

(** C3, as the code has it: [looksLikeId] decides the ID shape of the
    argument with its surrounding white space removed.  A string is
    ID-shaped when it matches [^[c~]?\d{15,}$] or is longer than 16 units
    and purely numeric; the three examples of the specification hold. *)
Theorem looksLikeId_decides_trimmed_shape :
  (forall s : jstring, looksLikeId (Some s) = true <-> spec_id_shaped (trim s))
  /\ looksLikeId (Some (lit "123456789012345")) = true
  /\ looksLikeId (Some (lit "c123456789012345")) = true
  /\ looksLikeId (Some (lit "general")) = false.
Proof.
  split; [|repeat split; reflexivity].
  intros s. unfold looksLikeId, spec_id_shaped.
  rewrite orb_true_iff, andb_true_iff, Nat.ltb_lt.
  now rewrite re_prefixed_id_spec, re_all_digits_spec.
Qed.

(** C3 as stated fails on a string with white space around an ID: the
    predicate accepts it although the string itself has neither shape. *)
Lemma looksLikeId_accepts_padded_id :
  looksLikeId (Some (lit " 123456789012345")) = true
  /\ ~ spec_id_shaped (lit " 123456789012345").
Proof.
  split; [reflexivity|].
  intros [(p & d & E & Hp & _ & Hd) | [Hlen _]].
  - destruct Hp as [-> | [-> | ->]]; simpl in E.
    + subst d. inversion Hd as [|? ? Hc _]. discriminate Hc.
    + discriminate E.
    + discriminate E.
  - simpl in Hlen. lia.
Qed.

(** ** Average words per message (C9) *)

Lemma Math_round_quotient (a n : Z) :
  0 < n -> Math_round (Qdiv (inject_Z a) (inject_Z n)) = (2 * a + n) / (2 * n).
Proof.
  intros Hn. unfold Math_round.
  set (x := Qplus (Qdiv (inject_Z a) (inject_Z n)) (1 # 2)).
  assert (E : (x == (2 * a + n) # Z.to_pos (2 * n))%Q).
  { unfold x. rewrite (Qmake_Qdiv (2 * a + n)).
    rewrite Z2Pos.id by lia.
    rewrite !inject_Z_plus, !inject_Z_mult. field.
    intros E. unfold Qeq in E. simpl in E. lia. }
  rewrite E. unfold Qfloor. rewrite Z2Pos.id by lia. reflexivity.
Qed.

Lemma Math_round_nearest (a n : Z) :
  0 < n ->
  let k := Math_round (Qdiv (inject_Z a) (inject_Z n)) in
  2 * n * k <= 2 * a + n < 2 * n * (k + 1).
Proof.
  intros Hn k. unfold k. rewrite Math_round_quotient by assumption.
  pose proof (Z.mul_div_le (2 * a + n) (2 * n)).
  pose proof (Z.mul_succ_div_gt (2 * a + n) (2 * n)).
  lia.
Qed.

Section AverageWords.
Context `{Host}.

(** C9: [avgWordsPerMessage] is 0 for an empty corpus and otherwise the
    quotient [totalWords / totalMessages] rounded to the nearest integer
    (halves up); the computation is total, no division by zero occurs. *)
Theorem avgWordsPerMessage_rounded_mean (result : ParseResult) :
  let s := Summary.stats (buildSummary result) in
  avgWordsPerMessage s
  = (if totalMessages s =? 0 then 0
     else Math_round (Qdiv (inject_Z (totalWords s)) (inject_Z (totalMessages s))))
  /\ (totalMessages s = 0 /\ avgWordsPerMessage s = 0
      \/ 0 < totalMessages s
         /\ 2 * totalMessages s * avgWordsPerMessage s
            <= 2 * totalWords s + totalMessages s
            < 2 * totalMessages s * (avgWordsPerMessage s + 1)).
Proof.
  simpl. split; [reflexivity|].
  set (n := Z.of_nat _). destruct (Z.eqb_spec n 0) as [E|E].
  - left. split; [exact E | reflexivity].
  - right. assert (0 < n) by (unfold n in *; lia).
    split; [assumption|]. now apply Math_round_nearest.
Qed.

End AverageWords.

(** ** Timestamps (C2, C1) *)

Lemma TimeClip_Some (t u : Z) :
  TimeClip t = Some u -> u = t /\ Z.abs t <= 8640000000000000.
Proof.
  unfold TimeClip. destruct (Z.leb_spec (Z.abs t) 8640000000000000); [|discriminate].
  intros [= <-]. auto.
Qed.

Lemma TimeClip_in_range (t : Z) :
  Z.abs t <= 8640000000000000 -> TimeClip t = Some t.
Proof.
  intros Ht. unfold TimeClip.
  destruct (Z.leb_spec (Z.abs t) 8640000000000000); [reflexivity | lia].
Qed.

Section Timestamps.
Context `{Host}.

Lemma newDate_in_range (v : json) (t : Z) :
  getTime (newDate v) = Some t -> Z.abs t <= 8640000000000000.
Proof.
  destruct v as [|b|n|s|l|fs]; simpl.
  - intros [= <-]. lia.
  - intros [= <-]. destruct b; lia.
  - intros E. apply TimeClip_Some in E as [-> ?]. assumption.
  - destruct (Date_parse s) as [u|]; simpl; [|discriminate].
    intros E. apply TimeClip_Some in E as [-> ?]. assumption.
  - destruct (Date_parse _) as [u|]; simpl; [|discriminate].
    intros E. apply TimeClip_Some in E as [-> ?]. assumption.
  - destruct (Date_parse _) as [u|]; simpl; [|discriminate].
    intros E. apply TimeClip_Some in E as [-> ?]. assumption.
Qed.

(** The timestamp that [normalizeMessage] stores, read off its body. *)
Lemma normalizeMessage_timestamp (raw : json) (m : Message) :
  normalizeMessage raw = Ok m ->
  timestamp m =
    match raw_timestamp raw with
    | Some v =>
        if truthy v then
          match getTime (newDate v) with
          | Some t => Some (newDate_ms (t + TZ_OFFSET_MS))
          | None => None
          end
        else None
    | None => None
    end.
Proof.
  unfold normalizeMessage. intros E.
  destruct raw; try discriminate; cbv zeta in E; injection E as <-;
    cbn [timestamp]; try reflexivity.
  unfold raw_timestamp. simpl.
  destruct (_ ?? _) as [v|]; [|reflexivity].
  unfold truthy_opt. destruct (truthy v); reflexivity.
Qed.

(** C2, as the code has it: the stored timestamp is [null] when the raw
    value is absent, falsy (an empty string, the number 0, [false]) or does
    not give a valid date; otherwise it is the date made from the parsed
    instant minus five hours, which is that very instant whenever it is
    still within the range of dates. *)
Theorem normalizeMessage_shifts_timestamp (raw : json) (m : Message) :
  normalizeMessage raw = Ok m ->
  ((forall v, raw_timestamp raw = Some v -> getTime (newDate v) = None) ->
   timestamp m = None)
  /\ (forall v, raw_timestamp raw = Some v -> truthy v = false -> timestamp m = None)
  /\ (forall v t,
        raw_timestamp raw = Some v -> truthy v = true ->
        getTime (newDate v) = Some t ->
        timestamp m = Some (newDate_ms (t - 5 * 3600000))
        /\ (- 8640000000000000 <= t - 5 * 3600000 ->
            timestamp m = Some (mkDate (Some (t - 5 * 3600000))))).
Proof.
  intros E. apply normalizeMessage_timestamp in E. split; [|split].
  - intros Hbad. rewrite E. destruct (raw_timestamp raw) as [v|]; [|reflexivity].
    rewrite (Hbad v eq_refl). now destruct (truthy v).
  - intros v Ev Hv. now rewrite E, Ev, Hv.
  - intros v t Ev Hv Ht. split.
    + rewrite E, Ev, Hv, Ht. reflexivity.
    + intros Hlow. rewrite E, Ev, Hv, Ht. unfold newDate_ms.
      apply newDate_in_range in Ht.
      rewrite TimeClip_in_range; [reflexivity|].
      unfold TZ_OFFSET_MS, TZ_OFFSET_HOURS. lia.
Qed.

End Timestamps.

(** The example of the specification: [2024-01-01T05:00:00Z] is stored as
    the instant [2024-01-01T00:00:00Z]. *)
Lemma normalizeMessage_shifts_timestamp_example :
  exists m,
    normalizeMessage (H := Utc.host)
      (obj [("Timestamp", jstr "2024-01-01T05:00:00Z")]%string) = Ok m
    /\ timestamp m = Some (mkDate (Some 1704067200000))
    /\ Utc.parse (lit "2024-01-01T00:00:00Z") = Some 1704067200000.
Proof.
  eexists. split; [reflexivity|]. split; [|reflexivity].
  destruct (normalizeMessage_shifts_timestamp (H := Utc.host)
              (obj [("Timestamp", jstr "2024-01-01T05:00:00Z")]%string) _ eq_refl)
    as (_ & _ & Hshift).
  destruct (Hshift (jstr "2024-01-01T05:00:00Z") 1704085200000
              eq_refl eq_refl eq_refl) as [_ Hin].
  apply Hin. lia.
Defined.

(** C2 as stated fails on the numeric timestamp 0: it makes a valid date
    (the epoch), yet the truthiness guard stores [null]. *)
Lemma normalizeMessage_drops_epoch :
  getTime (newDate (H := Utc.host) (JNum 0)) = Some 0
  /\ exists m,
       normalizeMessage (H := Utc.host) (obj [("Timestamp", JNum 0)]%string) = Ok m
       /\ timestamp m = None.
Proof. split; [reflexivity|]. eexists. split; reflexivity. Qed.

(** ** Messages without a timestamp (C1) *)

Section Untimed.
Context `{Host}.

Lemma name_message_timestamp (st : ParseResult) (meta : Meta.t) (cp : jstring)
    (m : Message) :
  timestamp (name_message st meta cp m) = timestamp m.
Proof. reflexivity. Qed.

(** A message that the filter rejects leaves no trace in the summary. *)
Lemma buildSummary_ignores_untimed (result : ParseResult) (pre post : list Message)
    (m : Message) :
  has_valid_timestamp m = false ->
  messages result = pre ++ m :: post ->
  buildSummary result = buildSummary (with_messages (pre ++ post) result).
Proof.
  intros Hm E. unfold buildSummary. cbn [messages with_messages].
  rewrite E, !List.filter_app. cbn [List.filter]. rewrite Hm. reflexivity.
Qed.

(** C1, as the code has it: a message whose raw timestamp does not parse
    is normalised to timestamp [null], and [buildSummary] drops it before
    aggregating: the summary is the one of the corpus without that message,
    so the message counts toward neither [totalMessages] nor [totalWords]
    and enters no temporal table. *)
Theorem unparseable_timestamp_message_dropped (raw : json) (m : Message) :
  normalizeMessage raw = Ok m ->
  (forall v, raw_timestamp raw = Some v -> getTime (newDate v) = None) ->
  timestamp m = None
  /\ forall (st : ParseResult) (meta : Meta.t) (cp : jstring)
       (result : ParseResult) (pre post : list Message),
       messages result = pre ++ name_message st meta cp m :: post ->
       buildSummary result = buildSummary (with_messages (pre ++ post) result).
Proof.
  intros E Hbad.
  assert (Hts : timestamp m = None).
  { rewrite (normalizeMessage_timestamp raw m E).
    destruct (raw_timestamp raw) as [v|]; [|reflexivity].
    rewrite (Hbad v eq_refl). now destruct (truthy v). }
  split; [exact Hts|].
  intros st meta cp result pre post Hms.
  apply (buildSummary_ignores_untimed result pre post (name_message st meta cp m));
    [|exact Hms].
  unfold has_valid_timestamp. now rewrite name_message_timestamp, Hts.
Qed.

End Untimed.

Lemma unparseable_timestamp_message_dropped_example :
  exists m,
    normalizeMessage (H := Utc.host)
      (obj [("Timestamp", jstr "not a date"); ("Contents", jstr "hello world")]%string)
    = Ok m
    /\ timestamp m = None
    /\ buildSummary (H := Utc.host)
         (with_messages [name_message empty_result Meta.empty (lit "messages/7") m]
            empty_result)
       = buildSummary (H := Utc.host) (with_messages [] empty_result).
Proof.
  eexists. split; [reflexivity|].
  destruct (unparseable_timestamp_message_dropped (H := Utc.host)
              (obj [("Timestamp", jstr "not a date");
                    ("Contents", jstr "hello world")]%string) _ eq_refl)
    as [Hts Hdrop].
  { intros v [= <-]. reflexivity. }
  split; [exact Hts|].
  apply (Hdrop empty_result Meta.empty (lit "messages/7")
           (with_messages [name_message empty_result Meta.empty (lit "messages/7") _]
              empty_result) [] []).
  reflexivity.
Defined.

(** C1 as stated fails: the only message of this export has two words and
    an unparseable timestamp, and the summary counts no message and no
    word. *)
Lemma unparseable_timestamp_not_counted :
  (exists m,
     normalizeMessage (H := Utc.host)
       (obj [("Timestamp", jstr "not a date"); ("Contents", jstr "hello world")]%string)
     = Ok m
     /\ timestamp m = None
     /\ length (tokenize (H := Utc.host) (contents m)) = 2%nat)
  /\ let s :=
       Summary.stats
         (fst (parseZip (H := Utc.host)
                 [file "messages/7/messages.json"
                    (Some (JArr [obj [("Timestamp", jstr "not a date");
                                      ("Contents", jstr "hello world")]%string]))])) in
     totalMessages s = 0 /\ totalWords s = 0.
Proof.
  split.
  - eexists. repeat split; reflexivity.
  - vm_compute. split; reflexivity.
Qed.

(** ** Channel rows (C4, C5) *)

Lemma in_insert_by {A} (cmp : A -> A -> Z) (x a : A) (l : list A) :
  In x (insert_by cmp a l) <-> x = a \/ In x l.
Proof.
  induction l as [|y l IH]; simpl.
  - intuition congruence.
  - destruct (cmp a y <=? 0); simpl; [intuition congruence|].
    rewrite IH. intuition congruence.
Qed.

Lemma in_sort_by {A} (cmp : A -> A -> Z) (x : A) (l : list A) :
  In x (sort_by cmp l) <-> In x l.
Proof.
  unfold sort_by. induction l as [|a l IH]; simpl; [reflexivity|].
  rewrite in_insert_by, IH. intuition congruence.
Qed.

Lemma Forall_upsert {V} (P : jstring * V -> Prop) (k : jstring) (f : option V -> V)
    (l : list (jstring * V)) :
  (forall v, P (k, v) -> P (k, f (Some v))) ->
  P (k, f None) ->
  Forall P l -> Forall P (upsert jstring_eqb k f l).
Proof.
  intros Hsome Hnone. induction 1 as [|[k' v] l Hx Hl IH]; simpl.
  - constructor; [exact Hnone | constructor].
  - destruct (jstring_eqb k k') eqn:E.
    + apply jstring_eqb_eq in E. subst k'. constructor; auto.
    + constructor; auto.
Qed.

Lemma nonempty_and_looksLikeId (n : option jstring) :
  nonempty n && looksLikeId n = looksLikeId n.
Proof. destruct n as [[|c n]|]; reflexivity. Qed.

Section ChannelRows.
Context `{Host}.

Lemma row_from_more (result : ParseResult) (ms ms' : list Message)
    (kr : jstring * ChannelRow.t) :
  row_from result ms kr -> row_from result (ms ++ ms') kr.
Proof.
  intros (E & m & Hin & Hm). split; [exact E|].
  exists m. split; [apply in_or_app; now left | exact Hm].
Qed.

Lemma summarize_step_rows (result : ParseResult) (seen : list Message)
    (acc : Acc) (m : Message) :
  Forall (row_from result seen) (acc_byChannel acc) ->
  Forall (row_from result (seen ++ [m]))
    (acc_byChannel (summarize_step result acc m)).
Proof.
  intros Hacc. cbn [summarize_step acc_byChannel].
  apply Forall_upsert.
  - intros v (E & m0 & Hin & Hk & Hn & Hg). cbn in *.
    split; [exact E|]. exists m0. repeat split; auto.
  - split; [reflexivity|]. exists m. cbn.
    repeat split; auto. apply in_or_app. right. now left.
  - eapply Forall_impl; [exact Hacc|]. intros kr. apply row_from_more.
Qed.

Lemma summarize_rows (result : ParseResult) (ms seen : list Message) (acc : Acc) :
  Forall (row_from result seen) (acc_byChannel acc) ->
  Forall (row_from result (seen ++ ms))
    (acc_byChannel (foldl (summarize_step result) acc ms)).
Proof.
  revert seen acc. induction ms as [|m ms IH]; intros seen acc Hacc; simpl.
  - now rewrite app_nil_r.
  - replace (seen ++ m :: ms) with ((seen ++ [m]) ++ ms)
      by now rewrite <- app_assoc.
    apply IH. now apply summarize_step_rows.
Qed.

Lemma byChannel_row_origin (result : ParseResult) (r : ChannelRow.t) :
  In r (byChannel (Summary.stats (buildSummary result))) ->
  exists m, In m (messages result)
    /\ has_valid_timestamp m = true
    /\ channel_key m = ChannelRow.channelId r
    /\ ChannelRow.channelName r = displayName_of result m
    /\ ChannelRow.guildId r = guildId m.
Proof.
  cbn [buildSummary Summary.stats byChannel]. rewrite in_sort_by, in_map_iff.
  intros ([k r0] & <- & Hin).
  pose proof (summarize_rows result
                (List.filter has_valid_timestamp (messages result)) [] initial_acc
                (List.Forall_nil _)) as Hrows.
  rewrite List.Forall_forall in Hrows.
  destruct (Hrows _ Hin) as (E & m & Hm & Hk & Hn & Hg). cbn in *.
  apply filter_In in Hm as [Hm Hvalid].
  exists m. repeat split; auto. congruence.
Qed.

(** C4, as the code has it: when the index holds a name under a row's
    channel ID, or else under that ID without its non-digit prefix, the row
    shows the index name and not the per-message default; only for a channel
    without a guild is an ID-shaped index name replaced by [null]. *)
Theorem index_name_overrides_default (result : ParseResult) (r : ChannelRow.t)
    (name : jstring) :
  In r (byChannel (Summary.stats (buildSummary result))) ->
  channelIdToName result !! ChannelRow.channelId r = Some name
  \/ (channelIdToName result !! ChannelRow.channelId r = None
      /\ channelIdToName result !! strip_nondigit_prefix (ChannelRow.channelId r) = Some name) ->
  ChannelRow.channelName r
  = if negb (nonempty (ChannelRow.guildId r)) && looksLikeId (Some name)
    then None else Some name.
Proof.
  intros Hr Hidx.
  destruct (byChannel_row_origin result r Hr) as (m & _ & _ & Hk & Hn & Hg).
  assert (Hcand : candidate_name result m = Some name).
  { unfold candidate_name, idFromIndex. rewrite Hk.
    destruct Hidx as [E | [E1 E2]].
    - now rewrite E.
    - rewrite E1. destruct (ChannelRow.channelId r) as [|c k].
      + simpl in E2. congruence.
      + now rewrite E2. }
  rewrite Hn, Hg. unfold displayName_of. rewrite Hcand.
  now rewrite <- andb_assoc, nonempty_and_looksLikeId.
Qed.

(** C5: a row of a channel without a guild never shows an ID-shaped name:
    its name is that of the message that created the row (index name first,
    per-message name otherwise), replaced by [null] when ID-shaped. *)
Theorem dm_row_hides_id_shaped_name (result : ParseResult) (r : ChannelRow.t) :
  In r (byChannel (Summary.stats (buildSummary result))) ->
  nonempty (ChannelRow.guildId r) = false ->
  (forall n, ChannelRow.channelName r = Some n -> looksLikeId (Some n) = false)
  /\ exists m, In m (messages result)
       /\ has_valid_timestamp m = true
       /\ channel_key m = ChannelRow.channelId r
       /\ ChannelRow.channelName r
          = if looksLikeId (candidate_name result m) then None
            else candidate_name result m.
Proof.
  intros Hr Hdm.
  destruct (byChannel_row_origin result r Hr) as (m & Hin & Hv & Hk & Hn & Hg).
  assert (E : ChannelRow.channelName r
              = if looksLikeId (candidate_name result m) then None
                else candidate_name result m).
  { rewrite Hn. unfold displayName_of. rewrite <- Hg, Hdm. simpl negb.
    now rewrite andb_true_l, nonempty_and_looksLikeId. }
  split.
  - intros n En. rewrite E in En.
    destruct (looksLikeId (candidate_name result m)) eqn:L; [discriminate|].
    now rewrite En in L.
  - exists m. auto.
Qed.

End ChannelRows.

Lemma index_name_overrides_default_example :
  exists r,
    In r (byChannel (Summary.stats (buildSummary (H := Utc.host) team_chat_result)))
    /\ ChannelRow.channelName r = Some (lit "team-chat").
Proof.
  set (rows := byChannel (Summary.stats (buildSummary (H := Utc.host) team_chat_result))).
  assert (Hin : In (hd blank_row rows) rows).
  { vm_compute. left. reflexivity. }
  eexists. split; [exact Hin|].
  rewrite (index_name_overrides_default (H := Utc.host) team_chat_result _
             (lit "team-chat") Hin).
  - vm_compute. reflexivity.
  - left. vm_compute. reflexivity.
Defined.

(** The same example through the whole pipeline: the message carries the
    default name [42], the row shows [team-chat]. *)
Example team_chat_export_names :
  map channelName (Summary.messages (fst (parseZip (H := Utc.host) team_chat_export)))
  = [Some (lit "42")]
  /\ map ChannelRow.channelName
       (byChannel (Summary.stats (fst (parseZip (H := Utc.host) team_chat_export))))
     = [Some (lit "team-chat")].
Proof. vm_compute. split; reflexivity. Qed.

(** C4 as stated fails for a direct-message channel whose index name is
    ID-shaped: the row shows [null], not the index name. *)
Lemma index_name_suppressed_for_dm :
  map (fun r => (ChannelRow.channelId r, ChannelRow.guildId r, ChannelRow.channelName r))
    (byChannel (Summary.stats (fst (parseZip (H := Utc.host) id_named_export))))
  = [(lit "42", None, None)].
Proof. vm_compute. reflexivity. Qed.

Lemma dm_row_hides_id_shaped_name_example :
  exists r,
    In r (byChannel (Summary.stats (buildSummary (H := Utc.host) id_named_result)))
    /\ nonempty (ChannelRow.guildId r) = false
    /\ candidate_name id_named_result
         (hd blank_message (messages id_named_result))
       = Some (lit "123456789012345678")
    /\ ChannelRow.channelName r <> Some (lit "123456789012345678").
Proof.
  set (rows := byChannel (Summary.stats (buildSummary (H := Utc.host) id_named_result))).
  assert (Hin : In (hd blank_row rows) rows).
  { vm_compute. left. reflexivity. }
  assert (Hdm : nonempty (ChannelRow.guildId (hd blank_row rows)) = false).
  { vm_compute. reflexivity. }
  eexists. split; [exact Hin|]. split; [exact Hdm|]. split.
  - vm_compute. reflexivity.
  - intros E.
    destruct (dm_row_hides_id_shaped_name (H := Utc.host) id_named_result _ Hin Hdm)
      as [Hnever _].
    apply Hnever in E. vm_compute in E. discriminate E.
Defined.

(** The example of the specification for C5, through the whole pipeline:
    the guild channel is shown as [general], the direct-message channel as
    [null]. *)
Example two_channel_export_names :
  map (fun r => (ChannelRow.channelId r, ChannelRow.channelName r, ChannelRow.count r))
    (byChannel (Summary.stats (fst (parseZip (H := Utc.host) two_channel_export))))
  = [(lit "1", Some (lit "general"), 2);
     (lit "123456789012345678", None, 1)].
Proof. vm_compute. reflexivity. Qed.

(** ** Progress reports (C6) *)

Lemma reports_in_nil (g : Z -> Q) (i n : Z) : reports_in g i n [].
Proof. split; constructor. Qed.

Lemma reports_in_skip (g : Z -> Q) (i n : Z) (reports : list Q) :
  reports_in g (i + 1) n reports -> reports_in g i n reports.
Proof.
  intros [Hs Hf]. split; [exact Hs|].
  eapply Forall_impl; [exact Hf|].
  intros q (j & Hj & ->). exists j. split; [lia | reflexivity].
Qed.

Lemma reports_in_cons (g : Z -> Q) (i n : Z) (reports : list Q) :
  (forall j k, i <= j -> j <= k -> k < n -> Qle (g j) (g k)) ->
  i < n ->
  reports_in g (i + 1) n reports -> reports_in g i n (g i :: reports).
Proof.
  intros Hmono Hi [Hs Hf]. split.
  - constructor; [exact Hs|].
    eapply Forall_impl; [exact Hf|].
    intros q (j & Hj & ->). apply Hmono; lia.
  - constructor.
    + exists i. split; [lia | reflexivity].
    + eapply Forall_impl; [exact Hf|].
      intros q (j & Hj & ->). exists j. split; [lia | reflexivity].
Qed.

Lemma reports_in_bounds (g : Z -> Q) (i n : Z) (lo hi : Q) (reports : list Q) :
  (forall j, i <= j < n -> Qle lo (g j) /\ Qle (g j) hi) ->
  reports_in g i n reports ->
  Forall (fun q => Qle lo q /\ Qle q hi) reports.
Proof.
  intros Hb [_ Hf]. eapply Forall_impl; [exact Hf|].
  intros q (j & Hj & ->). now apply Hb.
Qed.

Lemma zip_percent_mono (total j k : Z) :
  0 < total -> j <= k -> Qle (zip_percent total j) (zip_percent total k).
Proof.
  intros Ht Hjk. unfold zip_percent. rewrite <- Zle_Qle.
  apply Z.add_le_mono_l, Z.div_le_mono; lia.
Qed.

Lemma zip_percent_bounds (total j : Z) :
  0 <= j < total ->
  Qle (inject_Z 10) (zip_percent total j) /\ Qle (zip_percent total j) (inject_Z 80).
Proof.
  intros Hj. unfold zip_percent. rewrite <- !Zle_Qle.
  assert (0 <= 70 * (j + 1) / total) by (apply Z.div_pos; lia).
  assert (70 * (j + 1) / total <= 70).
  { apply Z.div_le_upper_bound; lia. }
  lia.
Qed.

Lemma list_percent_mono (total j k : Z) :
  0 < total -> j <= k -> Qle (list_percent total j) (list_percent total k).
Proof.
  intros Ht Hjk. unfold list_percent. rewrite <- Zle_Qle.
  apply Z.add_le_mono_l, Z.div_le_mono; lia.
Qed.

Lemma list_percent_bounds (total j : Z) :
  0 <= j < total ->
  Qle (inject_Z 5) (list_percent total j) /\ Qle (list_percent total j) (inject_Z 85).
Proof.
  intros Hj. unfold list_percent. rewrite <- !Zle_Qle.
  assert (0 <= 80 * (j + 1) / total) by (apply Z.div_pos; lia).
  assert (80 * (j + 1) / total <= 80).
  { apply Z.div_le_upper_bound; lia. }
  lia.
Qed.

Lemma list_meta_percent_mono (total j k : Z) :
  0 < total -> j <= k ->
  Qle (list_meta_percent total j) (list_meta_percent total k).
Proof.
  intros Ht Hjk. unfold list_meta_percent.
  apply Q.min_le_compat_l. unfold Qle. simpl. nia.
Qed.

Lemma list_meta_percent_bounds (total j : Z) :
  0 < total -> 0 <= j ->
  Qle (inject_Z 0) (list_meta_percent total j)
  /\ Qle (list_meta_percent total j) (inject_Z 5).
Proof.
  intros Ht Hj. unfold list_meta_percent. split.
  - apply Q.min_glb.
    + now rewrite <- Zle_Qle.
    + unfold Qle. simpl. nia.
  - apply Q.le_min_l.
Qed.

Lemma sorted_sandwich (a reports b : list Q) (lo hi : Q) :
  Qle lo hi ->
  StronglySorted Qle a -> StronglySorted Qle reports -> StronglySorted Qle b ->
  Forall (fun q => Qle q lo) a ->
  Forall (fun q => Qle lo q /\ Qle q hi) reports ->
  Forall (fun q => Qle hi q) b ->
  StronglySorted Qle (a ++ reports ++ b).
Proof.
  intros Hlh Ha Hr Hb Fa Fr Fb.
  rewrite List.Forall_forall in Fa, Fr, Fb.
  apply StronglySorted_app_2; [|exact Ha|].
  - intros x y Hx Hy. apply list_elem_of_In in Hx. apply Fa in Hx.
    apply elem_of_app in Hy as [Hy|Hy]; apply list_elem_of_In in Hy.
    + apply Fr in Hy as [Hy _]. eapply Qle_trans; eassumption.
    + apply Fb in Hy. eapply Qle_trans; [exact Hx|]. eapply Qle_trans; eassumption.
  - apply StronglySorted_app_2; [|exact Hr|exact Hb].
    intros x y Hx Hy. apply list_elem_of_In in Hx, Hy.
    apply Fr in Hx as [_ Hx]. apply Fb in Hy. eapply Qle_trans; eassumption.
Qed.

Lemma last_two {A} (l : list A) (a b d : A) : List.last (l ++ [a; b]) d = b.
Proof.
  replace (l ++ [a; b]) with ((l ++ [a]) ++ [b]) by now rewrite <- app_assoc.
  apply last_last.
Qed.

Section Progress.
Context `{Host}.

Lemma zip_message_loop_reports (total : Z) (cs : list Candidate) :
  forall (i : Z) (st : ParseResult),
    0 <= i -> i + Z.of_nat (length cs) <= total ->
    reports_in (zip_percent total) i total (snd (zip_message_loop total i cs st)).
Proof.
  induction cs as [|c cs IH]; intros i st Hi Hn; simpl.
  - apply reports_in_nil.
  - destruct (read_messages zip_getMeta c st) as [st' reached].
    specialize (IH (i + 1) st').
    destruct (zip_message_loop total (i + 1) cs st') as [st'' reports].
    simpl in *.
    destruct (reached && (((i + 1) mod 5 =? 0) || (i =? total - 1))); simpl.
    + apply reports_in_cons; [| lia | apply IH; lia].
      intros j k ? ? ?. apply zip_percent_mono; lia.
    + apply reports_in_skip, IH; lia.
Qed.

Lemma list_message_loop_reports (total : Z) (cs : list Candidate) :
  forall (i : Z) (st : ParseResult),
    0 <= i -> i + Z.of_nat (length cs) <= total ->
    reports_in (list_percent total) i total (snd (list_message_loop total i cs st)).
Proof.
  induction cs as [|c cs IH]; intros i st Hi Hn; simpl.
  - apply reports_in_nil.
  - destruct (read_messages list_getMeta c st) as [st' reached].
    specialize (IH (i + 1) st').
    destruct (list_message_loop total (i + 1) cs st') as [st'' reports].
    simpl in *.
    destruct (reached && (0 <? total) && ((i + 1) mod 10 =? 0)); simpl.
    + apply reports_in_cons; [| lia | apply IH; lia].
      intros j k ? ? ?. apply list_percent_mono; lia.
    + apply reports_in_skip, IH; lia.
Qed.

Lemma list_meta_loop_reports (total : Z) (cs : list Candidate) :
  forall (i : Z) (st : ParseResult),
    0 <= i -> i + Z.of_nat (length cs) <= total ->
    reports_in (list_meta_percent total) i total (snd (list_meta_loop total i cs st)).
Proof.
  induction cs as [|c cs IH]; intros i st Hi Hn; simpl.
  - apply reports_in_nil.
  - destruct (read_meta true c st) as [st'|].
    + specialize (IH (i + 1) st').
      destruct (list_meta_loop total (i + 1) cs st') as [st'' reports].
      simpl in *.
      destruct ((0 <? total) && ((i + 1) mod 5 =? 0)); simpl.
      * apply reports_in_cons; [| lia | apply IH; lia].
        intros j k ? ? ?. apply list_meta_percent_mono; lia.
      * apply reports_in_skip, IH; lia.
    + specialize (IH (i + 1) st).
      destruct (list_meta_loop total (i + 1) cs st) as [st'' reports].
      simpl in *. apply reports_in_skip, IH; lia.
Qed.

(** C6, as the code has it: the percentages passed to [onProgress] are in
    non-decreasing order in both pipelines; the last one is 95 in [parseZip]
    and 85 in [parseFileList] (the value 100 is set by the caller once the
    result has arrived, not through the callback). *)
Theorem progress_reports_nondecreasing (files : list File) :
  StronglySorted Qle (snd (parseZip files))
  /\ List.last (snd (parseZip files)) (inject_Z 0) = inject_Z 95
  /\ StronglySorted Qle (snd (parseFileList files))
  /\ List.last (snd (parseFileList files)) (inject_Z 0) = inject_Z 85.
Proof.
  assert (Hsingle : forall q, StronglySorted Qle [q]).
  { intros q. repeat constructor. }
  assert (Hzip : exists reports,
             snd (parseZip files)
             = [inject_Z 0; inject_Z 5; inject_Z 10] ++ reports
                 ++ [inject_Z 80; inject_Z 95]
             /\ reports_in
                  (zip_percent (Z.of_nat (length (map snd (omap zip_classify files)))))
                  0 (Z.of_nat (length (map snd (omap zip_classify files)))) reports).
  { unfold parseZip.
    pose proof (zip_message_loop_reports
                  (Z.of_nat (length (map snd (omap zip_classify files))))
                  (map snd (omap zip_classify files)) 0
                  (zip_meta_loop (meta_candidates (omap zip_classify files)) empty_result))
      as Hloop.
    destruct (zip_message_loop _ 0 _ _) as [st reports]. simpl in *.
    exists reports. split; [reflexivity|]. apply Hloop; lia. }
  assert (Hlist : exists metaReports reports,
             snd (parseFileList files)
             = [inject_Z 0] ++ metaReports ++ [inject_Z 5] ++ reports ++ [inject_Z 85]
             /\ reports_in
                  (list_meta_percent
                     (Z.of_nat (length (meta_candidates (omap list_classify files)))))
                  0 (Z.of_nat (length (meta_candidates (omap list_classify files))))
                  metaReports
             /\ reports_in
                  (list_percent (Z.of_nat (length (list_message_candidates files))))
                  0 (Z.of_nat (length (list_message_candidates files))) reports).
  { unfold parseFileList.
    pose proof (list_meta_loop_reports
                  (Z.of_nat (length (meta_candidates (omap list_classify files))))
                  (meta_candidates (omap list_classify files)) 0 empty_result)
      as Hmeta.
    destruct (list_meta_loop _ 0 _ _) as [st metaReports].
    pose proof (list_message_loop_reports
                  (Z.of_nat (length (list_message_candidates files)))
                  (list_message_candidates files) 0 st) as Hloop.
    destruct (list_message_loop _ 0 _ _) as [st' reports]. simpl in *.
    exists metaReports, reports. split; [reflexivity|].
    split; [apply Hmeta | apply Hloop]; lia. }
  destruct Hzip as (reports & -> & Hr).
  destruct Hlist as (metaReports & reports' & -> & Hm & Hr').
  split; [|split; [|split]].
  - apply (sorted_sandwich _ _ _ (inject_Z 10) (inject_Z 80)).
    + now rewrite <- Zle_Qle.
    + repeat constructor; now rewrite <- Zle_Qle.
    + apply Hr.
    + repeat constructor; now rewrite <- Zle_Qle.
    + repeat constructor; now rewrite <- Zle_Qle.
    + eapply reports_in_bounds; [|exact Hr].
      intros j Hj. apply zip_percent_bounds. lia.
    + repeat constructor; now rewrite <- Zle_Qle.
  - rewrite app_assoc. apply last_two.
  - apply (sorted_sandwich _ _ _ (inject_Z 0) (inject_Z 5)).
    + now rewrite <- Zle_Qle.
    + apply Hsingle.
    + apply Hm.
    + apply (sorted_sandwich _ _ _ (inject_Z 5) (inject_Z 85)).
      * now rewrite <- Zle_Qle.
      * apply Hsingle.
      * apply Hr'.
      * apply Hsingle.
      * repeat constructor. now rewrite <- Zle_Qle.
      * eapply reports_in_bounds; [|exact Hr'].
        intros j Hj. apply list_percent_bounds. lia.
      * repeat constructor. now rewrite <- Zle_Qle.
    + repeat constructor. now rewrite <- Zle_Qle.
    + eapply reports_in_bounds; [|exact Hm].
      intros j Hj. apply list_meta_percent_bounds; lia.
    + constructor; [now rewrite <- Zle_Qle|].
      rewrite List.Forall_forall. intros q Hq.
      apply in_app_or in Hq as [Hq|Hq].
      * destruct Hr' as [_ Hf]. rewrite List.Forall_forall in Hf.
        destruct (Hf q Hq) as (j & Hj & ->). apply list_percent_bounds. lia.
      * destruct Hq as [<-|[]]. now rewrite <- Zle_Qle.
  - replace ([inject_Z 0] ++ metaReports ++ [inject_Z 5] ++ reports' ++ [inject_Z 85])
      with (([inject_Z 0] ++ metaReports ++ [inject_Z 5] ++ reports') ++ [inject_Z 85]).
    + apply last_last.
    + now rewrite <- !app_assoc.
Qed.

End Progress.

(** C6 as stated fails: the last percentage [parseZip] reports is 95, not
    100. *)
Lemma progress_never_reaches_100 :
  snd (parseZip (H := Utc.host) id_named_export)
  = map inject_Z [0; 5; 10; 80; 80; 95]
  /\ ~ Qeq (List.last (snd (parseZip (H := Utc.host) id_named_export)) (inject_Z 0))
         (inject_Z 100).
Proof.
  split; [vm_compute; reflexivity|].
  vm_compute. discriminate.
Qed.

(** ** The secondary scan (C8) *)

Section Fallback.
Context `{Host}.

(** X30: the secondary scan as [parseFileList] has it: when the first loop
    finds no message candidate, the candidates are those of the secondary
    scan over all files, in order; a file whose last path segment is
    [messages.json] and that has a parent directory is one of them, with the
    path of that directory as its channel path. *)
Theorem fallback_scan_when_no_candidate (files : list File) :
  omap list_classify files = [] ->
  toLowerCase (lit "messages.json") = lit "messages.json" ->
  list_message_candidates files = omap list_fallback files
  /\ forall f, In f files ->
       List.last (list_parts (list_path f)) [] = lit "messages.json" ->
       (2 <= length (list_parts (list_path f)))%nat ->
       In {| cand_path := list_path f;
             channelPath := join_slash (removelast (list_parts (list_path f)));
             cand_file := f |}
          (list_message_candidates files).
Proof.
  intros Hnone Hlower.
  assert (E : list_message_candidates files = omap list_fallback files).
  { unfold list_message_candidates. now rewrite Hnone. }
  split; [exact E|].
  intros f Hf Hname Hlen. rewrite E.
  apply list_elem_of_In, list_elem_of_omap.
  exists f. split; [now apply list_elem_of_In|].
  unfold list_fallback. rewrite Hname, Hlower, jstring_eqb_refl.
  apply Nat.leb_le in Hlen. rewrite Hlen. reflexivity.
Qed.

End Fallback.

Lemma fallback_scan_when_no_candidate_example :
  list_message_candidates (H := Utc.host) loose_export
  = omap (list_fallback (H := Utc.host)) loose_export
  /\ In {| cand_path := lit "backup/123/messages.json";
           channelPath := lit "backup/123";
           cand_file := hd (file "" None) loose_export |}
        (list_message_candidates (H := Utc.host) loose_export).
Proof.
  destruct (fallback_scan_when_no_candidate (H := Utc.host) loose_export)
    as [E Hin]; [reflexivity | reflexivity |].
  split; [exact E|].
  apply (Hin (hd (file "" None) loose_export)).
  - left. reflexivity.
  - reflexivity.
  - simpl. lia.
Defined.

(** C8 at an export whose transcript lies outside a [messages/] root:
    the classification of [parseZip] finds no candidate and no secondary
    scan follows, so the file named [messages.json] is not read and the
    summary is empty, whereas [parseFileList] falls back to the secondary
    scan and reads it. *)
Lemma zip_has_no_fallback_scan :
  map snd (omap (zip_classify (H := Utc.host)) loose_export) = []
  /\ totalMessages (Summary.stats (fst (parseZip (H := Utc.host) loose_export))) = 0
  /\ totalMessages (Summary.stats (fst (parseFileList (H := Utc.host) loose_export))) = 1.
Proof. repeat split; vm_compute; reflexivity. Qed.

(** ** Malformed files (C7) *)


Section Malformed.
Context `{Host}.



























End Malformed.


(** The three kinds of failure on one export: an unreadable file, a
    transcript with a [null] entry after its first message, and a metadata
    file whose avatar is a number.  The messages of the healthy files and
    the message before the [null] are counted. *)
Example malformed_files_export_summary :
  let s :=
    Summary.stats
      (fst (parseZip (H := Utc.host)
              (file "messages/c1/notes.json" None
               :: file "messages/c9/messages.json"
                    (Some (JArr [obj [("Timestamp", jstr "2024-01-04T05:00:00Z");
                                      ("Contents", jstr "kept")]%string;
                                 JNull;
                                 obj [("Timestamp", jstr "2024-01-05T05:00:00Z");
                                      ("Contents", jstr "lost")]%string]))
               :: file "messages/c9/channel.json"
                    (Some (obj [("Channel ID", jstr "9"); ("avatar", JNum 7)]%string))
               :: two_channel_export))) in
  totalMessages s = 4 /\ map (fun r => ChannelRow.count r) (byChannel s) = [2; 1; 1].
Proof. vm_compute. split; reflexivity. Qed.

(** ** Emoji counts (C10) *)

(** *** Classes of code units *)

Lemma is_space_is_sep (c : N) : is_space c = true -> is_sep c = true.
Proof. unfold is_sep. now intros ->. Qed.

Lemma emoji_unit_ascii (c : N) : is_emoji_unit c = true -> (c < 128)%N.
Proof.
  unfold is_emoji_unit, is_word, is_digit. intros E.
  destruct (N.ltb_spec c 128) as [?|Hge]; [assumption|].
  exfalso. revert E.
  replace (97 <=? c)%N with true by (symmetry; apply N.leb_le; lia).
  replace (c <=? 122)%N with false by (symmetry; apply N.leb_gt; lia).
  replace (c <=? 90)%N with false by (symmetry; apply N.leb_gt; lia).
  replace (c <=? 57)%N with false by (symmetry; apply N.leb_gt; lia).
  replace (c =? 95)%N with false by (symmetry; apply N.eqb_neq; lia).
  replace (c =? 126)%N with false by (symmetry; apply N.eqb_neq; lia).
  rewrite !andb_false_r. simpl. discriminate.
Qed.

Lemma ascii_not_sep (c : N) :
  (32 < c)%N -> (c < 128)%N -> is_sep c = false.
Proof.
  intros Hlo Hhi. unfold is_sep, is_space.
  replace (c <=? 13)%N with false by (symmetry; apply N.leb_gt; lia).
  replace (c =? 32)%N with false by (symmetry; apply N.eqb_neq; lia).
  replace (c =? 160)%N with false by (symmetry; apply N.eqb_neq; lia).
  replace (c =? 5760)%N with false by (symmetry; apply N.eqb_neq; lia).
  replace (8192 <=? c)%N with false by (symmetry; apply N.leb_gt; lia).
  replace (c =? 8232)%N with false by (symmetry; apply N.eqb_neq; lia).
  replace (c =? 8233)%N with false by (symmetry; apply N.eqb_neq; lia).
  replace (c =? 8239)%N with false by (symmetry; apply N.eqb_neq; lia).
  replace (c =? 8287)%N with false by (symmetry; apply N.eqb_neq; lia).
  replace (c =? 12288)%N with false by (symmetry; apply N.eqb_neq; lia).
  replace (c =? 65279)%N with false by (symmetry; apply N.eqb_neq; lia).
  replace (8203 <=? c)%N with false by (symmetry; apply N.leb_gt; lia).
  rewrite !andb_false_r. reflexivity.
Qed.

Lemma emoji_unit_lower_bound (c : N) : is_emoji_unit c = true -> (32 < c)%N.
Proof.
  unfold is_emoji_unit, is_word, is_digit. intros E.
  destruct (N.ltb_spec 32 c) as [?|Hle]; [assumption|].
  exfalso. revert E.
  replace (97 <=? c)%N with false by (symmetry; apply N.leb_gt; lia).
  replace (65 <=? c)%N with false by (symmetry; apply N.leb_gt; lia).
  replace (48 <=? c)%N with false by (symmetry; apply N.leb_gt; lia).
  replace (c =? 95)%N with false by (symmetry; apply N.eqb_neq; lia).
  replace (c =? 126)%N with false by (symmetry; apply N.eqb_neq; lia).
  simpl. discriminate.
Qed.

Lemma sep_not_emoji_unit (c : N) : is_sep c = true -> is_emoji_unit c = false.
Proof.
  intros Hs. destruct (is_emoji_unit c) eqn:E; [|reflexivity].
  rewrite ascii_not_sep in Hs;
    [discriminate | now apply emoji_unit_lower_bound | now apply emoji_unit_ascii].
Qed.

Lemma sep_not_colon (c : N) : is_sep c = true -> is_colon c = false.
Proof.
  intros Hs. unfold is_colon. destruct (N.eqb_spec c 58) as [->|]; [|reflexivity].
  discriminate Hs.
Qed.

Lemma colon_not_emoji_unit (c : N) : is_colon c = true -> is_emoji_unit c = false.
Proof. unfold is_colon. intros E. apply N.eqb_eq in E. now subst c. Qed.

Lemma lower_unit_cases (c : N) :
  Utc.lower_unit c = c
  \/ ((65 <= c)%N /\ (c <= 90)%N /\ Utc.lower_unit c = (c + 32)%N).
Proof.
  unfold Utc.lower_unit.
  destruct (N.leb_spec 65 c), (N.leb_spec c 90); simpl; auto.
Qed.

Lemma letter_classes (c : N) :
  (65 <= c)%N -> (c <= 122)%N -> (c <= 90)%N \/ (97 <= c)%N ->
  is_sep c = false /\ is_colon c = false /\ is_emoji_unit c = true.
Proof.
  intros Hlo Hhi Hletter. split; [apply ascii_not_sep; lia|]. split.
  - unfold is_colon. apply N.eqb_neq. lia.
  - unfold is_emoji_unit, is_word.
    destruct Hletter as [Hu|Hl].
    + replace (65 <=? c)%N with true by (symmetry; apply N.leb_le; lia).
      replace (c <=? 90)%N with true by (symmetry; apply N.leb_le; lia).
      simpl. now rewrite orb_true_r.
    + replace (97 <=? c)%N with true by (symmetry; apply N.leb_le; lia).
      replace (c <=? 122)%N with true by (symmetry; apply N.leb_le; lia).
      reflexivity.
Qed.

Lemma lower_unit_sep (c : N) : is_sep (Utc.lower_unit c) = is_sep c.
Proof.
  destruct (lower_unit_cases c) as [->|(Hlo & Hhi & ->)]; [reflexivity|].
  destruct (letter_classes c) as (-> & _); [lia..|].
  destruct (letter_classes (c + 32)) as (-> & _); [lia..|]. reflexivity.
Qed.

Lemma lower_unit_colon (c : N) : is_colon (Utc.lower_unit c) = is_colon c.
Proof.
  destruct (lower_unit_cases c) as [->|(Hlo & Hhi & ->)]; [reflexivity|].
  destruct (letter_classes c) as (_ & -> & _); [lia..|].
  destruct (letter_classes (c + 32)) as (_ & -> & _); [lia..|]. reflexivity.
Qed.

Lemma lower_unit_emoji_unit (c : N) :
  is_emoji_unit (Utc.lower_unit c) = is_emoji_unit c.
Proof.
  destruct (lower_unit_cases c) as [->|(Hlo & Hhi & ->)]; [reflexivity|].
  destruct (letter_classes c) as (_ & _ & ->); [lia..|].
  destruct (letter_classes (c + 32)) as (_ & _ & ->); [lia..|]. reflexivity.
Qed.

(** *** The tokenisation pass splits at separator units *)

Lemma split_replace_pieces (s : jstring) :
  forall (in_run in_ws : bool) (cur : jstring),
    (in_run = true -> in_ws = true /\ cur = []) ->
    (in_run = false -> in_ws = false) ->
    List.filter longer_than_1 (split_ws_from cur in_ws (replace_sep_runs in_run s))
    = List.filter longer_than_1 (pieces_from cur s).
Proof.
  induction s as [|c r IH]; intros in_run in_ws cur Hrun Hno; simpl; [reflexivity|].
  destruct (is_sep c) eqn:Hsep.
  - destruct in_run.
    + destruct (Hrun eq_refl) as [-> ->]. simpl.
      apply IH; [auto | discriminate].
    + rewrite (Hno eq_refl). simpl.
      rewrite (IH true true []); [reflexivity | auto | discriminate].
  - simpl. replace (is_space c) with false.
    + apply IH; [discriminate | reflexivity].
    + destruct (is_space c) eqn:Hsp; [|reflexivity].
      apply is_space_is_sep in Hsp. congruence.
Qed.

Lemma pieces_from_app_sep (a b : jstring) (x : N) :
  is_sep x = true ->
  forall cur, pieces_from cur (a ++ x :: b) = pieces_from cur a ++ pieces_from [] b.
Proof.
  intros Hx. induction a as [|c a IH]; intros cur; simpl.
  - now rewrite Hx.
  - destruct (is_sep c); [now rewrite IH | apply IH].
Qed.

Lemma pieces_from_sep_free (a : jstring) :
  forallb (fun c => negb (is_sep c)) a = true ->
  forall cur, pieces_from cur a = [rev cur ++ a].
Proof.
  induction a as [|c a IH]; intros Hfree cur; simpl in *.
  - now rewrite app_nil_r.
  - apply andb_true_iff in Hfree as [Hc Ha]. apply negb_true_iff in Hc.
    rewrite Hc, IH by assumption. simpl. now rewrite <- app_assoc.
Qed.

Lemma split_at_first_sep (s : jstring) :
  forallb (fun c => negb (is_sep c)) s = true
  \/ exists a x b, s = a ++ x :: b
       /\ forallb (fun c => negb (is_sep c)) a = true /\ is_sep x = true.
Proof.
  induction s as [|c s IH]; [now left|].
  destruct (is_sep c) eqn:Hc.
  - right. exists [], c, s. auto.
  - destruct IH as [Hfree | (a & x & b & -> & Ha & Hx)].
    + left. simpl. now rewrite Hc.
    + right. exists (c :: a), x, b. repeat split; auto.
      simpl. now rewrite Hc.
Qed.

(** *** The emoji scan *)

Lemma matchEmojis_from_app_sep (a b : jstring) (x : N) :
  is_sep x = true ->
  forall st,
    matchEmojis_from st (a ++ x :: b) = matchEmojis_from st a ++ matchEmojis_from None b.
Proof.
  intros Hx. induction a as [|c a IH]; intros st; simpl.
  - rewrite (sep_not_colon x Hx), (sep_not_emoji_unit x Hx).
    now destruct st.
  - destruct st as [w|]; [|apply IH].
    destruct (is_emoji_unit c); [apply IH|].
    destruct (is_colon c); [|apply IH].
    destruct w; [apply IH|]. simpl. now rewrite IH.
Qed.

Lemma matchEmojis_from_run (w rest : jstring) :
  forallb is_emoji_unit w = true ->
  forall acc,
    rev acc ++ w <> [] ->
    matchEmojis_from (Some acc) (w ++ 58%N :: rest)
    = (58%N :: (rev acc ++ w) ++ [58%N]) :: matchEmojis_from None rest.
Proof.
  induction w as [|c w IH]; intros Hw acc Hne; simpl in *.
  - rewrite app_nil_r in *. destruct acc as [|a acc]; [now destruct Hne|].
    reflexivity.
  - apply andb_true_iff in Hw as [Hc Hw]. rewrite Hc.
    rewrite IH; [|assumption|].
    + simpl. now rewrite <- !app_assoc.
    + simpl. rewrite <- app_assoc. simpl. intros E.
      apply app_eq_nil in E as [_ E]. discriminate.
Qed.

Lemma emoji_key_shape (e : jstring) :
  re_emoji_key e = true ->
  exists w, e = 58%N :: w ++ [58%N] /\ w <> [] /\ forallb is_emoji_unit w = true.
Proof.
  destruct e as [|c r]; simpl; [discriminate|].
  intros E. apply andb_true_iff in E as [Hc E].
  unfold is_colon in Hc. apply N.eqb_eq in Hc. subst c.
  destruct (rev r) as [|c' m] eqn:Hr; [discriminate|].
  apply andb_true_iff in E as [Hc' E].
  unfold is_colon in Hc'. apply N.eqb_eq in Hc'. subst c'.
  destruct m as [|u m]; [discriminate|].
  exists (rev (u :: m)). split; [|split].
  - f_equal. rewrite <- (rev_involutive r), Hr. reflexivity.
  - simpl. intros E'. apply app_eq_nil in E' as [_ E']. discriminate.
  - rewrite forallb_forall in *. intros y Hy. apply E. now apply in_rev.
Qed.

Lemma matchEmojis_emoji_key (e : jstring) :
  re_emoji_key e = true -> matchEmojis e = [e].
Proof.
  intros He. destruct (emoji_key_shape e He) as (w & -> & Hne & Hw).
  unfold matchEmojis. simpl.
  rewrite (matchEmojis_from_run w [] Hw []); [reflexivity | exact Hne].
Qed.

(** *** Counting *)

Lemma occ_app (k : jstring) (l1 l2 : list jstring) :
  occ k (l1 ++ l2) = occ k l1 + occ k l2.
Proof. induction l1 as [|x l1 IH]; simpl; [reflexivity | rewrite IH; lia]. Qed.

Lemma occ_nonneg (k : jstring) (l : list jstring) : 0 <= occ k l.
Proof. induction l as [|x l IH]; simpl; [lia | destruct (jstring_eqb k x); lia]. Qed.

(** Every stand-alone piece that is an emoji key is also found by the
    scan. *)
Lemma pieces_le_matches_aux (e : jstring) (n : nat) :
  re_emoji_key e = true ->
  forall s, (length s <= n)%nat ->
    occ e (List.filter longer_than_1 (pieces s)) <= occ e (matchEmojis s).
Proof.
  intros He. induction n as [|n IH]; intros s Hlen.
  - destruct s; [|simpl in Hlen; lia]. simpl. destruct (jstring_eqb e []) eqn:E.
    + apply jstring_eqb_eq in E. subst e. discriminate He.
    + lia.
  - assert (Hfree : forall a, forallb (fun c => negb (is_sep c)) a = true ->
              occ e (List.filter longer_than_1 (pieces a)) <= occ e (matchEmojis a)).
    { intros a Ha. unfold pieces. rewrite (pieces_from_sep_free a Ha []). simpl.
      destruct (jstring_eqb e a) eqn:E.
      - apply jstring_eqb_eq in E. subst a.
        rewrite (matchEmojis_emoji_key e He). simpl. rewrite jstring_eqb_refl.
        destruct (longer_than_1 e); simpl; [rewrite jstring_eqb_refl|]; lia.
      - pose proof (occ_nonneg e (matchEmojis a)).
        destruct (longer_than_1 a); simpl; [rewrite E|]; lia. }
    destruct (split_at_first_sep s) as [Hs | (a & x & b & -> & Ha & Hx)].
    + now apply Hfree.
    + unfold pieces, matchEmojis.
      rewrite (pieces_from_app_sep a b x Hx), (matchEmojis_from_app_sep a b x Hx).
      rewrite List.filter_app, !occ_app.
      pose proof (Hfree a Ha) as H1.
      assert (H2 : occ e (List.filter longer_than_1 (pieces b)) <= occ e (matchEmojis b)).
      { apply IH. rewrite length_app in Hlen. simpl in Hlen. lia. }
      unfold pieces, matchEmojis in *. lia.
Qed.

Lemma pieces_le_matches (e s : jstring) :
  re_emoji_key e = true ->
  occ e (List.filter longer_than_1 (pieces s)) <= occ e (matchEmojis s).
Proof. intros He. now apply (pieces_le_matches_aux e (length s)). Qed.

Lemma matchEmojis_from_lower (s : jstring) :
  forall st,
    matchEmojis_from (map Utc.lower_unit <$> st) (map Utc.lower_unit s)
    = map (map Utc.lower_unit) (matchEmojis_from st s).
Proof.
  induction s as [|c s IH]; intros st; simpl; [reflexivity|].
  pose proof (IH None) as IHn. pose proof (fun w => IH (Some w)) as IHs.
  simpl in IHn, IHs.
  destruct st as [w|]; simpl.
  - rewrite lower_unit_emoji_unit, lower_unit_colon.
    destruct (is_emoji_unit c); [apply (IHs (c :: w))|].
    destruct (is_colon c) eqn:Hc; [|apply IHn].
    destruct w as [|u w]; simpl; [apply (IHs [])|].
    f_equal; [|exact IHn].
    rewrite !map_app, map_rev. reflexivity.
  - rewrite lower_unit_colon. destruct (is_colon c).
    + apply (IHs []).
    + apply IHn.
Qed.

Lemma emoji_match_ascii (w : jstring) :
  forallb is_emoji_unit w = true -> Forall is_ascii (58%N :: rev w ++ [58%N]).
Proof.
  intros Hw. constructor; [unfold is_ascii; lia|].
  apply Forall_app. split.
  - rewrite List.Forall_forall. intros y Hy. apply in_rev in Hy.
    rewrite forallb_forall in Hw. unfold is_ascii.
    apply emoji_unit_ascii. apply Hw. exact Hy.
  - repeat constructor.
Qed.

Lemma matchEmojis_from_ascii (s : jstring) :
  forall st,
    (forall w, st = Some w -> forallb is_emoji_unit w = true) ->
    Forall (Forall is_ascii) (matchEmojis_from st s).
Proof.
  induction s as [|c s IH]; intros st Hst; simpl; [constructor|].
  destruct st as [w|].
  - specialize (Hst w eq_refl).
    destruct (is_emoji_unit c) eqn:Hc.
    + apply IH. intros w' [= <-]. simpl. now rewrite Hc, Hst.
    + destruct (is_colon c).
      * destruct w as [|u w]; [apply IH; now intros w' [= <-]|].
        constructor; [|apply IH; discriminate].
        now apply (emoji_match_ascii (u :: w)).
      * apply IH. discriminate.
  - apply IH. destruct (is_colon c); [now intros w' [= <-] | discriminate].
Qed.

Lemma lookup_by_upsert {V} (k k' : jstring) (f : option V -> V) (l : list (jstring * V)) :
  lookup_by jstring_eqb k (upsert jstring_eqb k' f l)
  = if jstring_eqb k k' then Some (f (lookup_by jstring_eqb k' l))
    else lookup_by jstring_eqb k l.
Proof.
  induction l as [|[k0 v] l IH]; simpl.
  - destruct (jstring_eqb k k'); reflexivity.
  - destruct (jstring_eqb k' k0) eqn:E0; simpl.
    + apply jstring_eqb_eq in E0. subst k0.
      destruct (jstring_eqb k k'); reflexivity.
    + rewrite IH. destruct (jstring_eqb k k') eqn:E; [|reflexivity].
      apply jstring_eqb_eq in E. subst k'. now rewrite E0.
Qed.

Lemma count_of_bump (k k' : jstring) (l : list (jstring * Z)) :
  count_of k (bump jstring_eqb k' l)
  = count_of k l + (if jstring_eqb k k' then 1 else 0).
Proof.
  unfold count_of, bump. rewrite lookup_by_upsert.
  destruct (jstring_eqb k k') eqn:E; simpl; [|lia].
  apply jstring_eqb_eq in E. now subst k'.
Qed.

Lemma upsert_keys {V} (k x : jstring) (f : option V -> V) (l : list (jstring * V)) :
  In x (map fst (upsert jstring_eqb k f l)) -> In x (map fst l) \/ x = k.
Proof.
  induction l as [|[k0 v] l IH]; simpl.
  - intros [<-|[]]. now right.
  - destruct (jstring_eqb k k0); simpl; intros [E|E]; auto.
    destruct (IH E); auto.
Qed.

Lemma upsert_keys_NoDup {V} (k : jstring) (f : option V -> V) (l : list (jstring * V)) :
  NoDup (map fst l) -> NoDup (map fst (upsert jstring_eqb k f l)).
Proof.
  induction l as [|[k0 v] l IH]; simpl; intros Hnd.
  - repeat constructor. intros E. inversion E.
  - apply NoDup_cons in Hnd as [Hk0 Hnd].
    destruct (jstring_eqb k k0) eqn:E; simpl.
    + apply NoDup_cons. split; assumption.
    + apply NoDup_cons. split; [|now apply IH].
      intros Hin. apply list_elem_of_In in Hin.
      apply upsert_keys in Hin as [Hin| ->].
      * apply Hk0. now apply list_elem_of_In.
      * now rewrite jstring_eqb_refl in E.
Qed.

Lemma lookup_by_unique {V} (k : jstring) (v : V) (l : list (jstring * V)) :
  NoDup (map fst l) -> In (k, v) l -> lookup_by jstring_eqb k l = Some v.
Proof.
  induction l as [|[k0 v0] l IH]; simpl; intros Hnd Hin; [contradiction|].
  apply NoDup_cons in Hnd as [Hk0 Hnd].
  destruct Hin as [[= -> ->]|Hin].
  - now rewrite jstring_eqb_refl.
  - destruct (jstring_eqb k k0) eqn:E; [|now apply IH].
    apply jstring_eqb_eq in E. subst k0. exfalso. apply Hk0.
    apply list_elem_of_In. apply in_map_iff. exists (k, v). auto.
Qed.

Lemma in_take {A} (x : A) (n : nat) (l : list A) : In x (take n l) -> In x l.
Proof.
  revert l. induction n as [|n IH]; intros [|a l]; simpl; try contradiction.
  intros [E|E]; [now left | right; now apply IH].
Qed.

Lemma emoji_key_not_stopword (e : jstring) :
  re_emoji_key e = true -> is_stopword e = false.
Proof.
  destruct e as [|c r]; simpl; [discriminate|].
  intros E. apply andb_true_iff in E as [Hc _].
  unfold is_colon in Hc. apply N.eqb_eq in Hc. subst c. reflexivity.
Qed.

Section EmojiCounts.
Context `{Host}.

Lemma count_words_count (e : jstring) (ws : list jstring) :
  is_stopword e = false ->
  forall wc, count_of e (count_words ws wc) = count_of e wc + occ e ws.
Proof.
  intros He. unfold count_words.
  induction ws as [|w ws IH]; intros wc; simpl; [lia|].
  rewrite IH. destruct (is_stopword w) eqn:Hw.
  - destruct (jstring_eqb e w) eqn:E; [|lia].
    apply jstring_eqb_eq in E. congruence.
  - rewrite count_of_bump. lia.
Qed.

Lemma count_words_NoDup (ws : list jstring) :
  forall wc, NoDup (map fst wc) -> NoDup (map fst (count_words ws wc)).
Proof.
  unfold count_words. induction ws as [|w ws IH]; intros wc Hnd; simpl; [assumption|].
  apply IH. destruct (is_stopword w); [assumption|].
  now apply upsert_keys_NoDup.
Qed.

Lemma count_emojis_count (e : jstring) (es : list jstring) :
  forall wc,
    count_of e (count_emojis es wc) = count_of e wc + occ e (map toLowerCase es).
Proof.
  unfold count_emojis.
  induction es as [|x es IH]; intros wc; simpl; [lia|].
  rewrite IH, count_of_bump. lia.
Qed.

Lemma count_emojis_NoDup (es : list jstring) :
  forall wc, NoDup (map fst wc) -> NoDup (map fst (count_emojis es wc)).
Proof.
  unfold count_emojis. induction es as [|x es IH]; intros wc Hnd; simpl; [assumption|].
  apply IH. now apply upsert_keys_NoDup.
Qed.

(** One message adds to the entry of an emoji key one unit for each token
    equal to the key and one unit for each match of the pattern. *)
Lemma summarize_step_count (result : ParseResult) (e : jstring) (acc : Acc)
    (m : Message) :
  re_emoji_key e = true ->
  count_of e (acc_wordCounts (summarize_step result acc m))
  = count_of e (acc_wordCounts acc)
    + (token_occurrences e (contents m) + emoji_matches e (contents m)).
Proof.
  intros He. cbn [summarize_step acc_wordCounts].
  rewrite count_emojis_count, count_words_count
    by now apply emoji_key_not_stopword.
  unfold token_occurrences, emoji_matches. lia.
Qed.

Lemma summarize_count (result : ParseResult) (e : jstring) (ms : list Message) :
  re_emoji_key e = true ->
  forall acc,
    count_of e (acc_wordCounts (foldl (summarize_step result) acc ms))
    = count_of e (acc_wordCounts acc)
      + total_over (fun m => token_occurrences e (contents m)
                             + emoji_matches e (contents m)) ms.
Proof.
  intros He. induction ms as [|m ms IH]; intros acc; simpl; [lia|].
  rewrite IH, summarize_step_count by assumption. lia.
Qed.

Lemma summarize_NoDup (result : ParseResult) (ms : list Message) :
  forall acc,
    NoDup (map fst (acc_wordCounts acc)) ->
    NoDup (map fst (acc_wordCounts (foldl (summarize_step result) acc ms))).
Proof.
  induction ms as [|m ms IH]; intros acc Hnd; simpl; [assumption|].
  apply IH. cbn [summarize_step acc_wordCounts].
  now apply count_emojis_NoDup, count_words_NoDup.
Qed.

Lemma map_lower_ascii (l : list jstring) :
  (forall s, Forall is_ascii s -> toLowerCase s = map Utc.lower_unit s) ->
  Forall (Forall is_ascii) l ->
  map (map Utc.lower_unit) l = map toLowerCase l.
Proof.
  intros Hlower. induction 1 as [|x l Hx Hl IH]; simpl; [reflexivity|].
  now rewrite IH, (Hlower x Hx).
Qed.

(** With ASCII case mapping, a token equal to an emoji key is a stand-alone
    piece of the text, which the scan finds as well. *)
Lemma tokens_le_matches (e text : jstring) :
  re_emoji_key e = true ->
  (forall s, Forall is_ascii s -> toLowerCase s = map Utc.lower_unit s) ->
  Forall is_ascii text ->
  token_occurrences e text <= emoji_matches e text.
Proof.
  intros He Hlower Htext. unfold token_occurrences, emoji_matches, tokenize.
  rewrite (Hlower text Htext).
  change (fun w : jstring => (1 <? length w)%nat) with longer_than_1.
  unfold split_ws.
  rewrite (split_replace_pieces _ false false []) by (intros; auto; discriminate).
  replace (map toLowerCase (matchEmojis text))
    with (matchEmojis (map Utc.lower_unit text)).
  - now apply pieces_le_matches.
  - unfold matchEmojis.
    pose proof (matchEmojis_from_lower text None) as Hl. simpl in Hl.
    etransitivity; [exact Hl|]. clear Hl.
    apply map_lower_ascii; [exact Hlower|].
    apply matchEmojis_from_ascii. discriminate.
Qed.

Lemma total_over_plus {A} (f g : A -> Z) (l : list A) :
  total_over (fun a => f a + g a) l = total_over f l + total_over g l.
Proof. induction l as [|a l IH]; simpl; [reflexivity | rewrite IH; lia]. Qed.

Lemma total_over_le {A} (f g : A -> Z) (l : list A) :
  Forall (fun a => f a <= g a) l -> total_over f l <= total_over g l.
Proof. induction 1 as [|a l Ha Hl IH]; simpl; lia. Qed.

Lemma topEmojis_entry (result : ParseResult) (e : jstring) (n : Z) :
  In (e, n) (topEmojis (Summary.stats (buildSummary result))) ->
  re_emoji_key e = true
  /\ n = count_of e
           (acc_wordCounts
              (foldl (summarize_step result) initial_acc
                 (List.filter has_valid_timestamp (messages result)))).
Proof.
  cbn [buildSummary Summary.stats topEmojis]. intros Hin.
  apply in_take, in_sort_by, filter_In in Hin as [Hin He].
  split; [exact He|].
  unfold count_of. erewrite lookup_by_unique; [reflexivity| |exact Hin].
  apply summarize_NoDup. constructor.
Qed.

(** C10, as the code has it: the count that [topEmojis] reports for an
    emoji key is the number of tokens equal to the key (its stand-alone
    occurrences, counted by the tokenisation pass) plus the number of matches
    of the emoji pattern (counted by the scan, which also finds the
    occurrences inside longer tokens), over the messages with a valid
    timestamp; each message adds exactly these two numbers to the entry.
    With ASCII contents every stand-alone occurrence is also a match, so the
    count is at least double the number of stand-alone occurrences. *)
Theorem emoji_count_tokens_plus_matches (result : ParseResult) (e : jstring) (n : Z) :
  In (e, n) (topEmojis (Summary.stats (buildSummary result))) ->
  let ms := List.filter has_valid_timestamp (messages result) in
  n = total_over (fun m => token_occurrences e (contents m)) ms
      + total_over (fun m => emoji_matches e (contents m)) ms
  /\ (forall acc m,
        count_of e (acc_wordCounts (summarize_step result acc m))
        = count_of e (acc_wordCounts acc)
          + (token_occurrences e (contents m) + emoji_matches e (contents m)))
  /\ ((forall s, Forall is_ascii s -> toLowerCase s = map Utc.lower_unit s) ->
      Forall (fun m => Forall is_ascii (contents m)) ms ->
      2 * total_over (fun m => token_occurrences e (contents m)) ms <= n).
Proof.
  intros Hin ms. apply topEmojis_entry in Hin as [He ->]. fold ms.
  rewrite (summarize_count result e ms He initial_acc), total_over_plus.
  change (count_of e (acc_wordCounts initial_acc)) with 0.
  split; [lia|]. split.
  - intros acc m. now apply summarize_step_count.
  - intros Hlower Hascii.
    enough (total_over (fun m => token_occurrences e (contents m)) ms
            <= total_over (fun m => emoji_matches e (contents m)) ms) by lia.
    apply total_over_le. eapply Forall_impl; [exact Hascii|].
    intros m Hm. now apply tokens_le_matches.
Qed.

End EmojiCounts.

Lemma emoji_count_tokens_plus_matches_example :
  token_occurrences (H := Utc.host) (lit ":smile:") (contents smile_message) = 1
  /\ emoji_matches (H := Utc.host) (lit ":smile:") (contents smile_message) = 2
  /\ 3 = total_over
           (fun m => token_occurrences (H := Utc.host) (lit ":smile:") (contents m))
           (List.filter has_valid_timestamp (messages smile_result))
         + total_over
             (fun m => emoji_matches (H := Utc.host) (lit ":smile:") (contents m))
             (List.filter has_valid_timestamp (messages smile_result))
  /\ 2 * total_over
           (fun m => token_occurrences (H := Utc.host) (lit ":smile:") (contents m))
           (List.filter has_valid_timestamp (messages smile_result)) <= 3.
Proof.
  split; [vm_compute; reflexivity|]. split; [vm_compute; reflexivity|].
  destruct (emoji_count_tokens_plus_matches (H := Utc.host) smile_result
              (lit ":smile:") 3) as (Hsum & _ & Hdouble).
  { vm_compute. left. reflexivity. }
  split; [exact Hsum|].
  apply Hdouble.
  - intros s _. reflexivity.
  - repeat constructor.
Defined.

(** C10 as stated fails when the emoji also occurs inside a longer token:
    [:smile:] stands alone once in the only message of this export, and
    [topEmojis] reports 3 for it, not 2. *)
Lemma emoji_count_not_double :
  topEmojis (Summary.stats (fst (parseZip (H := Utc.host) smile_export)))
  = [(lit ":smile:", 3)]
  /\ tokenize (H := Utc.host) (lit ":smile: x:smile:")
     = [lit ":smile:"; lit "x:smile:"]
  /\ token_occurrences (H := Utc.host) (lit ":smile:") (lit ":smile: x:smile:") = 1.
Proof. repeat split; vm_compute; reflexivity. Qed.

(** * Further properties of the code *)

(** ** The ID-shape heuristic *)

(** X1: the second alternative of [looksLikeId] ([s.length > 16] and
    all digits) never decides: a string of seventeen digits or more matches
    the first pattern already, so the predicate is the test of
    [^[c~]?\d{15,}$] on the trimmed string. *)
Theorem looksLikeId_second_alternative_subsumed (s : jstring) :
  looksLikeId (Some s) = re_prefixed_id (trim s).
Proof.
  unfold looksLikeId. set (t := trim s).
  destruct (re_prefixed_id t) eqn:E1; [reflexivity|]. simpl.
  destruct ((16 <? length t)%nat && re_all_digits t) eqn:E2; [|reflexivity].
  apply andb_true_iff in E2 as [Hlen Hd]. apply Nat.ltb_lt in Hlen.
  apply digits_at_least_spec in Hd as [_ Hd].
  destruct t as [|c r]; [simpl in Hlen; lia|].
  simpl in E1. rewrite digit_is_no_prefix in E1 by now inversion Hd.
  rewrite <- E1. symmetry. apply digits_at_least_spec. split; [lia | exact Hd].
Qed.

(** ** Channel metadata *)

Lemma nullish_coalesce_r (a b : option json) :
  nullish b = false -> nullish (a ?? b) = false.
Proof. intros Hb. unfold coalesce. destruct (nullish a) eqn:E; assumption. Qed.

Lemma coalesce_nullish_l (a b : option json) :
  nullish a = true -> a ?? b = b.
Proof. intros Ha. unfold coalesce. now rewrite Ha. Qed.


Section Metadata.
Context `{Host}.

Lemma text_not_nullish (v : option json) :
  nullish v = false -> exists s, text v = Some s.
Proof. destruct v as [[]|]; try discriminate; intros _; eexists; reflexivity. Qed.

Ltac split_meta E :=
  repeat (match type of E with
          | (if ?c then _ else _) = _ => destruct c eqn:?
          | (match ?a with _ => _ end) = _ => destruct a eqn:?
          end; try discriminate E).

(** X2: the metadata that [normalizeChannelMeta] returns always names
    the channel, and the name is [Unknown] when the object has none of the
    name fields and no recipient. *)
Theorem normalizeChannelMeta_names_channel (data : json) (meta : Meta.t) :
  normalizeChannelMeta data = Ok meta ->
  (exists n, Meta.channelName meta = Some n)
  /\ (Forall (fun k => nullish (prop data k) = true)
        ["Channel Name"; "channel_name"; "ChannelName"; "Name"; "name"; "display_name";
         "Recipients"; "recipients"; "User IDs"]%string ->
      Meta.channelName meta = Some (lit "Unknown")).
Proof.
  unfold normalizeChannelMeta. intros E.
  destruct data as [|b|n|s|l|fs]; [discriminate E|..]; cbv zeta in E.
  all: split_meta E; injection E as <-; cbn [Meta.channelName].
  all: split;
    [first [apply text_not_nullish; repeat apply nullish_coalesce_r; reflexivity
           | eexists; reflexivity]|].
  all: intros Hk; repeat (apply Forall_cons_1 in Hk as [? Hk]).
  all: cbn [prop] in *.
  all: repeat match goal with
             | Hn : nullish ?a = true |- context [?a ?? ?b] =>
                 rewrite (coalesce_nullish_l a b Hn)
             end.
  all: try reflexivity.
  all: match goal with
       | Hn : nullish ?a = true |- context [match ?a with _ => _ end] =>
           destruct a as [[]|]; try discriminate Hn; reflexivity
       end.
Qed.


End Metadata.

Lemma normalizeChannelMeta_names_channel_example :
  exists meta,
    normalizeChannelMeta (H := Utc.host) (obj [("Channel ID", jstr "7")]%string) = Ok meta
    /\ Meta.channelName meta = Some (lit "Unknown").
Proof.
  eexists. split; [reflexivity|].
  apply (normalizeChannelMeta_names_channel (H := Utc.host)
           (obj [("Channel ID", jstr "7")]%string) _ eq_refl).
  repeat constructor.
Defined.






Section MetaErrors.
Context `{Host}.


End MetaErrors.

(** ** Tokens *)

Lemma pieces_from_pieces (s : jstring) :
  forall cur p,
    Forall (fun c => is_sep c = false) cur ->
    In p (pieces_from cur s) ->
    Forall (fun c => is_sep c = false) p
    /\ exists a b, rev cur ++ s = a ++ p ++ b.
Proof.
  induction s as [|c s IH]; intros cur p Hcur Hp; simpl in Hp.
  - destruct Hp as [<-|[]]. split.
    + apply Forall_rev. exact Hcur.
    + exists [], []. now rewrite !app_nil_r.
  - destruct (is_sep c) eqn:Hc.
    + destruct Hp as [<-|Hp].
      * split; [apply Forall_rev; exact Hcur|].
        exists [], (c :: s). reflexivity.
      * destruct (IH [] p (List.Forall_nil _) Hp) as (Hfree & a & b & E).
        split; [exact Hfree|]. simpl in E.
        exists (rev cur ++ c :: a), b. rewrite E, <- app_assoc. reflexivity.
    + destruct (IH (c :: cur) p) as (Hfree & a & b & E); [now constructor | exact Hp |].
      split; [exact Hfree|]. exists a, b. rewrite <- E. simpl.
      now rewrite <- app_assoc.
Qed.

Section Tokens.
Context `{Host}.

Lemma tokenize_pieces (text : jstring) :
  tokenize text = List.filter longer_than_1 (pieces (toLowerCase text)).
Proof.
  unfold tokenize, split_ws, pieces.
  apply (split_replace_pieces (toLowerCase text) false false []); [discriminate | reflexivity].
Qed.

Lemma tokenize_token_length (text w : jstring) :
  In w (tokenize text) -> (2 <= length w)%nat.
Proof.
  rewrite tokenize_pieces. intros Hw. apply filter_In in Hw as [_ Hlen].
  unfold longer_than_1 in Hlen. apply Nat.ltb_lt in Hlen. lia.
Qed.

(** X5: a token of [tokenize] has at least two units, holds no white
    space and no zero-width separator, and is a piece of the lower-cased
    text. *)
Theorem tokenize_tokens (text w : jstring) :
  In w (tokenize text) ->
  (2 <= length w)%nat
  /\ Forall (fun c => is_sep c = false) w
  /\ exists a b, toLowerCase text = a ++ w ++ b.
Proof.
  rewrite tokenize_pieces. intros Hw. apply filter_In in Hw as [Hw Hlen].
  unfold longer_than_1 in Hlen. apply Nat.ltb_lt in Hlen.
  split; [lia|].
  apply (pieces_from_pieces (toLowerCase text) [] w (List.Forall_nil _)) in Hw.
  exact Hw.
Qed.

End Tokens.

Lemma tokenize_tokens_example :
  In (lit "hello") (tokenize (H := Utc.host) (lit "Hello   big World"))
  /\ (2 <= length (lit "hello"))%nat
  /\ Forall (fun c => is_sep c = false) (lit "hello").
Proof.
  assert (Hin : In (lit "hello") (tokenize (H := Utc.host) (lit "Hello   big World"))).
  { vm_compute. left. reflexivity. }
  split; [exact Hin|].
  destruct (tokenize_tokens (H := Utc.host) _ _ Hin) as (Hlen & Hsep & _).
  split; [exact Hlen | exact Hsep].
Defined.

(** ** Sums, sorting and insertion-ordered maps *)

Lemma total_over_app {A} (f : A -> Z) (l1 l2 : list A) :
  total_over f (l1 ++ l2) = total_over f l1 + total_over f l2.
Proof. unfold total_over. induction l1 as [|a l1 IH]; simpl; lia. Qed.

Lemma total_over_map {A B} (f : B -> Z) (g : A -> B) (l : list A) :
  total_over f (map g l) = total_over (fun a => f (g a)) l.
Proof. unfold total_over. induction l as [|a l IH]; simpl; congruence. Qed.

Lemma total_over_length {A} (l : list A) :
  total_over (fun _ => 1) l = Z.of_nat (length l).
Proof. unfold total_over. induction l as [|a l IH]; simpl length; simpl foldr; lia. Qed.

Lemma insert_by_Permutation {A} (cmp : A -> A -> Z) (x : A) (l : list A) :
  Permutation (insert_by cmp x l) (x :: l).
Proof.
  induction l as [|y l IH]; simpl; [reflexivity|].
  destruct (cmp x y <=? 0); [reflexivity|].
  rewrite IH. apply perm_swap.
Qed.

Lemma sort_by_Permutation {A} (cmp : A -> A -> Z) (l : list A) :
  Permutation (sort_by cmp l) l.
Proof.
  unfold sort_by. induction l as [|a l IH]; simpl; [reflexivity|].
  rewrite insert_by_Permutation. now constructor.
Qed.

Lemma total_over_Permutation {A} (f : A -> Z) (l l' : list A) :
  Permutation l l' -> total_over f l = total_over f l'.
Proof. unfold total_over. induction 1; simpl; lia. Qed.

Lemma total_over_sort_by {A} (f : A -> Z) (cmp : A -> A -> Z) (l : list A) :
  total_over f (sort_by cmp l) = total_over f l.
Proof. apply total_over_Permutation, sort_by_Permutation. Qed.

(** A comparator that orders by a key: the sort puts the keys in order. *)
Lemma insert_by_sorted {A} (R : A -> A -> Prop) (cmp : A -> A -> Z) (x : A) (l : list A) :
  (forall a b c, R a b -> R b c -> R a c) ->
  (forall a b, cmp a b <= 0 -> R a b) ->
  (forall a b, 0 < cmp a b -> R b a) ->
  StronglySorted R l -> StronglySorted R (insert_by cmp x l).
Proof.
  intros Htrans Hle Hgt. induction 1 as [|y l Hl IH Hy]; simpl.
  - repeat constructor.
  - destruct (Z.leb_spec (cmp x y) 0) as [Hc|Hc].
    + constructor; [now constructor|].
      constructor; [now apply Hle|].
      eapply Forall_impl; [exact Hy|]. intros z Hz. eapply Htrans; [|exact Hz]. now apply Hle.
    + constructor; [exact IH|].
      rewrite List.Forall_forall. intros z Hz. apply in_insert_by in Hz as [->|Hz].
      * now apply Hgt.
      * rewrite List.Forall_forall in Hy. now apply Hy.
Qed.

Lemma sort_by_sorted {A} (R : A -> A -> Prop) (cmp : A -> A -> Z) (l : list A) :
  (forall a b c, R a b -> R b c -> R a c) ->
  (forall a b, cmp a b <= 0 -> R a b) ->
  (forall a b, 0 < cmp a b -> R b a) ->
  StronglySorted R (sort_by cmp l).
Proof.
  intros Htrans Hle Hgt. unfold sort_by. induction l as [|a l IH]; simpl.
  - constructor.
  - now apply insert_by_sorted.
Qed.

(** Sorting a list that is in order already leaves it as it is. *)
Lemma sort_by_sorted_id {A} (cmp : A -> A -> Z) (l : list A) :
  StronglySorted (fun a b => cmp a b <= 0) l -> sort_by cmp l = l.
Proof.
  unfold sort_by. induction 1 as [|a l Hl IH Ha]; simpl; [reflexivity|].
  rewrite IH. destruct l as [|b l]; [reflexivity|]. simpl.
  inversion Ha as [|? ? Hab _]; subst.
  destruct (Z.leb_spec (cmp a b) 0); [reflexivity | lia].
Qed.

Lemma StronglySorted_take {A} (R : A -> A -> Prop) (n : nat) (l : list A) :
  StronglySorted R l -> StronglySorted R (take n l).
Proof.
  intros Hl. revert n. induction Hl as [|a l Hl IH Ha]; intros [|n]; simpl; try constructor.
  - apply IH.
  - rewrite List.Forall_forall in *. intros x Hx. apply Ha. eapply in_take; exact Hx.
Qed.

Lemma StronglySorted_filter' {A} (R : A -> A -> Prop) (p : A -> bool) (l : list A) :
  StronglySorted R l -> StronglySorted R (List.filter p l).
Proof.
  induction 1 as [|a l Hl IH Ha]; simpl; [constructor|].
  destruct (p a); [|exact IH]. constructor; [exact IH|].
  rewrite List.Forall_forall in *. intros x Hx. apply filter_In in Hx as [Hx _]. now apply Ha.
Qed.

Section Upsert.
Context {K V : Type} (eqb : K -> K -> bool).
Hypothesis eqb_eq : forall a b, eqb a b = true <-> a = b.

Lemma total_over_upsert (w : V -> Z) (k : K) (g : option V -> V) (l : list (K * V)) :
  (forall v, w (g (Some v)) = w v + 1) -> w (g None) = 1 ->
  total_over (fun kv => w (snd kv)) (upsert eqb k g l)
  = total_over (fun kv => w (snd kv)) l + 1.
Proof.
  intros Hsome Hnone. unfold total_over.
  induction l as [|[k' v] l IH]; simpl; [lia|].
  destruct (eqb k k'); simpl; [rewrite Hsome|]; lia.
Qed.

Lemma upsert_map_fst_present (k : K) (g : option V -> V) (l : list (K * V)) :
  In k (map fst l) -> map fst (upsert eqb k g l) = map fst l.
Proof.
  induction l as [|[k' v] l IH]; simpl; [intros []|].
  destruct (eqb k k') eqn:E; [reflexivity|]. simpl.
  intros [->|Hin].
  - assert (eqb k k = true) by now apply eqb_eq. congruence.
  - now rewrite IH.
Qed.

Lemma upsert_map_fst (k : K) (g : option V -> V) (l : list (K * V)) :
  map fst (upsert eqb k g l) = map fst l ++ (if existsb (eqb k) (map fst l) then [] else [k]).
Proof.
  induction l as [|[k' v] l IH]; simpl; [reflexivity|].
  destruct (eqb k k') eqn:E; simpl.
  - now rewrite app_nil_r.
  - now rewrite IH.
Qed.

Lemma upsert_NoDup (k : K) (g : option V -> V) (l : list (K * V)) :
  NoDup (map fst l) -> NoDup (map fst (upsert eqb k g l)).
Proof.
  intros Hl. rewrite upsert_map_fst.
  destruct (existsb (eqb k) (map fst l)) eqn:E; [now rewrite app_nil_r|].
  apply NoDup_app. split; [exact Hl|]. split; [|apply NoDup_singleton].
  intros x Hx Hk. apply list_elem_of_In in Hx. apply list_elem_of_In in Hk.
  destruct Hk as [Hk|[]]. subst x.
  assert (existsb (eqb k) (map fst l) = true); [|congruence].
  apply existsb_exists. exists k. split; [exact Hx | now apply eqb_eq].
Qed.

Lemma lookup_by_upsert_gen (k k' : K) (g : option V -> V) (l : list (K * V)) :
  lookup_by eqb k (upsert eqb k' g l)
  = if eqb k k' then Some (g (lookup_by eqb k' l)) else lookup_by eqb k l.
Proof.
  induction l as [|[k0 v] l IH]; simpl.
  - destruct (eqb k k'); reflexivity.
  - destruct (eqb k' k0) eqn:E0; simpl.
    + apply eqb_eq in E0. subst k0. destruct (eqb k k'); reflexivity.
    + rewrite IH. destruct (eqb k k0) eqn:E1; [|reflexivity].
      apply eqb_eq in E1. subst k0.
      destruct (eqb k k') eqn:E2; [|reflexivity].
      apply eqb_eq in E2. subst k'.
      assert (eqb k k = true) by now apply eqb_eq. congruence.
Qed.

End Upsert.

(** ** The counters of a summary *)

Lemma getLocalDateKey_nonempty `{Host} (d : Date) (t : Z) :
  getTime d = Some t -> exists c k, getLocalDateKey (Some d) = Some (c :: k).
Proof.
  intros E. unfold getLocalDateKey. rewrite E.
  destruct (Number_toString (getFullYear t)) as [|c k]; simpl; eauto.
Qed.

Lemma has_valid_timestamp_time (m : Message) :
  has_valid_timestamp m = true ->
  exists d t, timestamp m = Some d /\ getTime d = Some t.
Proof.
  unfold has_valid_timestamp. destruct (timestamp m) as [d|]; [|discriminate].
  destruct (getTime d) as [t|] eqn:E; [|discriminate]. eauto.
Qed.

Section Totals.
Context `{Host}.

(** What one message adds to the counters and to the sums of the tables. *)
Lemma summarize_step_totals (result : ParseResult) (acc : Acc) (m : Message) :
  has_valid_timestamp m = true ->
  let acc' := summarize_step result acc m in
  acc_totalWords acc' = acc_totalWords acc + Z.of_nat (length (tokenize (contents m)))
  /\ acc_attachmentCount acc' = acc_attachmentCount acc + Z.of_nat (length (attachments m))
  /\ total_over (fun kv => ChannelRow.count (snd kv)) (acc_byChannel acc')
     = total_over (fun kv => ChannelRow.count (snd kv)) (acc_byChannel acc) + 1
  /\ total_over (fun kv => GuildRow.count (snd kv)) (acc_byGuild acc')
     = total_over (fun kv => GuildRow.count (snd kv)) (acc_byGuild acc)
       + (if nonempty (guildId m) then 1 else 0)
  /\ total_over (fun kv => snd kv) (acc_byDay acc')
     = total_over (fun kv => snd kv) (acc_byDay acc) + 1
  /\ total_over (fun kv => snd kv) (acc_byHour acc')
     = total_over (fun kv => snd kv) (acc_byHour acc) + 1
  /\ total_over (fun kv => snd kv) (acc_byDayOfWeek acc')
     = total_over (fun kv => snd kv) (acc_byDayOfWeek acc) + 1.
Proof.
  intros Hv acc'.
  destruct (has_valid_timestamp_time m Hv) as (d & t & Ets & Et).
  destruct (getLocalDateKey_nonempty d t Et) as (c & k & Ek).
  unfold acc', summarize_step. cbn [acc_totalWords acc_attachmentCount acc_byChannel
    acc_byGuild acc_byDay acc_byHour acc_byDayOfWeek].
  rewrite Ets. cbn [mbind option_bind]. rewrite Ek, Et.
  repeat split.
  - apply (total_over_upsert jstring_eqb ChannelRow.count).
    + intros v. reflexivity.
    + reflexivity.
  - destruct (guildId m) as [[|g0 g]|]; simpl; try lia.
    apply (total_over_upsert jstring_eqb GuildRow.count).
    + intros v. reflexivity.
    + reflexivity.
  - apply (total_over_upsert jstring_eqb (fun n => n)); [intros v|]; simpl; lia.
  - apply (total_over_upsert Z.eqb (fun n => n)); [intros v|]; simpl; lia.
  - apply (total_over_upsert Z.eqb (fun n => n)); [intros v|]; simpl; lia.
Qed.

Lemma summarize_totals (result : ParseResult) (ms : list Message) :
  Forall (fun m => has_valid_timestamp m = true) ms ->
  forall acc,
    let acc' := foldl (summarize_step result) acc ms in
    acc_totalWords acc'
    = acc_totalWords acc
      + total_over (fun m => Z.of_nat (length (tokenize (contents m)))) ms
    /\ acc_attachmentCount acc'
       = acc_attachmentCount acc
         + total_over (fun m => Z.of_nat (length (attachments m))) ms
    /\ total_over (fun kv => ChannelRow.count (snd kv)) (acc_byChannel acc')
       = total_over (fun kv => ChannelRow.count (snd kv)) (acc_byChannel acc)
         + Z.of_nat (length ms)
    /\ total_over (fun kv => GuildRow.count (snd kv)) (acc_byGuild acc')
       = total_over (fun kv => GuildRow.count (snd kv)) (acc_byGuild acc)
         + total_over (fun m => if nonempty (guildId m) then 1 else 0) ms
    /\ total_over (fun kv => snd kv) (acc_byDay acc')
       = total_over (fun kv => snd kv) (acc_byDay acc) + Z.of_nat (length ms)
    /\ total_over (fun kv => snd kv) (acc_byHour acc')
       = total_over (fun kv => snd kv) (acc_byHour acc) + Z.of_nat (length ms)
    /\ total_over (fun kv => snd kv) (acc_byDayOfWeek acc')
       = total_over (fun kv => snd kv) (acc_byDayOfWeek acc) + Z.of_nat (length ms).
Proof.
  induction 1 as [|m ms Hm Hms IH]; intros acc.
  - simpl. unfold total_over. simpl. repeat split; lia.
  - cbn [foldl]. cbv zeta.
    destruct (IH (summarize_step result acc m)) as (E1 & E2 & E3 & E4 & E5 & E6 & E7).
    destruct (summarize_step_totals result acc m Hm) as (F1 & F2 & F3 & F4 & F5 & F6 & F7).
    rewrite E1, E2, E3, E4, E5, E6, E7, F1, F2, F3, F4, F5, F6, F7.
    unfold total_over. cbn [foldr length]. repeat split; lia.
Qed.

Lemma kept_messages_valid (result : ParseResult) :
  Forall (fun m => has_valid_timestamp m = true)
    (List.filter has_valid_timestamp (messages result)).
Proof.
  rewrite List.Forall_forall. intros m Hm. now apply filter_In in Hm as [_ Hm].
Qed.

Lemma total_over_zero_buckets (n : nat) :
  total_over (fun kv : Z * Z => snd kv) (zero_buckets n) = 0.
Proof.
  unfold zero_buckets. rewrite total_over_map. simpl.
  unfold total_over. induction (seq 0 n); simpl; lia.
Qed.

(** X6: the counters of a summary are sums over the messages it keeps
    (those with a valid timestamp), and every table accounts for each kept
    message once: the counts of [byChannel], [byDay], [byHour] and
    [byDayOfWeek] each add up to [totalMessages], those of [byGuild] to the
    number of kept messages that have a guild ID. *)
Theorem summary_totals (result : ParseResult) :
  let kept := Summary.messages (buildSummary result) in
  let s := Summary.stats (buildSummary result) in
  (kept = List.filter has_valid_timestamp (messages result)
   /\ totalMessages s = Z.of_nat (length kept)
   /\ totalWords s = total_over (fun m => Z.of_nat (length (tokenize (contents m)))) kept
   /\ attachmentCount s = total_over (fun m => Z.of_nat (length (attachments m))) kept)
  /\ (total_over ChannelRow.count (byChannel s) = totalMessages s
      /\ total_over (fun kv => snd kv) (byDay s) = totalMessages s
      /\ total_over (fun kv => snd kv) (byHour s) = totalMessages s
      /\ total_over (fun kv => snd kv) (byDayOfWeek s) = totalMessages s
      /\ total_over GuildRow.count (byGuild s)
         = total_over (fun m => if nonempty (guildId m) then 1 else 0) kept).
Proof.
  cbn [buildSummary Summary.messages Summary.stats totalMessages totalWords
       attachmentCount byChannel byDay byHour byDayOfWeek byGuild].
  destruct (summarize_totals result _ (kept_messages_valid result) initial_acc)
    as (E1 & E2 & E3 & E4 & E5 & E6 & E7).
  split.
  - rewrite E1, E2. cbn [initial_acc acc_totalWords acc_attachmentCount].
    repeat split; lia.
  - rewrite !total_over_sort_by, !total_over_map.
    assert (Hrow : forall l : list (jstring * ChannelRow.t),
               total_over (fun a => ChannelRow.count (finish_row (snd a))) l
               = total_over (fun kv => ChannelRow.count (snd kv)) l).
    { intros l. reflexivity. }
    rewrite Hrow, E3, E4, E5, E6, E7.
    cbn [initial_acc acc_byChannel acc_byGuild acc_byDay acc_byHour acc_byDayOfWeek].
    rewrite !total_over_zero_buckets. unfold total_over at 1 2 3. simpl foldr.
    repeat split; lia.
Qed.

End Totals.

(** ** Channel rows *)

Lemma jstring_eqb_neq (a b : jstring) : a <> b -> jstring_eqb a b = false.
Proof.
  intros Hab. destruct (jstring_eqb a b) eqn:E; [|reflexivity].
  apply jstring_eqb_eq in E. contradiction.
Qed.

Lemma filter_none {A} (p : A -> bool) (l : list A) :
  (forall x, In x l -> p x = false) -> List.filter p l = [].
Proof.
  induction l as [|a l IH]; simpl; [reflexivity|]. intros Hp.
  rewrite (Hp a) by now left. apply IH. intros x Hx. apply Hp. now right.
Qed.

Section Rows.
Context `{Host}.

Ltac rcbn :=
  cbn [fst snd add_to_row new_row default from_option Datatypes.id
       ChannelRow.messages ChannelRow.count ChannelRow.channelId app].

Lemma upsert_row_holds (result : ParseResult) (m : Message) (seen : list Message)
    (l : list (jstring * ChannelRow.t)) :
  NoDup (map fst l) ->
  Forall (row_holds seen) l ->
  (In (channel_key m) (map fst l)
   \/ forall m', In m' seen -> channel_key m' <> channel_key m) ->
  Forall (row_holds (seen ++ [m]))
    (upsert jstring_eqb (channel_key m)
       (fun o => add_to_row m (default (new_row result m) o)) l).
Proof.
  induction l as [|[k v] l IH]; intros Hnd Hl Hk; cbn [upsert].
  - destruct Hk as [[]|Hk]. constructor; [|constructor].
    unfold row_holds; rcbn; rewrite List.filter_app; cbn [List.filter].
    rewrite (jstring_eqb_refl (channel_key m)), filter_none.
    + repeat split.
    + intros x Hx. apply jstring_eqb_neq. now apply Hk.
  - apply NoDup_cons in Hnd as [Hnotin Hnd'].
    apply Forall_cons_1 in Hl as [(E1 & E2 & E3) Hl']. cbn [fst snd] in E1, E2, E3.
    destruct (jstring_eqb (channel_key m) k) eqn:E.
    + constructor.
      * unfold row_holds; rcbn; rewrite List.filter_app; cbn [List.filter].
        rewrite E, E2. repeat split; [exact E1|].
        rewrite E3, E2, !length_app. simpl. lia.
      * rewrite List.Forall_forall in *. intros [k' v'] Hin.
        destruct (Hl' _ Hin) as (F1 & F2 & F3). cbn [fst snd] in F1, F2, F3.
        unfold row_holds; rcbn; rewrite List.filter_app; cbn [List.filter].
        rewrite jstring_eqb_neq, app_nil_r; [auto|].
        apply jstring_eqb_eq in E. rewrite E.
        intros ->. apply Hnotin. apply list_elem_of_In, in_map_iff. exists (k', v'). auto.
    + constructor.
      * unfold row_holds; rcbn; rewrite List.filter_app; cbn [List.filter].
        rewrite E, app_nil_r. auto.
      * apply IH; [exact Hnd' | exact Hl' |].
        destruct Hk as [[Hk|Hk]|Hk]; [|now left|now right].
        cbn [fst] in Hk.
        assert (jstring_eqb (channel_key m) k = true) by (apply jstring_eqb_eq; congruence).
        congruence.
Qed.

Lemma summarize_rows_hold (result : ParseResult) (ms : list Message) :
  forall seen acc,
    NoDup (map fst (acc_byChannel acc)) ->
    (forall m, In m seen -> In (channel_key m) (map fst (acc_byChannel acc))) ->
    Forall (row_holds seen) (acc_byChannel acc) ->
    let acc' := foldl (summarize_step result) acc ms in
    NoDup (map fst (acc_byChannel acc'))
    /\ (forall m, In m (seen ++ ms) -> In (channel_key m) (map fst (acc_byChannel acc')))
    /\ Forall (row_holds (seen ++ ms)) (acc_byChannel acc').
Proof.
  induction ms as [|m ms IH]; intros seen acc Hnd Hcov Hrows; cbn [foldl]; cbv zeta.
  - rewrite app_nil_r. auto.
  - replace (seen ++ m :: ms) with ((seen ++ [m]) ++ ms) by now rewrite <- app_assoc.
    apply IH; cbn [summarize_step acc_byChannel].
    + now apply (upsert_NoDup jstring_eqb jstring_eqb_eq).
    + intros m' Hm'. rewrite (upsert_map_fst jstring_eqb).
      apply in_or_app. apply in_app_or in Hm' as [Hm'|[<-|[]]].
      * left. now apply Hcov.
      * destruct (existsb _ _) eqn:E; [left | right; now left].
        apply existsb_exists in E as (x & Hx & Ex).
        apply jstring_eqb_eq in Ex. now subst x.
    + apply upsert_row_holds; [exact Hnd | exact Hrows |].
      destruct (in_dec (List.list_eq_dec N.eq_dec) (channel_key m) (map fst (acc_byChannel acc)))
        as [Hin|Hout]; [now left | right].
      intros m' Hm' E. apply Hout. rewrite <- E. now apply Hcov.
Qed.

Lemma byChannel_rows (result : ParseResult) :
  let acc := foldl (summarize_step result) initial_acc
               (List.filter has_valid_timestamp (messages result)) in
  NoDup (map fst (acc_byChannel acc))
  /\ (forall m, In m (List.filter has_valid_timestamp (messages result)) ->
        In (channel_key m) (map fst (acc_byChannel acc)))
  /\ Forall (row_holds (List.filter has_valid_timestamp (messages result)))
       (acc_byChannel acc).
Proof.
  apply (summarize_rows_hold result _ [] initial_acc).
  - constructor.
  - intros m [].
  - constructor.
Qed.

(** X7: each row of [byChannel] holds exactly the kept messages of its
    channel, in the order in which they were read, and its count is their
    number, which is at least one. *)
Theorem byChannel_row_holds_channel_messages (result : ParseResult) (r : ChannelRow.t) :
  In r (byChannel (Summary.stats (buildSummary result))) ->
  ChannelRow.messages r
  = List.filter (fun m => jstring_eqb (channel_key m) (ChannelRow.channelId r))
      (Summary.messages (buildSummary result))
  /\ ChannelRow.count r = Z.of_nat (length (ChannelRow.messages r))
  /\ 1 <= ChannelRow.count r.
Proof.
  intros Hr.
  destruct (byChannel_row_origin result r Hr) as (m & Hm & Hv & Hk & _).
  revert Hr. cbn [buildSummary Summary.stats Summary.messages byChannel].
  rewrite in_sort_by, in_map_iff. intros ([k r0] & <- & Hin).
  destruct (byChannel_rows result) as (_ & _ & Hrows).
  rewrite List.Forall_forall in Hrows.
  destruct (Hrows _ Hin) as (E1 & E2 & E3). cbn [fst snd] in E1, E2, E3.
  cbn [finish_row snd ChannelRow.messages ChannelRow.count ChannelRow.channelId].
  rewrite E1. split; [exact E2|]. split; [exact E3|].
  rewrite E3, E2.
  assert (Hin' : In m (List.filter (fun m0 => jstring_eqb (channel_key m0) k)
                        (List.filter has_valid_timestamp (messages result)))).
  { apply filter_In. split; [now apply filter_In|].
    cbn [finish_row snd ChannelRow.channelId] in Hk. rewrite Hk, E1. apply jstring_eqb_refl. }
  destruct (List.filter _ (List.filter _ _)); [destruct Hin'|]. simpl. lia.
Qed.

(** X8: the rows of [byChannel] have pairwise distinct channel IDs,
    every kept message has its row, and the rows are in non-increasing order
    of count. *)
Theorem byChannel_distinct_sorted (result : ParseResult) :
  let rows := byChannel (Summary.stats (buildSummary result)) in
  NoDup (map ChannelRow.channelId rows)
  /\ (forall m, In m (Summary.messages (buildSummary result)) ->
        exists r, In r rows /\ ChannelRow.channelId r = channel_key m)
  /\ StronglySorted (fun a b => ChannelRow.count b <= ChannelRow.count a) rows.
Proof.
  cbn [buildSummary Summary.stats Summary.messages byChannel].
  destruct (byChannel_rows result) as (Hnd & Hcov & Hrows).
  set (acc := foldl _ _ _) in *.
  assert (Hids : map ChannelRow.channelId (map (fun kv => finish_row (snd kv)) (acc_byChannel acc))
                 = map fst (acc_byChannel acc)).
  { rewrite map_map. apply map_ext_in. intros kv Hkv.
    rewrite List.Forall_forall in Hrows. now destruct (Hrows _ Hkv) as (E & _). }
  split; [|split].
  - apply (NoDup_Permutation_proper _ _ (Permutation_map _ (sort_by_Permutation _ _))).
    now rewrite Hids.
  - intros m Hm. apply Hcov in Hm. rewrite <- Hids in Hm.
    apply in_map_iff in Hm as (r & Er & Hr).
    exists r. split; [now apply in_sort_by | exact Er].
  - apply sort_by_sorted.
    + intros a b c. lia.
    + intros a b. lia.
    + intros a b. lia.
Qed.

End Rows.

Lemma byChannel_row_holds_channel_messages_example :
  exists r,
    In r (byChannel (Summary.stats (buildSummary (H := Utc.host) team_chat_result)))
    /\ ChannelRow.messages r
       = List.filter (fun m => jstring_eqb (channel_key m) (ChannelRow.channelId r))
           (Summary.messages (buildSummary (H := Utc.host) team_chat_result))
    /\ ChannelRow.count r = 1.
Proof.
  set (rows := byChannel (Summary.stats (buildSummary (H := Utc.host) team_chat_result))).
  assert (Hin : In (hd blank_row rows) rows).
  { vm_compute. left. reflexivity. }
  exists (hd blank_row rows). split; [exact Hin|].
  destruct (byChannel_row_holds_channel_messages (H := Utc.host) team_chat_result _ Hin)
    as (Hms & _ & _).
  split; [exact Hms|]. vm_compute. reflexivity.
Defined.

(** ** The tables by day, guild, hour and week day *)

Section Weights.
Context {K V : Type} (eqb : K -> K -> bool).
Hypothesis eqb_eq : forall a b, eqb a b = true <-> a = b.

(** The weight of a key in an insertion-ordered map, 0 for an absent key,
    grows by one when the key is upserted by an incrementing update. *)
Lemma weight_upsert (w : V -> Z) (k k' : K) (g : option V -> V) (l : list (K * V)) :
  (forall v, w (g (Some v)) = w v + 1) -> w (g None) = 1 ->
  default 0 (w <$> lookup_by eqb k (upsert eqb k' g l))
  = default 0 (w <$> lookup_by eqb k l) + (if eqb k k' then 1 else 0).
Proof.
  intros Hsome Hnone. rewrite (lookup_by_upsert_gen eqb eqb_eq).
  destruct (eqb k k') eqn:E; [|lia].
  apply eqb_eq in E. subst k'.
  destruct (lookup_by eqb k l) as [v|]; simpl; [rewrite Hsome | rewrite Hnone]; lia.
Qed.

Lemma lookup_by_unique_gen (k : K) (v : V) (l : list (K * V)) :
  NoDup (map fst l) -> In (k, v) l -> lookup_by eqb k l = Some v.
Proof.
  induction l as [|[k0 v0] l IH]; simpl; [intros _ []|].
  intros Hnd Hin. apply NoDup_cons in Hnd as [Hnotin Hnd].
  destruct Hin as [[= -> ->]|Hin].
  - assert (E : eqb k k = true) by now apply eqb_eq. now rewrite E.
  - destruct (eqb k k0) eqn:E; [|now apply IH].
    apply eqb_eq in E. subst k0. exfalso. apply Hnotin.
    apply list_elem_of_In, in_map_iff. exists (k, v). auto.
Qed.

End Weights.

(** A list of entries whose keys are [ks] and whose values are given by
    [c] is the table of [c] over [ks]. *)
Lemma table_of_keys {K V} (c : K -> V) (ks : list K) (l : list (K * V)) :
  map fst l = ks ->
  (forall k v, In (k, v) l -> v = c k) ->
  l = map (fun k => (k, c k)) ks.
Proof.
  revert ks. induction l as [|[k v] l IH]; intros ks <- Hv; simpl; [reflexivity|].
  rewrite (Hv k v) by now left. f_equal. apply IH; [reflexivity|].
  intros k' v' Hin. apply Hv. now right.
Qed.

Lemma length_filter_app {A} (p : A -> bool) (l : list A) (a : A) :
  Z.of_nat (length (List.filter p (l ++ [a])))
  = Z.of_nat (length (List.filter p l)) + (if p a then 1 else 0).
Proof.
  rewrite List.filter_app, length_app. simpl. destruct (p a); simpl; lia.
Qed.

Lemma length_filter_cons {A} (p : A -> bool) (l : list A) (a : A) :
  Z.of_nat (length (List.filter p (a :: l)))
  = (if p a then 1 else 0) + Z.of_nat (length (List.filter p l)).
Proof. simpl. destruct (p a); simpl length; lia. Qed.

Lemma zero_buckets_keys (n : nat) :
  map fst (zero_buckets n) = map Z.of_nat (seq 0 n).
Proof. unfold zero_buckets. rewrite map_map. reflexivity. Qed.

Lemma zero_buckets_lookup (n : nat) (k : Z) :
  default 0 (lookup_by Z.eqb k (zero_buckets n)) = 0.
Proof.
  unfold zero_buckets. induction (seq 0 n) as [|i l IH]; simpl; [reflexivity|].
  destruct (k =? Z.of_nat i); [reflexivity | exact IH].
Qed.

Lemma NoDup_map_of_nat (l : list nat) : NoDup l -> NoDup (map Z.of_nat l).
Proof.
  induction 1 as [|x l Hx Hl IH]; simpl; constructor; [|exact IH].
  rewrite list_elem_of_In, in_map_iff. intros (y & E & Hy).
  apply Nat2Z.inj in E. subst y. apply Hx. now apply list_elem_of_In.
Qed.

Section Tables.
Context `{Host}.

(** The local hour and week day of a message, and its date key. *)
Lemma summarize_step_tables (result : ParseResult) (acc : Acc) (m : Message) :
  has_valid_timestamp m = true ->
  let acc' := summarize_step result acc m in
  (forall d, count_of d (acc_byDay acc')
     = count_of d (acc_byDay acc)
       + (if bool_decide (getLocalDateKey (timestamp m) = Some d) then 1 else 0))
  /\ (forall h, default 0 (lookup_by Z.eqb h (acc_byHour acc'))
        = default 0 (lookup_by Z.eqb h (acc_byHour acc))
          + (if bool_decide (getHours <$> (timestamp m ≫= getTime) = Some h) then 1 else 0))
  /\ (forall w, default 0 (lookup_by Z.eqb w (acc_byDayOfWeek acc'))
        = default 0 (lookup_by Z.eqb w (acc_byDayOfWeek acc))
          + (if bool_decide (getDay <$> (timestamp m ≫= getTime) = Some w) then 1 else 0))
  /\ (forall g, default 0 (GuildRow.count <$> lookup_by jstring_eqb g (acc_byGuild acc'))
        = default 0 (GuildRow.count <$> lookup_by jstring_eqb g (acc_byGuild acc))
          + (if nonempty (Some g) && bool_decide (guildId m = Some g) then 1 else 0)).
Proof.
  intros Hv acc'.
  destruct (has_valid_timestamp_time m Hv) as (d & t & Ets & Et).
  destruct (getLocalDateKey_nonempty d t Et) as (c & k & Ek).
  unfold acc', summarize_step. cbn [acc_byGuild acc_byDay acc_byHour acc_byDayOfWeek].
  rewrite Ets. cbn [mbind option_bind]. rewrite Ek, Et. cbn [fmap option_fmap option_map].
  split; [|split; [|split]].
  - intros d'. rewrite count_of_bump. f_equal.
    destruct (jstring_eqb d' (c :: k)) eqn:E.
    + apply jstring_eqb_eq in E. subst d'. now rewrite bool_decide_eq_true_2.
    + rewrite bool_decide_eq_false_2; [reflexivity|].
      intros [= E']. rewrite E', jstring_eqb_refl in E. discriminate.
  - intros h.
    pose proof (weight_upsert Z.eqb Z.eqb_eq (fun n => n) h (getHours t)
                  (fun o => default 0 o + 1) (acc_byHour acc)) as W.
    rewrite !option_fmap_id in W. unfold bump. rewrite W; [|intros v; simpl; lia | reflexivity].
    f_equal. destruct (Z.eqb_spec h (getHours t)) as [E|Hne].
    + rewrite bool_decide_eq_true_2; [reflexivity | now rewrite E].
    + rewrite bool_decide_eq_false_2; [reflexivity|]. intros [= E']. congruence.
  - intros w.
    pose proof (weight_upsert Z.eqb Z.eqb_eq (fun n => n) w (getDay t)
                  (fun o => default 0 o + 1) (acc_byDayOfWeek acc)) as W.
    rewrite !option_fmap_id in W. unfold bump. rewrite W; [|intros v; simpl; lia | reflexivity].
    f_equal. destruct (Z.eqb_spec w (getDay t)) as [E|Hne].
    + rewrite bool_decide_eq_true_2; [reflexivity | now rewrite E].
    + rewrite bool_decide_eq_false_2; [reflexivity|]. intros [= E']. congruence.
  - intros g. destruct (guildId m) as [[|c0 g0]|] eqn:Eg.
    + destruct g as [|c0 g0]; [simpl; lia|].
      rewrite bool_decide_eq_false_2 by discriminate. rewrite andb_false_r. lia.
    + rewrite (weight_upsert jstring_eqb jstring_eqb_eq GuildRow.count);
        [|intros v; reflexivity | reflexivity].
      f_equal. destruct (jstring_eqb g (c0 :: g0)) eqn:E.
      * apply jstring_eqb_eq in E. subst g. now rewrite bool_decide_eq_true_2.
      * rewrite bool_decide_eq_false_2; [now rewrite andb_false_r|].
        intros [= E']. rewrite E', jstring_eqb_refl in E. discriminate.
    + rewrite bool_decide_eq_false_2 by discriminate. rewrite andb_false_r. lia.
Qed.

Lemma summarize_tables (result : ParseResult) (ms : list Message) :
  Forall (fun m => has_valid_timestamp m = true) ms ->
  forall acc,
    let acc' := foldl (summarize_step result) acc ms in
    (forall d, count_of d (acc_byDay acc')
       = count_of d (acc_byDay acc)
         + Z.of_nat (length (List.filter
             (fun m => bool_decide (getLocalDateKey (timestamp m) = Some d)) ms)))
    /\ (forall h, default 0 (lookup_by Z.eqb h (acc_byHour acc'))
          = default 0 (lookup_by Z.eqb h (acc_byHour acc))
            + Z.of_nat (length (List.filter
                (fun m => bool_decide (getHours <$> (timestamp m ≫= getTime) = Some h)) ms)))
    /\ (forall w, default 0 (lookup_by Z.eqb w (acc_byDayOfWeek acc'))
          = default 0 (lookup_by Z.eqb w (acc_byDayOfWeek acc))
            + Z.of_nat (length (List.filter
                (fun m => bool_decide (getDay <$> (timestamp m ≫= getTime) = Some w)) ms)))
    /\ (forall g, default 0 (GuildRow.count <$> lookup_by jstring_eqb g (acc_byGuild acc'))
          = default 0 (GuildRow.count <$> lookup_by jstring_eqb g (acc_byGuild acc))
            + Z.of_nat (length (List.filter
                (fun m => nonempty (Some g) && bool_decide (guildId m = Some g)) ms))).
Proof.
  induction 1 as [|m ms Hm Hms IH]; intros acc.
  - simpl. repeat split; intros; lia.
  - cbn [foldl]. cbv zeta.
    destruct (IH (summarize_step result acc m)) as (E1 & E2 & E3 & E4).
    destruct (summarize_step_tables result acc m Hm) as (F1 & F2 & F3 & F4).
    repeat split; intros k.
    + rewrite E1, F1, length_filter_cons. lia.
    + rewrite E2, F2, length_filter_cons. lia.
    + rewrite E3, F3, length_filter_cons. lia.
    + rewrite E4, F4, length_filter_cons. lia.
Qed.

Lemma summarize_step_tables_NoDup (result : ParseResult) (acc : Acc) (m : Message) :
  NoDup (map fst (acc_byDay acc)) /\ NoDup (map fst (acc_byHour acc))
  /\ NoDup (map fst (acc_byDayOfWeek acc)) /\ NoDup (map fst (acc_byGuild acc)) ->
  let acc' := summarize_step result acc m in
  NoDup (map fst (acc_byDay acc')) /\ NoDup (map fst (acc_byHour acc'))
  /\ NoDup (map fst (acc_byDayOfWeek acc')) /\ NoDup (map fst (acc_byGuild acc')).
Proof.
  intros (N1 & N2 & N3 & N4).
  cbn [summarize_step acc_byGuild acc_byDay acc_byHour acc_byDayOfWeek].
  repeat split.
  - destruct (match timestamp m with Some _ => _ | None => _ end) as [[|c k]|];
      try assumption.
    now apply (upsert_NoDup jstring_eqb jstring_eqb_eq).
  - destruct (timestamp m ≫= getTime); [|assumption].
    now apply (upsert_NoDup Z.eqb Z.eqb_eq).
  - destruct (timestamp m ≫= getTime); [|assumption].
    now apply (upsert_NoDup Z.eqb Z.eqb_eq).
  - destruct (guildId m) as [[|c g]|]; try assumption.
    now apply (upsert_NoDup jstring_eqb jstring_eqb_eq).
Qed.

Lemma summarize_tables_NoDup (result : ParseResult) (ms : list Message) :
  forall acc,
    NoDup (map fst (acc_byDay acc)) /\ NoDup (map fst (acc_byHour acc))
    /\ NoDup (map fst (acc_byDayOfWeek acc)) /\ NoDup (map fst (acc_byGuild acc)) ->
    let acc' := foldl (summarize_step result) acc ms in
    NoDup (map fst (acc_byDay acc')) /\ NoDup (map fst (acc_byHour acc'))
    /\ NoDup (map fst (acc_byDayOfWeek acc')) /\ NoDup (map fst (acc_byGuild acc')).
Proof.
  induction ms as [|m ms IH]; intros acc Hacc; [exact Hacc|].
  cbn [foldl]. apply IH. now apply summarize_step_tables_NoDup.
Qed.

Lemma initial_acc_NoDup :
  NoDup (map fst (acc_byDay initial_acc)) /\ NoDup (map fst (acc_byHour initial_acc))
  /\ NoDup (map fst (acc_byDayOfWeek initial_acc))
  /\ NoDup (map fst (acc_byGuild initial_acc)).
Proof.
  cbn [initial_acc acc_byDay acc_byHour acc_byDayOfWeek acc_byGuild].
  rewrite !zero_buckets_keys.
  repeat split; try apply NoDup_nil_2;
    apply NoDup_map_of_nat, NoDup_ListNoDup, seq_NoDup.
Qed.

End Tables.

Lemma StronglySorted_map_inv {A B} (R : B -> B -> Prop) (f : A -> B) (l : list A) :
  StronglySorted R (map f l) -> StronglySorted (fun a b => R (f a) (f b)) l.
Proof.
  induction l as [|a l IH]; simpl; intros Hs; [constructor|].
  apply StronglySorted_inv in Hs as [Hs Ha]. constructor; [now apply IH|].
  rewrite List.Forall_forall in *. intros x Hx. apply Ha. now apply in_map.
Qed.

Lemma seq_sorted (i n : nat) :
  StronglySorted (fun a b => a - b <= 0) (map Z.of_nat (seq i n)).
Proof.
  revert i. induction n as [|n IH]; intros i; simpl; constructor; [apply IH|].
  rewrite List.Forall_forall. intros x Hx.
  apply in_map_iff in Hx as (y & <- & Hy). apply in_seq in Hy. lia.
Qed.

Lemma in_range_seq (n : nat) (k : Z) :
  0 <= k < Z.of_nat n -> In k (map Z.of_nat (seq 0 n)).
Proof.
  intros Hk. apply in_map_iff. exists (Z.to_nat k). split; [lia|].
  apply in_seq. lia.
Qed.

Section TableTheorems.
Context `{Host}.

Lemma summarize_day_positive (result : ParseResult) (ms : list Message) :
  forall acc,
    Forall (fun kv => 1 <= snd kv) (acc_byDay acc) ->
    Forall (fun kv => 1 <= snd kv) (acc_byDay (foldl (summarize_step result) acc ms)).
Proof.
  induction ms as [|m ms IH]; intros acc Hacc; [exact Hacc|].
  cbn [foldl]. apply IH. cbn [summarize_step acc_byDay].
  destruct (match timestamp m with Some _ => _ | None => _ end) as [[|c k]|];
    try assumption.
  apply Forall_upsert; [| |exact Hacc]; simpl; intros; lia.
Qed.

Lemma summarize_guild_rows (result : ParseResult) (ms : list Message) :
  forall acc,
    Forall (fun kv => GuildRow.guildId (snd kv) = fst kv /\ fst kv <> []
                      /\ 1 <= GuildRow.count (snd kv)) (acc_byGuild acc) ->
    Forall (fun kv => GuildRow.guildId (snd kv) = fst kv /\ fst kv <> []
                      /\ 1 <= GuildRow.count (snd kv))
      (acc_byGuild (foldl (summarize_step result) acc ms)).
Proof.
  induction ms as [|m ms IH]; intros acc Hacc; [exact Hacc|].
  cbn [foldl]. apply IH. cbn [summarize_step acc_byGuild].
  destruct (guildId m) as [[|c g]|]; try assumption.
  apply Forall_upsert; [| |exact Hacc].
  - intros v (E1 & E2 & E3). cbn in *. repeat split; auto. lia.
  - cbn. repeat split; [discriminate | lia].
Qed.

Lemma summarize_hour_keys (result : ParseResult) (ms : list Message) :
  (forall t, 0 <= getHours t < 24) ->
  (forall t, 0 <= getDay t < 7) ->
  forall acc,
    map fst (acc_byHour acc) = map Z.of_nat (seq 0 24)
    /\ map fst (acc_byDayOfWeek acc) = map Z.of_nat (seq 0 7) ->
    let acc' := foldl (summarize_step result) acc ms in
    map fst (acc_byHour acc') = map Z.of_nat (seq 0 24)
    /\ map fst (acc_byDayOfWeek acc') = map Z.of_nat (seq 0 7).
Proof.
  intros Hh Hd. induction ms as [|m ms IH]; intros acc Hacc; [exact Hacc|].
  cbn [foldl]. apply IH. destruct Hacc as [E1 E2].
  cbn [summarize_step acc_byHour acc_byDayOfWeek].
  destruct (timestamp m ≫= getTime) as [t|]; [|now split].
  unfold bump. split.
  - rewrite (upsert_map_fst_present Z.eqb Z.eqb_eq); [exact E1|].
    rewrite E1. apply in_range_seq. apply (Hh t).
  - rewrite (upsert_map_fst_present Z.eqb Z.eqb_eq); [exact E2|].
    rewrite E2. apply in_range_seq. apply (Hd t).
Qed.

(** X9: [byDay] has one entry for each local date key, and the count of
    an entry is the number of kept messages with that key, at least one. *)
Theorem byDay_counts_messages_per_date (result : ParseResult) :
  let s := Summary.stats (buildSummary result) in
  let kept := Summary.messages (buildSummary result) in
  NoDup (map fst (byDay s))
  /\ forall d n, In (d, n) (byDay s) ->
       n = Z.of_nat (length (List.filter
             (fun m => bool_decide (getLocalDateKey (timestamp m) = Some d)) kept))
       /\ 1 <= n.
Proof.
  cbn [buildSummary Summary.stats Summary.messages byDay].
  set (kept := List.filter has_valid_timestamp (messages result)).
  destruct (summarize_tables result kept (kept_messages_valid result) initial_acc)
    as (E & _).
  destruct (summarize_tables_NoDup result kept initial_acc initial_acc_NoDup) as (N & _).
  pose proof (summarize_day_positive result kept initial_acc (List.Forall_nil _)) as P.
  set (acc := foldl _ _ _) in *. split.
  - apply (NoDup_Permutation_proper _ _ (Permutation_map _ (sort_by_Permutation _ _))).
    exact N.
  - intros d n Hin. apply in_sort_by in Hin. split.
    + specialize (E d). unfold count_of in E.
      rewrite (lookup_by_unique d n _ N Hin) in E. simpl in E. lia.
    + rewrite List.Forall_forall in P. apply (P _ Hin).
Qed.

(** X10: [byGuild] has one row for each non-empty guild ID, in
    non-increasing order of count, and the count of a row is the number of
    kept messages of that guild, at least one. *)
Theorem byGuild_counts_messages_per_guild (result : ParseResult) :
  let rows := byGuild (Summary.stats (buildSummary result)) in
  let kept := Summary.messages (buildSummary result) in
  NoDup (map GuildRow.guildId rows)
  /\ StronglySorted (fun a b => GuildRow.count b <= GuildRow.count a) rows
  /\ forall g, In g rows ->
       GuildRow.guildId g <> []
       /\ GuildRow.count g
          = Z.of_nat (length (List.filter
              (fun m => bool_decide (guildId m = Some (GuildRow.guildId g))) kept))
       /\ 1 <= GuildRow.count g.
Proof.
  cbn [buildSummary Summary.stats Summary.messages byGuild].
  set (kept := List.filter has_valid_timestamp (messages result)).
  destruct (summarize_tables result kept (kept_messages_valid result) initial_acc)
    as (_ & _ & _ & E).
  destruct (summarize_tables_NoDup result kept initial_acc initial_acc_NoDup)
    as (_ & _ & _ & N).
  pose proof (summarize_guild_rows result kept initial_acc (List.Forall_nil _)) as P.
  set (acc := foldl _ _ _) in *.
  assert (Hids : map GuildRow.guildId (map snd (acc_byGuild acc)) = map fst (acc_byGuild acc)).
  { rewrite map_map. apply map_ext_in. intros kv Hkv.
    rewrite List.Forall_forall in P. now destruct (P _ Hkv) as (Ek & _). }
  split; [|split].
  - apply (NoDup_Permutation_proper _ _ (Permutation_map _ (sort_by_Permutation _ _))).
    now rewrite Hids.
  - apply sort_by_sorted; intros; lia.
  - intros g Hg. apply in_sort_by, in_map_iff in Hg as ([k g0] & <- & Hin).
    rewrite List.Forall_forall in P. destruct (P _ Hin) as (E1 & E2 & E3).
    cbn [fst snd] in *. rewrite E1. split; [exact E2|]. split; [|exact E3].
    specialize (E k). rewrite (lookup_by_unique k g0 _ N Hin) in E.
    cbn [fmap option_fmap option_map default from_option Datatypes.id initial_acc
         acc_byGuild lookup_by] in E.
    rewrite E, Z.add_0_l. f_equal. f_equal. apply filter_ext. intros m.
    destruct k; [contradiction | reflexivity].
Qed.

(** X11: on a runtime whose local hours lie in 0..23 and whose week
    days lie in 0..6, [byHour] lists the 24 hours and [byDayOfWeek] the
    7 days in order, each with the number of kept messages in it. *)
Theorem byHour_byDayOfWeek_tables (result : ParseResult) :
  (forall t, 0 <= getHours t < 24) ->
  (forall t, 0 <= getDay t < 7) ->
  let s := Summary.stats (buildSummary result) in
  let kept := Summary.messages (buildSummary result) in
  byHour s
  = map (fun h => (h, Z.of_nat (length (List.filter
           (fun m => bool_decide (getHours <$> (timestamp m ≫= getTime) = Some h)) kept))))
      (map Z.of_nat (seq 0 24))
  /\ byDayOfWeek s
     = map (fun d => (d, Z.of_nat (length (List.filter
              (fun m => bool_decide (getDay <$> (timestamp m ≫= getTime) = Some d)) kept))))
         (map Z.of_nat (seq 0 7)).
Proof.
  intros Hh Hd.
  cbn [buildSummary Summary.stats Summary.messages byHour byDayOfWeek].
  set (kept := List.filter has_valid_timestamp (messages result)).
  destruct (summarize_tables result kept (kept_messages_valid result) initial_acc)
    as (_ & E2 & E3 & _).
  destruct (summarize_tables_NoDup result kept initial_acc initial_acc_NoDup)
    as (_ & N2 & N3 & _).
  destruct (summarize_hour_keys result kept Hh Hd initial_acc) as (K2 & K3).
  { cbn [initial_acc acc_byHour acc_byDayOfWeek]. now rewrite !zero_buckets_keys. }
  set (acc := foldl _ _ _) in *.
  split.
  - rewrite sort_by_sorted_id.
    + apply table_of_keys; [exact K2|]. intros h n Hin.
      specialize (E2 h).
      rewrite (lookup_by_unique_gen Z.eqb Z.eqb_eq h n _ N2 Hin) in E2.
      cbn [initial_acc acc_byHour] in E2. rewrite zero_buckets_lookup in E2.
      simpl in E2. lia.
    + apply (StronglySorted_map_inv (fun a b => a - b <= 0) fst).
      rewrite K2. apply seq_sorted.
  - rewrite sort_by_sorted_id.
    + apply table_of_keys; [exact K3|]. intros d n Hin.
      specialize (E3 d).
      rewrite (lookup_by_unique_gen Z.eqb Z.eqb_eq d n _ N3 Hin) in E3.
      cbn [initial_acc acc_byDayOfWeek] in E3. rewrite zero_buckets_lookup in E3.
      simpl in E3. lia.
    + apply (StronglySorted_map_inv (fun a b => a - b <= 0) fst).
      rewrite K3. apply seq_sorted.
Qed.

End TableTheorems.

Lemma byHour_byDayOfWeek_tables_example :
  byHour (Summary.stats (buildSummary (H := Utc.host) team_chat_result))
  = map (fun h => (h, Z.of_nat (length (List.filter
           (fun m => bool_decide (getHours (Host := Utc.host) <$> (timestamp m ≫= getTime)
                                  = Some h))
           (Summary.messages (buildSummary (H := Utc.host) team_chat_result))))))
      (map Z.of_nat (seq 0 24)).
Proof.
  apply (byHour_byDayOfWeek_tables (H := Utc.host) team_chat_result).
  - intros t. apply Z.mod_pos_bound. lia.
  - intros t. apply Z.mod_pos_bound. lia.
Defined.

(** ** First and last message *)

Lemma find_all_valid {A} (p : A -> bool) (l : list A) :
  Forall (fun x => p x = true) l -> List.find p l = head l.
Proof. destruct 1 as [|x l Hx _]; simpl; [reflexivity | now rewrite Hx]. Qed.

Lemma head_rev_last {A} (l : list A) : head (rev l) = last l.
Proof.
  induction l as [|a l _] using rev_ind; [reflexivity|].
  now rewrite rev_app_distr, last_snoc.
Qed.

Section Span.
Context `{Host}.

Lemma summarize_step_spans (result : ParseResult) (seen : list Message) (acc : Acc)
    (m : Message) :
  has_valid_timestamp m = true ->
  spans seen (acc_firstTs acc) (acc_lastTs acc) ->
  spans (seen ++ [m])
    (acc_firstTs (summarize_step result acc m))
    (acc_lastTs (summarize_step result acc m)).
Proof.
  intros Hv Hs.
  destruct (has_valid_timestamp_time m Hv) as (d & t & Ets & Et).
  cbn [summarize_step acc_firstTs acc_lastTs]. rewrite Ets.
  assert (Hm : timestamp m ≫= getTime = Some t) by now rewrite Ets.
  destruct seen as [|m0 seen].
  - destruct Hs as [-> ->]. simpl.
    exists d, d, t, t.
    split; [reflexivity|]. split; [reflexivity|]. split; [exact Et|]. split; [exact Et|].
    split; [exists m; split; [now left | exact Ets]|].
    split; [exists m; split; [now left | exact Ets]|].
    intros m' t' [<-|[]] E. assert (t' = t) by congruence. lia.
  - destruct Hs as (f & l & tf & tl & -> & -> & Ef & El & (mf & Hmf & Emf)
                    & (ml & Hml & Eml) & Hb).
    assert (Hfl : tf <= tl).
    { apply (Hb mf tf Hmf). now rewrite Emf. }
    assert (Hin_m : In m ((m0 :: seen) ++ [m])) by (apply in_or_app; right; now left).
    assert (Hin_f : In mf ((m0 :: seen) ++ [m])) by (apply in_or_app; now left).
    assert (Hin_l : In ml ((m0 :: seen) ++ [m])) by (apply in_or_app; now left).
    assert (Hbound : forall lo hi, lo <= tf -> tl <= hi -> lo <= t <= hi ->
               forall m' t', In m' ((m0 :: seen) ++ [m]) ->
                 timestamp m' ≫= getTime = Some t' -> lo <= t' <= hi).
    { intros lo hi Hlo Hhi Ht m' t' Hin E.
      apply in_app_or in Hin as [Hin|[<-|[]]].
      - pose proof (Hb _ _ Hin E). lia.
      - assert (t' = t) by congruence. lia. }
    change ((m0 :: seen) ++ [m]) with (m0 :: (seen ++ [m])). cbn [spans].
    change (m0 :: (seen ++ [m])) with ((m0 :: seen) ++ [m]).
    unfold date_lt. rewrite Et, Ef, El.
    destruct (Z.ltb_spec t tf) as [Hlt|Hge]; destruct (Z.ltb_spec tl t) as [Hgt|Hle].
    + lia.
    + exists d, l, t, tl.
      split; [reflexivity|]. split; [reflexivity|]. split; [exact Et|]. split; [exact El|].
      split; [exists m; auto|]. split; [exists ml; auto|].
      apply Hbound; lia.
    + exists f, d, tf, t.
      split; [reflexivity|]. split; [reflexivity|]. split; [exact Ef|]. split; [exact Et|].
      split; [exists mf; auto|]. split; [exists m; auto|].
      apply Hbound; lia.
    + exists f, l, tf, tl.
      split; [reflexivity|]. split; [reflexivity|]. split; [exact Ef|]. split; [exact El|].
      split; [exists mf; auto|]. split; [exists ml; auto|].
      apply Hbound; lia.
Qed.

Lemma summarize_spans (result : ParseResult) (ms : list Message) :
  Forall (fun m => has_valid_timestamp m = true) ms ->
  forall seen acc,
    spans seen (acc_firstTs acc) (acc_lastTs acc) ->
    spans (seen ++ ms)
      (acc_firstTs (foldl (summarize_step result) acc ms))
      (acc_lastTs (foldl (summarize_step result) acc ms)).
Proof.
  induction 1 as [|m ms Hm Hms IH]; intros seen acc Hs; cbn [foldl].
  - now rewrite app_nil_r.
  - replace (seen ++ m :: ms) with ((seen ++ [m]) ++ ms) by now rewrite <- app_assoc.
    apply IH. now apply summarize_step_spans.
Qed.

(** X12: [firstMessageAt] and [lastMessageAt] are the timestamps of
    kept messages with the least and the greatest time value, and [null]
    when no message is kept. *)
Theorem first_last_span_kept_messages (result : ParseResult) :
  let s := Summary.stats (buildSummary result) in
  spans (Summary.messages (buildSummary result)) (firstMessageAt s) (lastMessageAt s).
Proof.
  cbn [buildSummary Summary.stats Summary.messages firstMessageAt lastMessageAt].
  apply (summarize_spans result _ (kept_messages_valid result) [] initial_acc).
  split; reflexivity.
Qed.

(** X13: [firstMessageAt] and [lastMessageAt] of a channel row are the
    timestamps of the first and the last message of the row in the order in
    which the messages were read, whatever their time values. *)
Theorem channel_row_first_last_in_reading_order (result : ParseResult)
    (r : ChannelRow.t) :
  In r (byChannel (Summary.stats (buildSummary result))) ->
  ChannelRow.firstMessageAt r = head (ChannelRow.messages r) ≫= timestamp
  /\ ChannelRow.lastMessageAt r = last (ChannelRow.messages r) ≫= timestamp.
Proof.
  cbn [buildSummary Summary.stats byChannel].
  rewrite in_sort_by, in_map_iff. intros ([k r0] & <- & Hin).
  destruct (byChannel_rows result) as (_ & _ & Hrows).
  rewrite List.Forall_forall in Hrows.
  destruct (Hrows _ Hin) as (_ & E2 & _). cbn [fst snd] in E2.
  cbn [finish_row snd ChannelRow.messages ChannelRow.firstMessageAt
       ChannelRow.lastMessageAt].
  assert (Hvalid : Forall (fun m => has_valid_timestamp m = true) (ChannelRow.messages r0)).
  { rewrite E2, List.Forall_forall. intros m Hm.
    apply filter_In in Hm as [Hm _]. now apply filter_In in Hm as [_ Hm]. }
  rewrite (find_all_valid _ _ Hvalid).
  rewrite find_all_valid, head_rev_last; [auto|].
  rewrite List.Forall_forall in *. intros m Hm. apply Hvalid. now apply in_rev.
Qed.

End Span.

Lemma channel_row_first_last_in_reading_order_example :
  exists r,
    In r (byChannel (Summary.stats (buildSummary (H := Utc.host) team_chat_result)))
    /\ ChannelRow.firstMessageAt r = head (ChannelRow.messages r) ≫= timestamp
    /\ ChannelRow.firstMessageAt r = Some (mkDate (Some 1704067200000)).
Proof.
  set (rows := byChannel (Summary.stats (buildSummary (H := Utc.host) team_chat_result))).
  assert (Hin : In (hd blank_row rows) rows).
  { vm_compute. left. reflexivity. }
  exists (hd blank_row rows). split; [exact Hin|].
  destruct (channel_row_first_last_in_reading_order (H := Utc.host) team_chat_result _ Hin)
    as (Hfirst & _).
  split; [exact Hfirst|]. vm_compute. reflexivity.
Defined.

(** ** Frequency tables *)

Lemma occ_zero (k : jstring) (l : list jstring) : ~ In k l -> occ k l = 0.
Proof.
  induction l as [|x l IH]; simpl; [reflexivity|]. intros Hk.
  rewrite jstring_eqb_neq by (intros ->; apply Hk; now left).
  rewrite IH; [reflexivity|]. intros Hin. apply Hk. now right.
Qed.

Lemma occ_pos (k : jstring) (l : list jstring) : In k l -> 1 <= occ k l.
Proof.
  induction l as [|x l IH]; simpl; [intros []|]. intros [->|Hin].
  - rewrite jstring_eqb_refl. pose proof (occ_nonneg k l). lia.
  - specialize (IH Hin). destruct (jstring_eqb k x); lia.
Qed.

Lemma take_length_le {A} (n : nat) (l : list A) : (length (take n l) <= n)%nat.
Proof. rewrite length_take. lia. Qed.

Lemma NoDup_map_filter {A B} (f : A -> B) (p : A -> bool) (l : list A) :
  NoDup (map f l) -> NoDup (map f (List.filter p l)).
Proof.
  induction l as [|a l IH]; simpl; [auto|]. intros Hnd.
  apply NoDup_cons in Hnd as [Ha Hnd]. destruct (p a); simpl; [|now apply IH].
  apply NoDup_cons. split; [|now apply IH].
  rewrite list_elem_of_In, in_map_iff. intros (x & E & Hx).
  apply filter_In in Hx as [Hx _]. apply Ha.
  rewrite list_elem_of_In, in_map_iff. eauto.
Qed.

Lemma NoDup_map_take {A B} (f : A -> B) (n : nat) (l : list A) :
  NoDup (map f l) -> NoDup (map f (take n l)).
Proof.
  revert n. induction l as [|a l IH]; intros [|n]; simpl; auto using NoDup_nil_2.
  intros Hnd. apply NoDup_cons in Hnd as [Ha Hnd].
  apply NoDup_cons. split; [|now apply IH].
  rewrite list_elem_of_In, in_map_iff. intros (x & E & Hx).
  apply in_take in Hx. apply Ha. rewrite list_elem_of_In, in_map_iff. eauto.
Qed.

(** Every match of the emoji pattern has the shape of an emoji key. *)
Lemma emoji_match_key (w : jstring) :
  w <> [] -> forallb is_emoji_unit w = true ->
  re_emoji_key (58%N :: rev w ++ [58%N]) = true.
Proof.
  intros Hne Hw. cbn [re_emoji_key]. rewrite rev_app_distr, rev_involutive. cbn.
  destruct w; [contradiction | exact Hw].
Qed.

Lemma matchEmojis_from_keys (s : jstring) :
  forall st,
    (forall w, st = Some w -> forallb is_emoji_unit w = true) ->
    Forall (fun e => re_emoji_key e = true) (matchEmojis_from st s).
Proof.
  induction s as [|c s IH]; intros st Hst; simpl; [constructor|].
  destruct st as [w|].
  - specialize (Hst w eq_refl).
    destruct (is_emoji_unit c) eqn:Hc.
    + apply IH. intros w' [= <-]. simpl. now rewrite Hc, Hst.
    + destruct (is_colon c).
      * destruct w as [|u w]; [apply IH; now intros w' [= <-]|].
        constructor; [|apply IH; discriminate].
        now apply (emoji_match_key (u :: w)).
      * apply IH. discriminate.
  - apply IH. destruct (is_colon c); [now intros w' [= <-] | discriminate].
Qed.

Lemma forallb_emoji_unit_lower (l : jstring) :
  forallb is_emoji_unit (map Utc.lower_unit l) = forallb is_emoji_unit l.
Proof.
  induction l as [|x l IHl]; [reflexivity|].
  cbn [map forallb]. now rewrite lower_unit_emoji_unit, IHl.
Qed.

Lemma re_emoji_key_lower (e : jstring) :
  re_emoji_key (map Utc.lower_unit e) = re_emoji_key e.
Proof.
  destruct e as [|c r]; [reflexivity|]. cbn [map re_emoji_key].
  rewrite lower_unit_colon, <- map_rev.
  destruct (rev r) as [|c' m]; [reflexivity|]. cbn [map].
  rewrite lower_unit_colon. destruct m as [|u m]; [reflexivity|].
  change (Utc.lower_unit u :: map Utc.lower_unit m) with (map Utc.lower_unit (u :: m)).
  now rewrite forallb_emoji_unit_lower.
Qed.

Section Words.
Context `{Host}.

Lemma count_words_keys (k : jstring) (ws : list jstring) :
  forall wc,
    In k (map fst (count_words ws wc)) ->
    In k (map fst wc) \/ (In k ws /\ is_stopword k = false).
Proof.
  unfold count_words. induction ws as [|w ws IH]; intros wc Hk; simpl in *; [now left|].
  apply IH in Hk as [Hk|[Hk Hs]]; [|right; split; [now right | exact Hs]].
  destruct (is_stopword w) eqn:Hw; [now left|].
  apply upsert_keys in Hk as [Hk| ->]; [now left|].
  right. split; [now left | exact Hw].
Qed.

Lemma count_emojis_keys (k : jstring) (es : list jstring) :
  forall wc,
    In k (map fst (count_emojis es wc)) ->
    In k (map fst wc) \/ In k (map toLowerCase es).
Proof.
  unfold count_emojis. induction es as [|e es IH]; intros wc Hk; simpl in *; [now left|].
  apply IH in Hk as [Hk|Hk]; [|right; now right].
  apply upsert_keys in Hk as [Hk| ->]; [now left|]. right. now left.
Qed.

Lemma count_words_positive (ws : list jstring) :
  forall wc, Forall (fun kv => 1 <= snd kv) wc ->
    Forall (fun kv => 1 <= snd kv) (count_words ws wc).
Proof.
  unfold count_words. induction ws as [|w ws IH]; intros wc Hwc; simpl; [assumption|].
  apply IH. destruct (is_stopword w); [assumption|].
  apply Forall_upsert; [| |exact Hwc]; simpl; intros; lia.
Qed.

Lemma count_emojis_positive (es : list jstring) :
  forall wc, Forall (fun kv => 1 <= snd kv) wc ->
    Forall (fun kv => 1 <= snd kv) (count_emojis es wc).
Proof.
  unfold count_emojis. induction es as [|e es IH]; intros wc Hwc; simpl; [assumption|].
  apply IH. apply Forall_upsert; [| |exact Hwc]; simpl; intros; lia.
Qed.

Lemma summarize_words_positive (result : ParseResult) (ms : list Message) :
  forall acc,
    Forall (fun kv => 1 <= snd kv) (acc_wordCounts acc) ->
    Forall (fun kv => 1 <= snd kv)
      (acc_wordCounts (foldl (summarize_step result) acc ms)).
Proof.
  induction ms as [|m ms IH]; intros acc Hacc; [exact Hacc|].
  cbn [foldl]. apply IH. cbn [summarize_step acc_wordCounts].
  now apply count_emojis_positive, count_words_positive.
Qed.

(** Where a key of the frequency map comes from. *)
Lemma summarize_words_keys (result : ParseResult) (k : jstring) (ms : list Message) :
  forall acc,
    In k (map fst (acc_wordCounts (foldl (summarize_step result) acc ms))) ->
    In k (map fst (acc_wordCounts acc))
    \/ (exists m, In m ms /\ In k (tokenize (contents m)) /\ is_stopword k = false)
    \/ (exists m, In m ms /\ In k (map toLowerCase (matchEmojis (contents m)))).
Proof.
  induction ms as [|m ms IH]; intros acc Hk; [now left|].
  cbn [foldl] in Hk. apply IH in Hk as [Hk|[(m' & Hm' & Hk)|(m' & Hm' & Hk)]].
  - cbn [summarize_step acc_wordCounts] in Hk.
    apply count_emojis_keys in Hk as [Hk|Hk].
    + apply count_words_keys in Hk as [Hk|[Hk Hs]]; [now left|].
      right. left. exists m. split; [now left | auto].
    + right. right. exists m. split; [now left | exact Hk].
  - right. left. exists m'. split; [now right | exact Hk].
  - right. right. exists m'. split; [now right | exact Hk].
Qed.

Lemma summarize_count_word (result : ParseResult) (k : jstring) (ms : list Message) :
  is_stopword k = false ->
  forall acc,
    count_of k (acc_wordCounts (foldl (summarize_step result) acc ms))
    = count_of k (acc_wordCounts acc)
      + total_over (fun m => token_occurrences k (contents m)
                             + emoji_matches k (contents m)) ms.
Proof.
  intros Hk. induction ms as [|m ms IH]; intros acc; [simpl; unfold total_over; simpl; lia|].
  cbn [foldl]. rewrite IH. cbn [summarize_step acc_wordCounts].
  rewrite count_emojis_count, (count_words_count k _ Hk).
  unfold total_over, token_occurrences, emoji_matches. simpl. lia.
Qed.

(** X14: the two global frequency tables: [topWords] has at most 100
    entries and [topEmojis] at most 24; [topEmojis] holds exactly the
    entries whose key has the emoji form [:name:], [topWords] the others;
    every count is at least one, each table is in non-increasing order of
    count, and no key occurs twice. *)
Theorem topWords_topEmojis_shape (result : ParseResult) :
  let s := Summary.stats (buildSummary result) in
  ((length (topWords s) <= 100)%nat /\ (length (topEmojis s) <= 24)%nat)
  /\ (Forall (fun e => re_emoji_key (fst e) = false /\ 1 <= snd e) (topWords s)
      /\ Forall (fun e => re_emoji_key (fst e) = true /\ 1 <= snd e) (topEmojis s))
  /\ (StronglySorted (fun a b => snd b <= snd a) (topWords s)
      /\ StronglySorted (fun a b => snd b <= snd a) (topEmojis s))
  /\ (NoDup (map fst (topWords s)) /\ NoDup (map fst (topEmojis s))).
Proof.
  cbn [buildSummary Summary.stats topWords topEmojis].
  set (kept := List.filter has_valid_timestamp (messages result)).
  pose proof (summarize_words_positive result kept initial_acc (List.Forall_nil _)) as P.
  pose proof (summarize_NoDup result kept initial_acc NoDup_nil_2) as N.
  set (wc := acc_wordCounts _) in *.
  assert (Hsorted : forall l : list (jstring * Z),
             StronglySorted (fun a b => snd b <= snd a) (sort_by by_count_desc l)).
  { intros l. apply sort_by_sorted; unfold by_count_desc; intros; lia. }
  rewrite List.Forall_forall in P.
  split; [split; apply take_length_le|]. split; [split|split; [split|split]].
  - rewrite List.Forall_forall. intros e He. apply in_take, filter_In in He as [He Hk].
    apply in_sort_by in He. split; [now apply negb_true_iff | now apply P].
  - rewrite List.Forall_forall. intros e He. apply in_take, in_sort_by, filter_In in He as [He Hk].
    split; [exact Hk | now apply P].
  - apply StronglySorted_take, StronglySorted_filter', Hsorted.
  - apply StronglySorted_take, Hsorted.
  - apply NoDup_map_take, NoDup_map_filter.
    apply (NoDup_Permutation_proper _ _ (Permutation_map _ (sort_by_Permutation _ _))).
    exact N.
  - apply NoDup_map_take.
    apply (NoDup_Permutation_proper _ _ (Permutation_map _ (sort_by_Permutation _ _))).
    now apply NoDup_map_filter.
Qed.

(** X15: on a runtime that lower-cases ASCII strings unit by unit, an
    entry of [topWords] is a token of at least two units that is not a stop
    word, and its count is the number of its occurrences as a token in the
    kept messages. *)
Theorem topWords_count_token_occurrences (result : ParseResult) (w : jstring) (n : Z) :
  (forall s, Forall is_ascii s -> toLowerCase s = map Utc.lower_unit s) ->
  In (w, n) (topWords (Summary.stats (buildSummary result))) ->
  is_stopword w = false
  /\ (2 <= length w)%nat
  /\ n = total_over (fun m => token_occurrences w (contents m))
           (Summary.messages (buildSummary result))
  /\ 1 <= n.
Proof.
  intros Hlow. cbn [buildSummary Summary.stats Summary.messages topWords].
  set (kept := List.filter has_valid_timestamp (messages result)).
  intros Hin. apply in_take, filter_In in Hin as [Hin Hkey].
  apply in_sort_by in Hin. cbn [fst] in Hkey. apply negb_true_iff in Hkey.
  pose proof (summarize_NoDup result kept initial_acc NoDup_nil_2) as N.
  assert (Hno : forall text, ~ In w (map toLowerCase (matchEmojis text))).
  { intros text Hw. apply in_map_iff in Hw as (e & <- & He).
    assert (Ha : Forall (Forall is_ascii) (matchEmojis_from None text))
      by (apply matchEmojis_from_ascii; discriminate).
    assert (Hk : Forall (fun e => re_emoji_key e = true) (matchEmojis_from None text))
      by (apply matchEmojis_from_keys; discriminate).
    rewrite List.Forall_forall in Ha, Hk.
    rewrite (Hlow e (Ha e He)), re_emoji_key_lower, (Hk e He) in Hkey.
    discriminate Hkey. }
  assert (Hprov : exists m, In m kept /\ In w (tokenize (contents m))
                            /\ is_stopword w = false).
  { assert (Hk : In w (map fst (acc_wordCounts
                                  (foldl (summarize_step result) initial_acc kept)))).
    { apply in_map_iff. exists (w, n). auto. }
    apply summarize_words_keys in Hk as [[]|[Hk|(m & _ & Hk)]]; [exact Hk|].
    now apply Hno in Hk. }
  destruct Hprov as (m & Hm & Htok & Hstop).
  assert (En : n = total_over (fun m => token_occurrences w (contents m)) kept).
  { pose proof (summarize_count_word result w kept Hstop initial_acc) as E.
    unfold count_of in E at 1. rewrite (lookup_by_unique w n _ N Hin) in E.
    simpl in E. rewrite total_over_plus in E.
    assert (Z0 : forall l : list Message,
               total_over (fun m => emoji_matches w (contents m)) l = 0).
    { intros l. unfold total_over. induction l as [|m' l IHl]; [reflexivity|].
      simpl. unfold emoji_matches at 1. rewrite occ_zero by apply Hno.
      now rewrite IHl. }
    rewrite Z0 in E. change (count_of w []) with 0 in E. lia. }
  split; [exact Hstop|]. split; [now apply tokenize_token_length in Htok|].
  split; [exact En|].
  pose proof (summarize_words_positive result kept initial_acc (List.Forall_nil _)) as P.
  rewrite List.Forall_forall in P. apply (P _ Hin).
Qed.

End Words.

Lemma topWords_count_token_occurrences_example :
  total_over (fun m => token_occurrences (H := Utc.host) (lit "hello") (contents m))
    (Summary.messages (buildSummary (H := Utc.host) team_chat_result)) = 1
  /\ is_stopword (lit "hello") = false.
Proof.
  destruct (topWords_count_token_occurrences (H := Utc.host) team_chat_result
              (lit "hello") 1 (fun s _ => eq_refl))
    as (Hstop & _ & Hn & _).
  - vm_compute. left. reflexivity.
  - split; [symmetry; exact Hn | exact Hstop].
Defined.

Section RowWords.
Context `{Host}.

Lemma row_words_NoDup (ms : list Message) :
  forall wc, NoDup (map fst wc) ->
    NoDup (map fst (foldl (fun wc m => count_words (tokenize (contents m)) wc) wc ms)).
Proof.
  induction ms as [|m ms IH]; intros wc Hwc; [exact Hwc|].
  cbn [foldl]. apply IH. now apply count_words_NoDup.
Qed.

Lemma row_words_positive (ms : list Message) :
  forall wc, Forall (fun kv => 1 <= snd kv) wc ->
    Forall (fun kv => 1 <= snd kv)
      (foldl (fun wc m => count_words (tokenize (contents m)) wc) wc ms).
Proof.
  induction ms as [|m ms IH]; intros wc Hwc; [exact Hwc|].
  cbn [foldl]. apply IH. now apply count_words_positive.
Qed.

Lemma row_words_keys (k : jstring) (ms : list Message) :
  forall wc,
    In k (map fst (foldl (fun wc m => count_words (tokenize (contents m)) wc) wc ms)) ->
    In k (map fst wc)
    \/ (exists m, In m ms /\ In k (tokenize (contents m)) /\ is_stopword k = false).
Proof.
  induction ms as [|m ms IH]; intros wc Hk; [now left|].
  cbn [foldl] in Hk. apply IH in Hk as [Hk|(m' & Hm' & Hk)].
  - apply count_words_keys in Hk as [Hk|Hk]; [now left|].
    right. exists m. split; [now left | exact Hk].
  - right. exists m'. split; [now right | exact Hk].
Qed.

Lemma row_words_count (k : jstring) (ms : list Message) :
  is_stopword k = false ->
  forall wc,
    count_of k (foldl (fun wc m => count_words (tokenize (contents m)) wc) wc ms)
    = count_of k wc + total_over (fun m => token_occurrences k (contents m)) ms.
Proof.
  intros Hk. induction ms as [|m ms IH]; intros wc; [unfold total_over; simpl; lia|].
  cbn [foldl]. rewrite IH, (count_words_count k _ Hk).
  unfold total_over, token_occurrences. simpl. lia.
Qed.

(** X16: the [topWords] of a channel row has at most 30 entries, in
    non-increasing order of count and without a repeated key; each is a
    token of at least two units that is neither a stop word nor an emoji
    key, with the number of its occurrences in the messages of the row. *)
Theorem channel_row_topWords (result : ParseResult) (r : ChannelRow.t) :
  In r (byChannel (Summary.stats (buildSummary result))) ->
  ((length (ChannelRow.topWords r) <= 30)%nat
   /\ StronglySorted (fun a b => snd b <= snd a) (ChannelRow.topWords r)
   /\ NoDup (map fst (ChannelRow.topWords r)))
  /\ forall w n, In (w, n) (ChannelRow.topWords r) ->
       (is_stopword w = false /\ re_emoji_key w = false /\ (2 <= length w)%nat)
       /\ n = total_over (fun m => token_occurrences w (contents m))
                (ChannelRow.messages r)
       /\ 1 <= n.
Proof.
  cbn [buildSummary Summary.stats byChannel].
  rewrite in_sort_by, in_map_iff. intros ([k r0] & <- & _).
  cbn [finish_row snd ChannelRow.topWords ChannelRow.messages].
  set (wc := foldl _ [] (ChannelRow.messages r0)).
  pose proof (row_words_NoDup (ChannelRow.messages r0) [] NoDup_nil_2) as N.
  pose proof (row_words_positive (ChannelRow.messages r0) [] (List.Forall_nil _)) as P.
  fold wc in N, P. split; [split; [|split]|].
  - apply take_length_le.
  - apply StronglySorted_take, StronglySorted_filter', sort_by_sorted;
      unfold by_count_desc; intros; lia.
  - apply NoDup_map_take, NoDup_map_filter.
    apply (NoDup_Permutation_proper _ _ (Permutation_map _ (sort_by_Permutation _ _))).
    exact N.
  - intros w n Hin. apply in_take, filter_In in Hin as [Hin Hkey].
    apply in_sort_by in Hin. cbn [fst] in Hkey. apply negb_true_iff in Hkey.
    assert (Hk : In w (map fst wc)) by (apply in_map_iff; exists (w, n); auto).
    apply row_words_keys in Hk as [[]|(m & Hm & Htok & Hstop)].
    split; [split; [exact Hstop|split; [exact Hkey|]]|split].
    + now apply tokenize_token_length in Htok.
    + pose proof (row_words_count w (ChannelRow.messages r0) Hstop []) as E.
      fold wc in E. unfold count_of in E at 1.
      rewrite (lookup_by_unique w n _ N Hin) in E.
      change (count_of w []) with 0 in E. simpl in E. lia.
    + rewrite List.Forall_forall in P. apply (P _ Hin).
Qed.

End RowWords.

Lemma channel_row_topWords_example :
  exists r,
    In r (byChannel (Summary.stats (buildSummary (H := Utc.host) team_chat_result)))
    /\ ChannelRow.topWords r = [(lit "hello", 1)]
    /\ StronglySorted (fun a b => snd b <= snd a) (ChannelRow.topWords r).
Proof.
  set (rows := byChannel (Summary.stats (buildSummary (H := Utc.host) team_chat_result))).
  assert (Hin : In (hd blank_row rows) rows).
  { vm_compute. left. reflexivity. }
  exists (hd blank_row rows). split; [exact Hin|].
  destruct (channel_row_topWords (H := Utc.host) team_chat_result _ Hin)
    as ((_ & Hsorted & _) & _).
  split; [vm_compute; reflexivity | exact Hsorted].
Defined.

(** ** The messages of the pipelines *)

Section Carried.
Context `{Host}.



Lemma setIndexName_messages (i n : option json) (st : ParseResult) :
  messages (setIndexName i n st) = messages st.
Proof. unfold setIndexName. now destruct (_ && _). Qed.

Lemma index_entries_messages (l : list json) :
  forall st, messages (index_entries l st) = messages st.
Proof.
  induction l as [|c l IH]; intros st; [reflexivity|].
  destruct c; simpl; try reflexivity; now rewrite IH, setIndexName_messages.
Qed.

Lemma index_fields_messages (fs : list (jstring * json)) :
  forall st, messages (index_fields fs st) = messages st.
Proof.
  unfold index_fields. induction fs as [|kv fs IH]; intros st; [reflexivity|].
  cbn [foldl]. now rewrite IH.
Qed.

Lemma read_index_messages (f : option File) (st : ParseResult) :
  messages (read_index f st) = messages st.
Proof.
  unfold read_index. destruct f as [f|]; [|reflexivity].
  destruct (content f) as [[| | | |l|fs]|]; try reflexivity.
  - apply index_entries_messages.
  - destruct (assoc _ fs) as [[| | | |l|]|];
      first [apply index_entries_messages | apply index_fields_messages].
Qed.

Variable P : Message -> Prop.
Hypothesis P_named : forall st meta cp m, P (name_message st meta cp m).










End Carried.

Section Named.
Context `{Host}.


End Named.

(** ** Paths *)

Lemma split_on_nonempty (sep : N) (s : jstring) :
  forall cur, split_on sep cur s <> [].
Proof.
  induction s as [|c s IH]; intros cur; simpl; [discriminate|].
  destruct (c =? sep)%N; [discriminate | apply IH].
Qed.

(** Joining the pieces of a split gives the string back. *)
Lemma join_split_slash_from (s : jstring) :
  forall cur, join_slash (split_on 47 cur s) = rev cur ++ s.
Proof.
  induction s as [|c s IH]; intros cur; simpl.
  - now rewrite app_nil_r.
  - destruct (N.eqb_spec c 47) as [->|Hc].
    + pose proof (split_on_nonempty 47 s []) as Hne. specialize (IH []).
      destruct (split_on 47 [] s) as [|p ps]; [contradiction|].
      cbn [join_slash] in *. destruct ps; rewrite IH; reflexivity.
    + rewrite IH. simpl. now rewrite <- app_assoc.
Qed.

Lemma join_split_slash (s : jstring) : join_slash (split_slash s) = s.
Proof. apply (join_split_slash_from s []). Qed.





Lemma join_slash_head (a : jstring) (l : list jstring) :
  l <> [] -> join_slash (a :: l) = a ++ 47%N :: join_slash l.
Proof. destruct l; [contradiction | reflexivity]. Qed.

Lemma slashes_id (p : jstring) :
  Forall (fun u => u <> 92%N) p -> slashes p = p.
Proof.
  unfold slashes. induction 1 as [|u p Hu Hp IH]; [reflexivity|]. simpl.
  rewrite IH. now destruct (N.eqb_spec u 92).
Qed.

Lemma filter_Boolean_id (l : list jstring) :
  Forall (fun seg => seg <> []) l -> filter_Boolean l = l.
Proof.
  unfold filter_Boolean. induction 1 as [|a l Ha Hl IH]; [reflexivity|]. simpl.
  destruct a; [contradiction|]. now rewrite IH.
Qed.

Section ZipPaths.
Context `{Host}.


(** X19: on a path without back slashes and without empty segments,
    the first loop of [parseFileList] classifies a file that [parseZip]
    accepts exactly as [parseZip] does. *)
Theorem list_classify_agrees_on_zip_paths (f : File) (b : bool) (c : Candidate) :
  zip_classify f = Some (b, c) ->
  Forall (fun u => u <> 92%N) (path f) ->
  Forall (fun seg => seg <> []) (split_slash (path f)) ->
  toLowerCase (lit "messages") = lit "messages" ->
  list_classify f = Some (b, c).
Proof.
  intros Hzip Hback Hsegs Hlower. revert Hzip. unfold zip_classify.
  destruct (endsWith (lit ".json") (toLowerCase (path f))) eqn:Hjson; [|discriminate].
  cbn [negb].
  destruct (jstring_eqb (hd [] (split_slash (path f))) (lit "messages")
            && (3 <=? length (split_slash (path f)))%nat) eqn:Hc; [|discriminate].
  intros [= <- <-].
  apply andb_true_iff in Hc as [Hhd Hlen].
  apply jstring_eqb_eq in Hhd.
  pose proof (slashes_id (path f) Hback) as Hslashes.
  pose proof (join_split_slash (path f)) as Hjoin.
  pose proof (filter_Boolean_id _ Hsegs) as Hparts.
  assert (Hpath : list_path f = path f).
  { unfold list_path. rewrite Hslashes, <- Hjoin.
    destruct (split_slash (path f)) as [|a l]; [discriminate Hlen|].
    simpl in Hhd. subst a. destruct l as [|a2 l]; [discriminate Hlen|]. reflexivity. }
  unfold list_classify. rewrite Hpath, Hjson. cbn [negb].
  unfold list_channelPath, list_parts. rewrite Hparts, Hhd, Hlower, Hlen.
  rewrite (jstring_eqb_refl (lit "messages")). cbn [andb].
  destruct (split_slash (path f)) as [|a l]; [discriminate Hlen|].
  simpl in Hhd. subst a. destruct l as [|a2 l]; [discriminate Hlen|].
  destruct l as [|a3 l]; [discriminate Hlen|].
  change (removelast (lit "messages" :: a2 :: a3 :: l))
    with (lit "messages" :: removelast (a2 :: a3 :: l)).
  rewrite join_slash_head by (simpl; destruct l; discriminate).
  reflexivity.
Qed.

End ZipPaths.


Lemma list_classify_agrees_on_zip_paths_example :
  let f := file "messages/42/channel.json" None in
  exists c,
    zip_classify (H := Utc.host) f = Some (true, c)
    /\ list_classify (H := Utc.host) f = Some (true, c).
Proof.
  intros f.
  exists {| cand_path := path f; channelPath := lit "messages/42"; cand_file := f |}.
  assert (E : zip_classify (H := Utc.host) f
              = Some (true, {| cand_path := path f; channelPath := lit "messages/42";
                               cand_file := f |})) by (vm_compute; reflexivity).
  split; [exact E|].
  apply (list_classify_agrees_on_zip_paths (H := Utc.host) f true _ E).
  - vm_compute. repeat constructor; discriminate.
  - vm_compute. repeat constructor; discriminate.
  - reflexivity.
Defined.

(** ** The channel index *)

Section Index.
Context `{Host}.

(** The state apart from the names: what the index pass leaves alone. *)
Lemma setIndexName_rest (i n : option json) (st : ParseResult) :
  let st' := setIndexName i n st in
  messages st' = messages st /\ channels st' = channels st
  /\ channelMetaByPath st' = channelMetaByPath st
  /\ guilds st' = guilds st /\ account st' = account st
  /\ forall k, is_Some (channelIdToName st !! k) -> is_Some (channelIdToName st' !! k).
Proof.
  unfold setIndexName. destruct (_ && _); cbn; repeat split; auto.
  intros k Hk. destruct (decide (default [] (js_String <$> i) = k)) as [<-|Hne].
  - rewrite lookup_insert_eq. eauto.
  - now rewrite lookup_insert_ne.
Qed.

Lemma index_entries_rest (l : list json) :
  forall st,
    let st' := index_entries l st in
    messages st' = messages st /\ channels st' = channels st
    /\ channelMetaByPath st' = channelMetaByPath st
    /\ guilds st' = guilds st /\ account st' = account st
    /\ forall k, is_Some (channelIdToName st !! k) -> is_Some (channelIdToName st' !! k).
Proof.
  induction l as [|c l IH]; intros st; [cbn; repeat split; auto|].
  assert (Hstep : forall i n,
             let st' := index_entries l (setIndexName i n st) in
             messages st' = messages st /\ channels st' = channels st
             /\ channelMetaByPath st' = channelMetaByPath st
             /\ guilds st' = guilds st /\ account st' = account st
             /\ forall k, is_Some (channelIdToName st !! k) ->
                  is_Some (channelIdToName st' !! k)).
  { intros i n.
    destruct (IH (setIndexName i n st)) as (E1 & E2 & E3 & E4 & E5 & E6).
    destruct (setIndexName_rest i n st) as (F1 & F2 & F3 & F4 & F5 & F6).
    cbv zeta. rewrite E1, E2, E3, E4, E5. repeat split; auto. }
  destruct c; cbn [index_entries]; first [apply Hstep | cbn; repeat split; auto].
Qed.

Lemma index_fields_rest (fs : list (jstring * json)) :
  forall st,
    let st' := index_fields fs st in
    messages st' = messages st /\ channels st' = channels st
    /\ channelMetaByPath st' = channelMetaByPath st
    /\ guilds st' = guilds st /\ account st' = account st
    /\ forall k, is_Some (channelIdToName st !! k) -> is_Some (channelIdToName st' !! k).
Proof.
  unfold index_fields. induction fs as [|[k0 v0] fs IH]; intros st;
    [cbn; repeat split; auto|].
  cbn [foldl]. cbv zeta.
  match goal with |- context [foldl ?g (set_names ?h st) fs] =>
    destruct (IH (set_names h st)) as (E1 & E2 & E3 & E4 & E5 & E6)
  end.
  rewrite E1, E2, E3, E4, E5. repeat split; auto.
  intros k Hk. apply E6. cbn [set_names channelIdToName fst].
  destruct (decide (k0 = k)) as [<-|Hne].
  - rewrite lookup_insert_eq. eauto.
  - now rewrite lookup_insert_ne.
Qed.

(** X20: reading the index only names channels: it leaves the messages,
    the channel list, the metadata, the guilds and the account as they are,
    and a channel that has a name keeps having one. *)
Theorem read_index_only_names (indexFile : option File) (st : ParseResult) :
  let st' := read_index indexFile st in
  messages st' = messages st /\ channels st' = channels st
  /\ channelMetaByPath st' = channelMetaByPath st
  /\ guilds st' = guilds st /\ account st' = account st
  /\ forall k, is_Some (channelIdToName st !! k) -> is_Some (channelIdToName st' !! k).
Proof.
  unfold read_index. destruct indexFile as [f|]; [|cbn; repeat split; auto].
  destruct (content f) as [[| | | |l|fs]|]; try (cbn; repeat split; auto; fail).
  - apply index_entries_rest.
  - destruct (assoc _ fs) as [[| | | |l|]|];
      first [apply index_entries_rest | apply index_fields_rest].
Qed.



End Index.


(** ** Account data *)

Section Frames.
Context `{Host}.

(** What the message loops leave alone. *)
Lemma push_messages_frame (meta : Meta.t) (cp : jstring) (data : list json) :
  forall st,
    let st' := fst (push_messages meta cp data st) in
    channels st' = channels st /\ channelMetaByPath st' = channelMetaByPath st
    /\ channelIdToName st' = channelIdToName st
    /\ guilds st' = guilds st /\ account st' = account st.
Proof.
  induction data as [|msg data IH]; intros st; simpl; [auto|].
  destruct (normalizeMessage msg) as [m|]; [|simpl; auto].
  destruct (IH (push_message (name_message st meta cp m) st)) as (E1 & E2 & E3 & E4 & E5).
  cbv zeta in *. rewrite E1, E2, E3, E4, E5. auto.
Qed.

Lemma read_messages_frame (getMeta : ParseResult -> jstring -> Meta.t)
    (c : Candidate) (st : ParseResult) :
  let st' := fst (read_messages getMeta c st) in
  channels st' = channels st /\ channelMetaByPath st' = channelMetaByPath st
  /\ channelIdToName st' = channelIdToName st
  /\ guilds st' = guilds st /\ account st' = account st.
Proof.
  unfold read_messages.
  destruct (content (cand_file c)) as [data|]; [|simpl; auto].
  destruct (isMessageArray data); [|simpl; auto].
  destruct data; try (simpl; auto; fail). apply push_messages_frame.
Qed.

Lemma zip_message_loop_frame (total : Z) (cs : list Candidate) :
  forall i st,
    let st' := fst (zip_message_loop total i cs st) in
    channels st' = channels st /\ channelMetaByPath st' = channelMetaByPath st
    /\ channelIdToName st' = channelIdToName st
    /\ guilds st' = guilds st /\ account st' = account st.
Proof.
  induction cs as [|c cs IH]; intros i st; [simpl; auto|]. simpl.
  pose proof (read_messages_frame zip_getMeta c st) as Hc.
  destruct (read_messages zip_getMeta c st) as [st' reached].
  specialize (IH (i + 1) st').
  destruct (zip_message_loop total (i + 1) cs st') as [st'' reports].
  cbn [fst] in *. destruct IH as (E1 & E2 & E3 & E4 & E5).
  destruct Hc as (F1 & F2 & F3 & F4 & F5).
  rewrite E1, E2, E3, E4, E5. auto.
Qed.

Lemma list_message_loop_frame (total : Z) (cs : list Candidate) :
  forall i st,
    let st' := fst (list_message_loop total i cs st) in
    channels st' = channels st /\ channelMetaByPath st' = channelMetaByPath st
    /\ channelIdToName st' = channelIdToName st
    /\ guilds st' = guilds st /\ account st' = account st.
Proof.
  induction cs as [|c cs IH]; intros i st; [simpl; auto|]. simpl.
  pose proof (read_messages_frame list_getMeta c st) as Hc.
  destruct (read_messages list_getMeta c st) as [st' reached].
  specialize (IH (i + 1) st').
  destruct (list_message_loop total (i + 1) cs st') as [st'' reports].
  cbn [fst] in *. destruct IH as (E1 & E2 & E3 & E4 & E5).
  destruct Hc as (F1 & F2 & F3 & F4 & F5).
  rewrite E1, E2, E3, E4, E5. auto.
Qed.

(** A metadata step keeps a property of the guild table and the account. *)
Lemma meta_step_account (by_id : bool) (st : ParseResult) (c : Candidate) :
  account (meta_step by_id st c) = account st.
Proof.
  unfold meta_step, read_meta.
  destruct (content (cand_file c)) as [data|]; [|reflexivity].
  destruct (isChannelMeta data); [|reflexivity].
  destruct (normalizeChannelMeta data); reflexivity.
Qed.

Lemma zip_meta_loop_account (cs : list Candidate) :
  forall st, account (zip_meta_loop cs st) = account st.
Proof.
  unfold zip_meta_loop. induction cs as [|c cs IH]; intros st; [reflexivity|].
  cbn [foldl]. rewrite IH. apply (meta_step_account false).
Qed.

Lemma list_meta_loop_account (total : Z) (cs : list Candidate) :
  forall i st, account (fst (list_meta_loop total i cs st)) = account st.
Proof.
  induction cs as [|c cs IH]; intros i st; [reflexivity|]. simpl.
  pose proof (meta_step_account true st c) as Hc. unfold meta_step in Hc.
  destruct (read_meta true c st) as [st'|].
  - specialize (IH (i + 1) st').
    destruct (list_meta_loop total (i + 1) cs st') as [st'' reports].
    cbn [fst] in *. congruence.
  - specialize (IH (i + 1) st).
    destruct (list_meta_loop total (i + 1) cs st) as [st'' reports]. exact IH.
Qed.

Lemma read_index_frame (f : option File) (st : ParseResult) :
  guilds (read_index f st) = guilds st /\ account (read_index f st) = account st
  /\ channels (read_index f st) = channels st.
Proof.
  unfold read_index. destruct f as [f|]; [|auto].
  destruct (content f) as [[| | | |l|fs]|]; auto.
  - destruct (index_entries_rest l st) as (_ & E2 & _ & E4 & E5 & _). auto.
  - destruct (assoc _ fs) as [[| | | |l|]|].
    all: first [destruct (index_entries_rest l st) as (_ & E2 & _ & E4 & E5 & _)
               | destruct (index_fields_rest fs st) as (_ & E2 & _ & E4 & E5 & _)]; auto.
Qed.

Lemma zip_account_first (files : list File) :
  zip_account files = head (omap content (List.filter zip_is_account files)).
Proof.
  induction files as [|f files IH]; [reflexivity|]. simpl.
  destruct (zip_is_account f); [|exact IH]. simpl.
  destruct (content f); [reflexivity | exact IH].
Qed.

(** X22: the account data: [parseZip] takes the first account file that
    can be read and parsed, [parseFileList] only ever tries the first account
    file, and has no account data when that one cannot be read. *)
Theorem account_file_selection (files : list File) :
  Summary.account (fst (parseZip files))
  = head (omap content (List.filter zip_is_account files))
  /\ Summary.account (fst (parseFileList files))
     = List.find list_is_account files ≫= content.
Proof.
  split.
  - unfold parseZip.
    destruct (zip_message_loop _ 0 _ _) as [st reports].
    cbn [fst buildSummary Summary.account].
    destruct (read_index_frame (List.find zip_is_index files)
                (set_account (zip_account files) st)) as (_ & E & _).
    rewrite E. cbn [set_account account]. apply zip_account_first.
  - unfold parseFileList.
    pose proof (list_meta_loop_account
                  (Z.of_nat (length (meta_candidates (omap list_classify files))))
                  (meta_candidates (omap list_classify files)) 0 empty_result) as Hmeta.
    destruct (list_meta_loop _ 0 _ _) as [st0 metaReports]. cbn [fst] in Hmeta.
    destruct (list_message_loop_frame
                (Z.of_nat (length (list_message_candidates files)))
                (list_message_candidates files) 0 st0) as (_ & _ & _ & _ & Hloop).
    destruct (list_message_loop _ 0 _ _) as [st reports].
    cbn [fst buildSummary Summary.account] in *.
    match goal with |- account (read_index ?f ?s) = _ =>
      destruct (read_index_frame f s) as (_ & E & _) end.
    rewrite E.
    destruct (List.find list_is_account files) as [f|]; cbn [mbind option_bind].
    + destruct (content f); [reflexivity|]. now rewrite Hloop, Hmeta.
    + now rewrite Hloop, Hmeta.
Qed.

End Frames.

(** ** Guilds *)

Section Guilds.
Context `{Host}.

Lemma register_meta_guilds (by_id : bool) (cp : jstring) (meta : Meta.t)
    (st : ParseResult) :
  guild_table (guilds st) -> guild_table (guilds (register_meta by_id cp meta st)).
Proof.
  intros [Hnd Hf]. cbn [register_meta guilds].
  destruct (Meta.guildId meta) as [[|c g]|]; try (split; assumption).
  destruct (Meta.guildName meta) as [[|d n]|]; try (split; assumption).
  split.
  - now apply upsert_keys_NoDup.
  - apply Forall_upsert; [| |exact Hf]; cbn; intros; repeat split; discriminate.
Qed.

Lemma meta_step_guilds (by_id : bool) (st : ParseResult) (c : Candidate) :
  guild_table (guilds st) -> guild_table (guilds (meta_step by_id st c)).
Proof.
  intros Hst. unfold meta_step, read_meta.
  destruct (content (cand_file c)) as [data|]; [|exact Hst].
  destruct (isChannelMeta data); [|exact Hst].
  destruct (normalizeChannelMeta data); [|exact Hst].
  now apply register_meta_guilds.
Qed.

Lemma zip_meta_loop_guilds (cs : list Candidate) :
  forall st, guild_table (guilds st) -> guild_table (guilds (zip_meta_loop cs st)).
Proof.
  unfold zip_meta_loop. induction cs as [|c cs IH]; intros st Hst; [exact Hst|].
  cbn [foldl]. apply IH. now apply (meta_step_guilds false).
Qed.

Lemma list_meta_loop_guilds (total : Z) (cs : list Candidate) :
  forall i st, guild_table (guilds st) ->
    guild_table (guilds (fst (list_meta_loop total i cs st))).
Proof.
  induction cs as [|c cs IH]; intros i st Hst; [exact Hst|]. simpl.
  pose proof (meta_step_guilds true st c Hst) as Hc. unfold meta_step in Hc.
  destruct (read_meta true c st) as [st'|].
  - specialize (IH (i + 1) st' Hc).
    destruct (list_meta_loop total (i + 1) cs st') as [st'' reports]. exact IH.
  - specialize (IH (i + 1) st Hst).
    destruct (list_meta_loop total (i + 1) cs st) as [st'' reports]. exact IH.
Qed.

Lemma guild_table_summary (l : list (jstring * (jstring * jstring))) :
  guild_table l ->
  NoDup (map fst (map snd l))
  /\ Forall (fun g => fst g <> [] /\ snd g <> []) (map snd l).
Proof.
  intros [Hnd Hf]. rewrite List.Forall_forall in Hf. split.
  - replace (map fst (map snd l)) with (map fst l); [exact Hnd|].
    rewrite map_map. apply map_ext_in. intros kv Hkv.
    now destruct (Hf _ Hkv) as (E & _).
  - rewrite List.Forall_forall. intros g Hg.
    apply in_map_iff in Hg as (kv & <- & Hkv).
    destruct (Hf _ Hkv) as (E & Hk & Hn).
    split; [|exact Hn]. intros E0. apply Hk. etransitivity; [symmetry; exact E | exact E0].
Qed.

(** X23: the guild list of a summary has one entry for each guild ID,
    each with a non-empty ID and a non-empty name. *)
Theorem summary_guilds_distinct (files : list File) :
  let listed gs :=
    NoDup (map fst gs) /\ Forall (fun g : jstring * jstring => fst g <> [] /\ snd g <> []) gs in
  listed (Summary.guilds (fst (parseZip files)))
  /\ listed (Summary.guilds (fst (parseFileList files))).
Proof.
  intros listed.
  assert (Hempty : guild_table (guilds empty_result)).
  { split; [apply NoDup_nil_2 | constructor]. }
  split.
  - unfold parseZip.
    pose proof (zip_meta_loop_guilds (meta_candidates (omap zip_classify files))
                  empty_result Hempty) as Hmeta.
    destruct (zip_message_loop_frame
                (Z.of_nat (length (map snd (omap zip_classify files))))
                (map snd (omap zip_classify files)) 0
                (zip_meta_loop (meta_candidates (omap zip_classify files)) empty_result))
      as (_ & _ & _ & Hloop & _).
    destruct (zip_message_loop _ 0 _ _) as [st reports].
    cbn [fst buildSummary Summary.guilds] in *.
    match goal with |- listed (map snd (guilds (read_index ?f ?s))) =>
      destruct (read_index_frame f s) as (E & _) end.
    rewrite E. cbn [set_account guilds]. rewrite Hloop.
    now apply guild_table_summary.
  - unfold parseFileList.
    pose proof (list_meta_loop_guilds
                  (Z.of_nat (length (meta_candidates (omap list_classify files))))
                  (meta_candidates (omap list_classify files)) 0 empty_result Hempty)
      as Hmeta.
    destruct (list_meta_loop _ 0 _ _) as [st0 metaReports]. cbn [fst] in Hmeta.
    destruct (list_message_loop_frame
                (Z.of_nat (length (list_message_candidates files)))
                (list_message_candidates files) 0 st0) as (_ & _ & _ & Hloop & _).
    destruct (list_message_loop _ 0 _ _) as [st reports].
    cbn [fst buildSummary Summary.guilds] in *.
    match goal with |- listed (map snd (guilds (read_index ?f ?s))) =>
      destruct (read_index_frame f s) as (E & _) end.
    rewrite E.
    assert (Hg : guild_table (guilds st)) by now rewrite Hloop.
    apply guild_table_summary.
    destruct (List.find list_is_account files) as [f|]; [|exact Hg].
    destruct (content f); exact Hg.
Qed.

(** X24: on an export without a channel file, [parseZip] reads no
    message and no channel, and its progress reports are the fixed ones
    0, 5, 10, 80 and 95. *)
Theorem parseZip_without_channel_files (files : list File) :
  Forall (fun f => zip_classify f = None) files ->
  let s := fst (parseZip files) in
  Summary.messages s = [] /\ Summary.channels s = []
  /\ totalMessages (Summary.stats s) = 0 /\ byChannel (Summary.stats s) = []
  /\ snd (parseZip files) = map inject_Z [0; 5; 10; 80; 95].
Proof.
  intros Hnone.
  assert (E : omap zip_classify files = []).
  { induction Hnone as [|f files Hf _ IH]; [reflexivity|]. simpl. now rewrite Hf. }
  unfold parseZip. rewrite E. cbn [map meta_candidates List.filter zip_meta_loop foldl
    zip_message_loop length fst snd app].
  match goal with |- context [read_index ?f ?s] =>
    pose proof (read_index_messages f s) as Em;
    destruct (read_index_frame f s) as (_ & _ & Ec)
  end.
  cbn [buildSummary Summary.messages Summary.channels Summary.stats totalMessages byChannel].
  rewrite Em, Ec. cbn. repeat split.
Qed.

End Guilds.

Lemma parseZip_without_channel_files_example :
  Summary.messages (fst (parseZip (H := Utc.host) loose_export)) = []
  /\ snd (parseZip (H := Utc.host) loose_export) = map inject_Z [0; 5; 10; 80; 95].
Proof.
  destruct (parseZip_without_channel_files (H := Utc.host) loose_export)
    as (Hm & _ & _ & _ & Hr).
  - vm_compute. repeat constructor.
  - split; [exact Hm | exact Hr].
Defined.

(** ** The load screen *)



Section LoadProgress.
Context `{Host}.






End LoadProgress.

(** ** The list of all messages *)

Lemma buckets_nil {A} (key : A -> jstring) (ks : list jstring) :
  flat_map (fun k => List.filter (fun a => jstring_eqb (key a) k) []) ks = [].
Proof. induction ks as [|k ks IH]; [reflexivity | exact IH]. Qed.

Lemma buckets_cons_out {A} (key : A -> jstring) (a : A) (l : list A) (ks : list jstring) :
  ~ In (key a) ks ->
  flat_map (fun k => List.filter (fun x => jstring_eqb (key x) k) (a :: l)) ks
  = flat_map (fun k => List.filter (fun x => jstring_eqb (key x) k) l) ks.
Proof.
  intros Hout. induction ks as [|k ks IH]; [reflexivity|].
  cbn [flat_map]. rewrite IH by (intros Hin; apply Hout; now right).
  cbn [List.filter]. rewrite jstring_eqb_neq; [reflexivity|].
  intros E. apply Hout. now left.
Qed.

Lemma buckets_cons_in {A} (key : A -> jstring) (a : A) (l : list A) (ks : list jstring) :
  NoDup ks -> In (key a) ks ->
  Permutation
    (flat_map (fun k => List.filter (fun x => jstring_eqb (key x) k) (a :: l)) ks)
    (a :: flat_map (fun k => List.filter (fun x => jstring_eqb (key x) k) l) ks).
Proof.
  induction ks as [|k ks IH]; intros Hnd Hin; [destruct Hin|].
  apply NoDup_cons in Hnd as [Hk Hnd]. cbn [flat_map].
  destruct (jstring_eqb (key a) k) eqn:E.
  - apply jstring_eqb_eq in E. subst k.
    rewrite buckets_cons_out by (now rewrite <- list_elem_of_In).
    cbn [List.filter]. now rewrite (jstring_eqb_refl (key a)).
  - destruct Hin as [Hin|Hin].
    { rewrite Hin in E. rewrite (jstring_eqb_refl (key a)) in E. discriminate. }
    rewrite (IH Hnd Hin). cbn [List.filter]. rewrite E.
    symmetry. apply Permutation_middle.
Qed.

(** Sorting a list into the buckets of its keys and reading the buckets
    one after the other gives the list back, up to the order. *)
Lemma buckets_Permutation {A} (key : A -> jstring) (ks : list jstring) (l : list A) :
  NoDup ks ->
  (forall a, In a l -> In (key a) ks) ->
  Permutation (flat_map (fun k => List.filter (fun a => jstring_eqb (key a) k) l) ks) l.
Proof.
  intros Hnd. induction l as [|a l IH]; intros Hcov.
  - now rewrite buckets_nil.
  - rewrite buckets_cons_in; [|exact Hnd | apply Hcov; now left].
    constructor. apply IH. intros x Hx. apply Hcov. now right.
Qed.

Section AllMessages.
Context `{Host}.

(** X26: the list of all messages of the insights view holds each
    message of the summary once: flattening the channel rows loses and
    repeats nothing. *)
Theorem getAllMessages_lists_each_message_once (result : ParseResult) :
  Permutation
    (Insights.getAllMessages (byChannel (Summary.stats (buildSummary result))))
    (Summary.messages (buildSummary result)).
Proof.
  cbn [buildSummary Summary.stats Summary.messages byChannel].
  destruct (byChannel_rows result) as (Hnd & Hcov & Hrows).
  set (kept := List.filter has_valid_timestamp (messages result)) in *.
  set (acc := foldl (summarize_step result) initial_acc kept) in *.
  unfold Insights.getAllMessages.
  rewrite !flat_map_concat_map.
  rewrite (Permutation_map ChannelRow.messages (sort_by_Permutation _ _)).
  rewrite map_map.
  assert (E : map (fun kv => ChannelRow.messages (finish_row (snd kv))) (acc_byChannel acc)
              = map (fun k => List.filter (fun m => jstring_eqb (channel_key m) k) kept)
                  (map fst (acc_byChannel acc))).
  { rewrite map_map. apply map_ext_in. intros kv Hkv.
    rewrite List.Forall_forall in Hrows. now destruct (Hrows _ Hkv) as (_ & E2 & _). }
  rewrite E, <- flat_map_concat_map.
  apply buckets_Permutation; assumption.
Qed.

End AllMessages.

(** ** CSV export *)

Lemma csv_read_plain (s : jstring) :
  existsb Csv.is_special s = false ->
  forall cur rest,
    Csv.read_from cur false (s ++ rest) = Csv.read_from (rev s ++ cur) false rest.
Proof.
  induction s as [|c s IH]; intros Hs cur rest; [reflexivity|].
  simpl in Hs. apply orb_false_iff in Hs as [Hc Hs].
  unfold Csv.is_special in Hc.
  apply orb_false_iff in Hc as [Hc _]. apply orb_false_iff in Hc as [Hc _].
  apply orb_false_iff in Hc as [H34 H44].
  cbn [app Csv.read_from]. rewrite H44, H34, (IH Hs). cbn [rev]. now rewrite <- app_assoc.
Qed.

Lemma csv_read_quoted (s : jstring) :
  forall cur rest,
    match rest with c :: _ => (c =? 34)%N = false | [] => True end ->
    Csv.read_from cur true (Csv.double_quotes s ++ 34%N :: rest)
    = match rest with
      | [] => [rev (rev s ++ cur)]
      | _ => Csv.read_from (rev s ++ cur) false rest
      end.
Proof.
  induction s as [|c s IH]; intros cur rest Hrest.
  - cbn [Csv.double_quotes app Csv.read_from rev]. rewrite N.eqb_refl.
    destruct rest as [|c' r']; [reflexivity|]. now rewrite Hrest.
  - cbn [Csv.double_quotes]. destruct (N.eqb_spec c 34) as [->|Hc].
    + cbn [app Csv.read_from]. rewrite !N.eqb_refl. rewrite (IH _ _ Hrest).
      cbn [rev]. rewrite <- !app_assoc. reflexivity.
    + cbn [app Csv.read_from]. apply N.eqb_neq in Hc. rewrite Hc, (IH _ _ Hrest).
      cbn [rev]. rewrite <- !app_assoc. reflexivity.
Qed.

Section CsvLine.
Context `{Host}.

Lemma csv_read_escape_last (v : option json) :
  Csv.read_from [] false (Csv.escape v) = [Csv.cell v].
Proof.
  unfold Csv.escape. cbv zeta. destruct (existsb Csv.is_special (Csv.cell v)) eqn:E.
  - cbn [Csv.read_from]. cbn [N.eqb Pos.eqb].
    rewrite (csv_read_quoted (Csv.cell v) [] [] I). now rewrite app_nil_r, rev_involutive.
  - rewrite <- (app_nil_r (Csv.cell v)) at 1. rewrite (csv_read_plain _ E).
    cbn [Csv.read_from]. now rewrite app_nil_r, rev_involutive.
Qed.

Lemma csv_read_escape_more (v : option json) (rest : jstring) :
  Csv.read_from [] false (Csv.escape v ++ 44%N :: rest)
  = Csv.cell v :: Csv.read_from [] false rest.
Proof.
  unfold Csv.escape. cbv zeta. destruct (existsb Csv.is_special (Csv.cell v)) eqn:E.
  - cbn [app Csv.read_from]. cbn [N.eqb Pos.eqb]. rewrite <- app_assoc. cbn [app].
    rewrite (csv_read_quoted (Csv.cell v) [] (44%N :: rest)) by reflexivity.
    cbn [Csv.read_from]. cbn [N.eqb Pos.eqb]. now rewrite app_nil_r, rev_involutive.
  - rewrite (csv_read_plain _ E). cbn [Csv.read_from]. cbn [N.eqb Pos.eqb].
    now rewrite app_nil_r, rev_involutive.
Qed.

(** X27: a line written by [downloadCsv] reads back, field by field, as
    the strings of its values: quoting keeps the commas, quotes and line
    breaks of a value inside its field. *)
Theorem csv_line_reads_back (v : option json) (arr : list (option json)) :
  Csv.read (Csv.line (v :: arr)) = map Csv.cell (v :: arr).
Proof.
  unfold Csv.read, Csv.line. revert v. induction arr as [|w arr IH]; intros v.
  - cbn [map Csv.join]. apply csv_read_escape_last.
  - change (Csv.join (lit ",") (map Csv.escape (v :: w :: arr)))
      with (Csv.escape v ++ 44%N :: Csv.join (lit ",") (map Csv.escape (w :: arr))).
    rewrite csv_read_escape_more, IH. reflexivity.
Qed.

End CsvLine.

(** ** The heat map *)

Lemma maxHour_bounds (l : list (Z * Z)) :
  1 <= Activity.maxHour l
  /\ Forall (fun kv => snd kv <= Activity.maxHour l) l
  /\ (Activity.maxHour l = 1 \/ exists kv, In kv l /\ snd kv = Activity.maxHour l).
Proof.
  unfold Activity.maxHour. induction l as [|[k v] l (IH1 & IH2 & IH3)]; simpl.
  - split; [lia|]. split; [constructor | now left].
  - split; [lia|]. split.
    + constructor; [simpl; lia|].
      eapply Forall_impl; [exact IH2|]. simpl. intros kv Hkv. lia.
    + destruct (Z.max_spec v (foldr Z.max 1 (map snd l))) as [[Hlt ->]|[Hge ->]].
      * destruct IH3 as [E|(kv & Hin & E)]; [now left|].
        right. exists kv. split; [now right | exact E].
      * right. exists (k, v). split; [now left | reflexivity].
Qed.

Section Heatmap.
Context `{Host}.

Lemma byHour_counts_nonneg (result : ParseResult) :
  Forall (fun kv => 0 <= snd kv) (byHour (Summary.stats (buildSummary result))).
Proof.
  cbn [buildSummary Summary.stats byHour].
  set (kept := List.filter has_valid_timestamp (messages result)).
  destruct (summarize_tables result kept (kept_messages_valid result) initial_acc)
    as (_ & E2 & _).
  destruct (summarize_tables_NoDup result kept initial_acc initial_acc_NoDup)
    as (_ & N2 & _).
  rewrite List.Forall_forall. intros [h n] Hin. apply in_sort_by in Hin.
  specialize (E2 h).
  rewrite (lookup_by_unique_gen Z.eqb Z.eqb_eq h n _ N2 Hin) in E2.
  cbn [initial_acc acc_byHour] in E2. rewrite zero_buckets_lookup in E2.
  simpl in *. lia.
Qed.

Lemma byHour_total (result : ParseResult) :
  total_over (fun kv => snd kv) (byHour (Summary.stats (buildSummary result)))
  = totalMessages (Summary.stats (buildSummary result)).
Proof.
  cbn [buildSummary Summary.stats totalMessages byHour].
  destruct (summarize_totals result _ (kept_messages_valid result) initial_acc)
    as (_ & _ & _ & _ & _ & E6 & _).
  rewrite total_over_sort_by, E6. cbn [initial_acc acc_byHour].
  rewrite total_over_zero_buckets. lia.
Qed.

(** X28: the heat map of the activity view: the divisor is at least 1,
    every intensity lies between 0 and 1, and once a message is kept some
    hour has intensity 1. *)
Theorem heatmap_intensity_in_unit_interval (result : ParseResult) :
  let s := Summary.stats (buildSummary result) in
  let m := Activity.maxHour (byHour s) in
  1 <= m
  /\ Forall (fun kv => Qle (inject_Z 0) (Activity.intensity m (snd kv))
                       /\ Qle (Activity.intensity m (snd kv)) (inject_Z 1)) (byHour s)
  /\ (1 <= totalMessages s ->
      exists kv, In kv (byHour s) /\ Qeq (Activity.intensity m (snd kv)) (inject_Z 1)).
Proof.
  intros s m.
  destruct (maxHour_bounds (byHour s)) as (Hm & Hle & Hmax). fold m in Hm, Hle, Hmax.
  pose proof (byHour_counts_nonneg result) as Hpos. fold s in Hpos.
  assert (Hint : forall n, Activity.intensity m n == inject_Z n / inject_Z m).
  { intros n. unfold Activity.intensity. destruct (Z.eqb_spec m 0); [lia | reflexivity]. }
  assert (Hm0 : ~ inject_Z m == 0).
  { intros E. unfold Qeq in E. simpl in E. lia. }
  assert (Hmpos : (0 < inject_Z m)%Q).
  { unfold Qlt. simpl. lia. }
  split; [exact Hm|]. split.
  - rewrite List.Forall_forall in *. intros kv Hkv.
    specialize (Hle kv Hkv). specialize (Hpos kv Hkv). rewrite Hint. split.
    + apply Qle_shift_div_l; [exact Hmpos|]. rewrite Qmult_0_l.
      now rewrite <- (Zle_Qle 0).
    + apply Qle_shift_div_r; [exact Hmpos|]. rewrite Qmult_1_l. now rewrite <- Zle_Qle.
  - intros Htot.
    destruct Hmax as [E|(kv & Hin & E)].
    + pose proof (byHour_total result) as Hsum. fold s in Hsum.
      assert (exists kv, In kv (byHour s) /\ 1 <= snd kv) as (kv & Hin & Hkv).
      { clear - Hsum Htot Hpos. rewrite <- Hsum in Htot. clear Hsum.
        unfold total_over in Htot.
        induction (byHour s) as [|kv l IH]; simpl in Htot; [lia|].
        apply Forall_cons_1 in Hpos as [Hkv Hl].
        destruct (Z.le_gt_cases 1 (snd kv)) as [Hge|Hlt].
        - exists kv. split; [now left | exact Hge].
        - destruct IH as (kv' & Hin & Hkv'); [exact Hl | lia |].
          exists kv'. split; [now right | exact Hkv']. }
      exists kv. split; [exact Hin|].
      rewrite List.Forall_forall in Hle. specialize (Hle kv Hin).
      rewrite Hint. assert (snd kv = m) as -> by lia. field. exact Hm0.
    + exists kv. split; [exact Hin|]. rewrite Hint, E. field. exact Hm0.
Qed.

End Heatmap.

(** ** Date keys *)

(** The decimal forms of the numbers of a range, checked by evaluation. *)
Lemma forallb_range (p : Z -> bool) (lo n : Z) :
  forallb p (map (fun i => lo + Z.of_nat i) (seq 0 (Z.to_nat n))) = true ->
  forall z, lo <= z < lo + n -> p z = true.
Proof.
  intros Hall z Hz. rewrite forallb_forall in Hall. apply Hall.
  apply in_map_iff. exists (Z.to_nat (z - lo)). split; [lia|]. apply in_seq. lia.
Qed.

Lemma two_digits (n : Z) :
  0 <= n <= 99 ->
  exists a b, padStart2 (Number_toString n) = [a; b] /\ is_digit a = true /\ is_digit b = true.
Proof.
  intros Hn.
  set (p := fun z => match padStart2 (Number_toString z) with
                     | [a; b] => is_digit a && is_digit b
                     | _ => false
                     end).
  assert (E : p n = true).
  { apply (forallb_range p 0 100); [vm_compute; reflexivity | lia]. }
  unfold p in E. destruct (padStart2 (Number_toString n)) as [|a [|b [|c l]]];
    try discriminate E.
  apply andb_true_iff in E as [Ha Hb]. eauto.
Qed.

Lemma four_digits (n : Z) :
  1000 <= n <= 9999 ->
  exists a b c d, Number_toString n = [a; b; c; d]
    /\ is_digit a = true /\ is_digit b = true /\ is_digit c = true /\ is_digit d = true.
Proof.
  intros Hn.
  set (p := fun z => match Number_toString z with
                     | [a; b; c; d] => is_digit a && is_digit b && is_digit c && is_digit d
                     | _ => false
                     end).
  assert (E : p n = true).
  { apply (forallb_range p 1000 9000); [vm_compute; reflexivity | lia]. }
  unfold p in E. destruct (Number_toString n) as [|a [|b [|c [|d [|e l]]]]];
    try discriminate E.
  apply andb_true_iff in E as [E Hd]. apply andb_true_iff in E as [E Hc].
  apply andb_true_iff in E as [Ha Hb].
  exists a, b, c, d. auto.
Qed.

Section DateKey.
Context `{Host}.

(** X29: [getLocalDateKey] gives [null] for a missing or invalid date;
    for a valid one whose local year has four digits, the ten units
    [YYYY-MM-DD] of the local year, month (from 01) and day. *)
Theorem getLocalDateKey_format (ts : option Date) :
  (ts = None \/ ts ≫= getTime = None -> getLocalDateKey ts = None)
  /\ forall d t,
       ts = Some d -> getTime d = Some t ->
       1000 <= getFullYear t <= 9999 -> 0 <= getMonth t <= 11 -> 1 <= getDate t <= 31 ->
       exists y1 y2 y3 y4 m1 m2 d1 d2,
         getLocalDateKey ts = Some [y1; y2; y3; y4; 45%N; m1; m2; 45%N; d1; d2]
         /\ Number_toString (getFullYear t) = [y1; y2; y3; y4]
         /\ padStart2 (Number_toString (getMonth t + 1)) = [m1; m2]
         /\ padStart2 (Number_toString (getDate t)) = [d1; d2]
         /\ forallb is_digit [y1; y2; y3; y4; m1; m2; d1; d2] = true.
Proof.
  split.
  - intros [->|E]; [reflexivity|]. unfold getLocalDateKey.
    destruct ts as [d|]; [|reflexivity]. simpl in E. now rewrite E.
  - intros d t -> Et Hy Hm Hd. unfold getLocalDateKey. rewrite Et.
    destruct (four_digits _ Hy) as (y1 & y2 & y3 & y4 & Ey & H1 & H2 & H3 & H4).
    destruct (two_digits (getMonth t + 1)) as (m1 & m2 & Em & H5 & H6); [lia|].
    destruct (two_digits (getDate t)) as (d1 & d2 & Ed & H7 & H8); [lia|].
    exists y1, y2, y3, y4, m1, m2, d1, d2.
    rewrite Ey, Em, Ed. split; [reflexivity|]. repeat split.
    cbn [forallb]. now rewrite H1, H2, H3, H4, H5, H6, H7, H8.
Qed.

End DateKey.
